(** * hw1-q2: linear and neural regression trained by per-example SGD

    A shallow embedding of [hw1/hw1-q2.py].  numpy arrays of float64 are
    modelled as lists over the real numbers: a 1-D array is a [vec], a 2-D
    array (row major) is a [mat], a list of rows.  Arithmetic is exact real
    arithmetic; IEEE rounding, NaN and infinities are outside the model.

    numpy raises (or broadcasts) when shapes disagree.  The list functions
    below are total and agree with numpy on arrays whose shapes fit and whose
    dimensions are positive; the theorems carry these shape conditions as
    hypotheses. *)

From Stdlib Require Import String Bool Arith Lia ZArith Reals Lra List Permutation.
Import ListNotations.

Set Implicit Arguments.
Open Scope R_scope.

(** ** numpy *)

Module Np.

Definition vec := list R.
Definition mat := list (list R).

Fixpoint zip_with {A B C : Type} (f : A -> B -> C) (u : list A) (v : list B) : list C :=
  match u, v with
  | a :: u', b :: v' => f a b :: zip_with f u' v'
  | _, _ => []
  end.

(** [np.zeros(n)] *)
Definition zeros (n : nat) : vec := repeat 0 n.

(** [a + b], [a - b] on arrays of one shape *)
Definition vadd (u v : vec) : vec := zip_with Rplus u v.
Definition vsub (u v : vec) : vec := zip_with Rminus u v.
Definition msub (A B : mat) : mat := zip_with vsub A B.

(** [c * a] and [a - c] with a scalar [c] *)
Definition scale (c : R) (v : vec) : vec := map (Rmult c) v.
Definition mscale (c : R) (A : mat) : mat := map (scale c) A.
Definition vsub_scalar (v : vec) (c : R) : vec := map (fun a => a - c) v.

(** [A + b] with a 2-D [A] and a 1-D [b]: [b] is broadcast over the rows *)
Definition add_rows (A : mat) (b : vec) : mat := map (fun r => vadd r b) A.

Definition sum (v : vec) : R := fold_right Rplus 0 v.

(** [np.dot] of two 1-D arrays *)
Definition dot_vv (u v : vec) : R := sum (zip_with Rmult u v).

Definition ncols (A : mat) : nat :=
  match A with
  | [] => 0%nat
  | r :: _ => length r
  end.

Definition column (j : nat) (A : mat) : vec := map (fun r => nth j r 0) A.
Definition columns (m : nat) (A : mat) : mat := map (fun j => column j A) (seq 0 m).

(** [A.T], [A.transpose()] *)
Definition transpose (A : mat) : mat := columns (ncols A) A.

(** [np.dot] of a 1-D and a 2-D array, of two 2-D arrays, of a 2-D and a
    1-D array, of a scalar and a 1-D array *)
Definition dot_vm (h : vec) (W : mat) : vec := map (dot_vv h) (transpose W).
Definition dot_mm (A B : mat) : mat := map (fun r => dot_vm r B) A.
Definition dot_mv (A : mat) (v : vec) : vec := map (fun r => dot_vv r v) A.
Definition dot_sv (c : R) (v : vec) : vec := scale c v.

(** [v[:,None]]: a 1-D array of length n seen as an n x 1 array *)
Definition as_column (v : vec) : mat := map (fun a => [a]) v.

(** [np.maximum(z, 0)] *)
Definition maximum0 (z : vec) : vec := map (fun a => Rmax a 0) z.
Definition mmaximum0 (Z : mat) : mat := map maximum0 Z.

(** [(h > 0)] as it enters a product: True is 1.0, False is 0.0 *)
Definition gt0 (a : R) : R := if Rlt_dec 0 a then 1 else 0.
Definition vgt0 (h : vec) : vec := map gt0 h.

(** [a * b] elementwise *)
Definition vmul (u v : vec) : vec := zip_with Rmult u v.

(** [z.reshape(-1,)] of a 2-D array *)
Definition flatten (Z : mat) : vec := concat Z.

(** [np.linalg.norm] of a 1-D array *)
Definition norm (v : vec) : R := sqrt (dot_vv v v).

(** [l[i] = v] on a Python list *)
Fixpoint set_nth {A : Type} (i : nat) (v : A) (l : list A) : list A :=
  match l, i with
  | [], _ => []
  | _ :: l', O => v :: l'
  | a :: l', S i' => a :: set_nth i' v l'
  end.

(** [X[order]]: rows picked by an index array *)
Definition take_rows {A : Type} (d : A) (order : list nat) (X : list A) : list A :=
  map (fun i => nth i X d) order.

(** [dot_vm] with the number of columns given, for matrices with no row. *)
Definition dot_vm_cols (m : nat) (h : vec) (W : mat) : vec := map (dot_vv h) (columns m W).

(** The vector of length [n] with 1 at index [i] and 0 elsewhere. *)
Definition unit_vector (n i : nat) : vec :=
  map (fun j => if (i =? j)%nat then 1 else 0) (seq 0 n).

(** Shapes *)
Definition has_shape (n m : nat) (A : mat) : Prop :=
  length A = n /\ Forall (fun r => length r = m) A.

End Np.

Import Np.

(** ** np.linalg.pinv

    numpy computes the pseudo-inverse of [a] from a singular value
    decomposition [a = u @ diag(s) @ vt]; the singular values that are not
    above [rcond * max(s)], with [rcond = 1e-15], are cut to zero and the
    others are inverted:

      cutoff = rcond * amax(s)
      large = s > cutoff
      s = divide(1, s, where=large, out=s)
      s[~large] = 0
      res = matmul(transpose(vt), multiply(s[..., newaxis], transpose(u)))

    The decomposition is LAPACK's; it is described here by what it
    satisfies, for a square [a]. *)

Module Linalg.

(** [np.eye(n)] and [np.diag(s)] *)
Definition identity (n : nat) : mat := map (unit_vector n) (seq 0 n).
Definition diag (s : vec) : mat :=
  map (fun i => scale (nth i s 0) (unit_vector (length s) i)) (seq 0 (length s)).

(** [np.amax(s)] of a 1-D array that is not empty *)
Definition amax (s : vec) : R := fold_right Rmax (hd 0 s) s.

(** [s[..., newaxis] * M]: row [i] of [M] times [s[i]] *)
Definition scale_rows (s : vec) (M : mat) : mat := zip_with scale s M.

Definition rcond : R := 1 / 10 ^ 15.

(** The singular values after the cut: [1 / s[i]] where [s[i] > cutoff],
    0 elsewhere. *)
Definition cut_and_invert (s : vec) : vec :=
  let cutoff := rcond * amax s in
  map (fun x => if Rlt_dec cutoff x then 1 / x else 0) s.

(** [u, s, vt] is a singular value decomposition of the [n x n] matrix
    [a]: [u] and [vt] are orthogonal, [s] is not negative and
    [a = u @ diag(s) @ vt]. *)
Definition svd (n : nat) (a u : mat) (s : vec) (vt : mat) : Prop :=
  has_shape n n u /\ length s = n /\ has_shape n n vt /\
  dot_mm (transpose u) u = identity n /\ dot_mm u (transpose u) = identity n /\
  dot_mm vt (transpose vt) = identity n /\ dot_mm (transpose vt) vt = identity n /\
  Forall (fun x => 0 <= x) s /\
  a = dot_mm (dot_mm u (diag s)) vt.

(** What [pinv] returns, given the decomposition. *)
Definition pinv_of_svd (u : mat) (s : vec) (vt : mat) : mat :=
  dot_mm (transpose vt) (scale_rows (cut_and_invert s) (transpose u)).

(** [p] is a value of [np.linalg.pinv(a)] for the [n x n] matrix [a]. *)
Definition pinv (n : nat) (a p : mat) : Prop :=
  exists (u : mat) (s : vec) (vt : mat), svd n a u s vt /\ p = pinv_of_svd u s vt.

(** No singular value other than 0 is cut. *)
Definition none_cut (s : vec) : Prop :=
  Forall (fun x => x = 0 \/ rcond * amax s < x) s.

End Linalg.

(** ** solve_analytically *)

(** [np.linalg.pinv] is numpy's; it is a parameter here, and [Linalg.pinv]
    says which values numpy can return for it. *)
Definition solve_analytically (pinv : mat -> mat) (X : mat) (y : vec) : vec :=
  let W := dot_mv (dot_mm (pinv (dot_mm (transpose X) X)) (transpose X)) y in
  W.

(** ** Methods as state transformers

    A method reads and writes the attributes of [self]; it is modelled as a
    function from the object's state to its result and the new state. *)

Definition State (S A : Type) : Type := S -> A * S.

Definition ret {S A : Type} (a : A) : State S A := fun s => (a, s).
Definition bind {S A B : Type} (c : State S A) (k : A -> State S B) : State S B :=
  fun s => let (a, s') := c s in k a s'.
Definition get {S : Type} : State S S := fun s => (s, s).
Definition put {S : Type} (s : S) : State S unit := fun _ => (tt, s).

Notation "x <- c ;; k" := (bind c (fun x => k))
  (at level 61, c at next level, right associativity).
Notation "c ;;; k" := (bind c (fun _ => k))
  (at level 61, right associativity).

(** [for a in l: body(a)] *)
Fixpoint for_each {S A B : Type} (l : list A) (body : A -> State S B) : State S unit :=
  match l with
  | [] => ret tt
  | a :: l' => body a ;;; for_each l' body
  end.

(** Keyword arguments of [update_weight]: [learning_rate], or nothing. *)
Record kwargs : Type := { kw_learning_rate : option R }.

(** [learning_rate=0.001] in the signature of [update_weight] *)
Definition learning_rate_of (kw : kwargs) : R :=
  match kw_learning_rate kw with
  | Some lr => lr
  | None => 1 / 1000
  end.

(** ** _RegressionModel *)

(** What the base class expects of a subclass. *)
Class RegressionModel (M : Type) : Type := {
  Ret : Type;
  predict : mat -> State M vec;
  update_weight : vec -> R -> kwargs -> State M Ret
}.

Section BaseClass.

Context {M : Type} `{RegressionModel M}.

Definition train_epoch (X : mat) (y : vec) (kw : kwargs) : State M unit :=
  for_each (combine X y) (fun xy => update_weight (fst xy) (snd xy) kw).

Definition evaluate (X : mat) (y : vec) : State M R :=
  yhat <- predict X ;;
  let error := vsub yhat y in
  let squared_error := dot_vv error error in
  let mean_squared_error := squared_error / INR (length y) in
  ret (sqrt mean_squared_error).

End BaseClass.

(** ** LinearRegression *)

Module Linear.

Record LinearRegression : Type := { w : vec }.

Definition init (n_features : nat) : LinearRegression := {| w := zeros n_features |}.

(** [predict] on a 2-D array *)
Definition predict (X : mat) : State LinearRegression vec :=
  self <- get ;;
  ret (dot_mv X (w self)).

(** [predict] on a 1-D array, as [update_weight] calls it *)
Definition predict1 (x : vec) : State LinearRegression R :=
  self <- get ;;
  ret (dot_vv x (w self)).

Definition update_weight (x_i : vec) (y_i : R) (learning_rate : R)
  : State LinearRegression vec :=
  yhat <- predict1 x_i ;;
  let grad_loss := 2 * (yhat - y_i) in
  self <- get ;;
  let w' := vsub (w self) (scale learning_rate (dot_sv grad_loss x_i)) in
  put {| w := w' |} ;;;
  ret w'.

End Linear.

#[export] Instance Linear_model : RegressionModel Linear.LinearRegression := {
  Ret := vec;
  predict := Linear.predict;
  update_weight := fun x_i y_i kw => Linear.update_weight x_i y_i (learning_rate_of kw)
}.

(** ** NeuralRegression *)

Module Neural.

Record NeuralRegression : Type := {
  weights : list mat;
  biases : list vec
}.

(** [__init__]: the two weight matrices are drawn from a normal
    distribution; the samples are taken as arguments here. *)
Definition init (W0 W1 : mat) (hidden : nat) : NeuralRegression :=
  {| weights := [W0; W1];
     biases := [zeros hidden; zeros 1] |}.

(** The body of the forward loop of [update_weight]; the loop state is
    [hiddens] and the last [z] ([z] is unbound before the first pass; the
    constructor always builds two layers). *)
Definition forward_body (self : NeuralRegression) (x_i : vec) (num_layers : nat)
    (st : list vec * vec) (i : nat) : list vec * vec :=
  let hiddens := fst st in
  let h := if (i =? 0)%nat then x_i else nth (i - 1) hiddens [] in
  let z := vadd (dot_vm h (nth i (weights self) [])) (nth i (biases self) []) in
  if (i <? num_layers - 1)%nat then (hiddens ++ [maximum0 z], z) else (hiddens, z).

Definition forward (self : NeuralRegression) (x_i : vec) : list vec * vec :=
  let num_layers := length (weights self) in
  fold_left (forward_body self x_i num_layers) (seq 0 num_layers) ([], []).

(** The body of the backward loop; the loop state is [grad_z],
    [grad_weights] and [grad_biases]. *)
Definition backward_body (self : NeuralRegression) (x_i : vec) (hiddens : list vec)
    (st : vec * list mat * list vec) (i : nat) : vec * list mat * list vec :=
  let '(grad_z, grad_weights, grad_biases) := st in
  let h := if (i =? 0)%nat then x_i else nth (i - 1) hiddens [] in
  let grad_weights := grad_weights ++ [dot_mm (as_column h) (transpose (as_column grad_z))] in
  let grad_biases := grad_biases ++ [grad_z] in
  let grad_h := dot_vm grad_z (transpose (nth i (weights self) [])) in
  let grad_z := vmul grad_h (vgt0 h) in
  (grad_z, grad_weights, grad_biases).

Definition backward (self : NeuralRegression) (x_i : vec) (hiddens : list vec)
    (grad_z : vec) : vec * list mat * list vec :=
  let num_layers := length (weights self) in
  fold_left (backward_body self x_i hiddens) (rev (seq 0 num_layers)) (grad_z, [], []).

(** The body of the update loop. *)
Definition update_body (learning_rate : R) (grad_weights : list mat)
    (grad_biases : list vec) (self : NeuralRegression) (i : nat) : NeuralRegression :=
  let weights' :=
    set_nth i (msub (nth i (weights self) []) (mscale learning_rate (nth i grad_weights [])))
            (weights self) in
  let biases' :=
    set_nth i (vsub (nth i (biases self) []) (scale learning_rate (nth i grad_biases [])))
            (biases self) in
  {| weights := weights'; biases := biases' |}.

Definition update_weight (x_i : vec) (y_i : R) (learning_rate : R)
  : State NeuralRegression (list mat * list vec) :=
  self <- get ;;
  let num_layers := length (weights self) in
  let '(hiddens, z) := forward self x_i in
  let yhat := z in
  let grad_z := scale 2 (vsub_scalar yhat y_i) in
  let '(_, grad_weights, grad_biases) := backward self x_i hiddens grad_z in
  let grad_weights := rev grad_weights in
  let grad_biases := rev grad_biases in
  let self' := fold_left (update_body learning_rate grad_weights grad_biases)
                         (seq 0 num_layers) self in
  put self' ;;;
  ret (weights self', biases self').

(** The body of the forward loop of [predict], on a 2-D input. *)
Definition predict_body (self : NeuralRegression) (X : mat) (num_layers : nat)
    (st : list mat * mat) (i : nat) : list mat * mat :=
  let hiddens := fst st in
  let h := if (i =? 0)%nat then X else nth (i - 1) hiddens [] in
  let z := add_rows (dot_mm h (nth i (weights self) [])) (nth i (biases self) []) in
  if (i <? num_layers - 1)%nat then (hiddens ++ [mmaximum0 z], z) else (hiddens, z).

Definition predict (X : mat) : State NeuralRegression vec :=
  self <- get ;;
  let num_layers := length (weights self) in
  let '(_, z) := fold_left (predict_body self X num_layers) (seq 0 num_layers) ([], []) in
  let yhat := flatten z in
  ret yhat.

(** The gradients [update_weight] has in [grad_weights] and [grad_biases]
    when it reaches its update loop. *)
Definition gradients (self : NeuralRegression) (x_i : vec) (y_i : R) : list mat * list vec :=
  let '(hiddens, z) := forward self x_i in
  let yhat := z in
  let grad_z := scale 2 (vsub_scalar yhat y_i) in
  let '(_, grad_weights, grad_biases) := backward self x_i hiddens grad_z in
  (rev grad_weights, rev grad_biases).

(** The model with entry [(i, j)] of weight matrix [k], or entry [j] of bias
    vector [k], set to [t]. *)
Definition set_weight (k i j : nat) (t : R) (self : NeuralRegression) : NeuralRegression :=
  let W := nth k (weights self) [] in
  {| weights := set_nth k (set_nth i (set_nth j t (nth i W [])) W) (weights self);
     biases := biases self |}.

Definition set_bias (k j : nat) (t : R) (self : NeuralRegression) : NeuralRegression :=
  {| weights := weights self;
     biases := set_nth k (set_nth j t (nth k (biases self) [])) (biases self) |}.

(** A model of two layers, as [__init__] builds it. *)
Definition two_layers (W0 W1 : mat) (b0 b1 : vec) : NeuralRegression :=
  {| weights := [W0; W1]; biases := [b0; b1] |}.

(** Shapes of a two-layer model with [n] inputs and [hidden] hidden units. *)
Definition well_shaped (n hidden : nat) (self : NeuralRegression) : Prop :=
  exists W0 W1 b0 b1,
    weights self = [W0; W1] /\ biases self = [b0; b1] /\
    has_shape n hidden W0 /\ has_shape hidden 1 W1 /\
    length b0 = hidden /\ length b1 = 1%nat /\
    (0 < n)%nat /\ (0 < hidden)%nat.

End Neural.

#[export] Instance Neural_model : RegressionModel Neural.NeuralRegression := {
  Ret := list mat * list vec;
  predict := Neural.predict;
  update_weight := fun x_i y_i kw => Neural.update_weight x_i y_i (learning_rate_of kw)
}.

(** A model that only records the calls of [update_weight] it receives. *)
Definition CallLog : Type := list (vec * R * kwargs).

Definition Recorder : RegressionModel CallLog := {|
  Ret := unit;
  predict := fun _ => ret [];
  update_weight := fun x_i y_i kw => log <- get ;; put (log ++ [(x_i, y_i, kw)])
|}.

(** ** main *)

Module Main.

(** What the run shows or hands to its collaborators, in order. *)
Inductive event : Type :=
| ConfigureSeed (seed : Z)
| LoadData (bias : bool)
| PrintEpoch (epoch : nat)
| PrintLoss (train test : R)
| Plot (epochs : list nat) (train_loss test_loss : list R)
| PlotDist (epochs : list nat) (dist : list R).

(** How the run ends: [SystemExit] with a status, an uncaught exception, or
    the end of [main]. *)
Inductive outcome : Type :=
| Exit (status : Z)
| Raised (exception : string)
| Completed.

(** An option on the command line: absent, given with a text that its
    [type] converts to the value [a], or given with a text that [type]
    rejects. *)
Inductive given (A : Type) : Type :=
| Absent
| Value (a : A)
| Invalid.

Arguments Absent {A}.
Arguments Value {A} a.
Arguments Invalid {A}.

(** The command line as argparse reads it: whether [-h] or [--help] stands
    before anything argparse rejects, the positional [model], and the three
    options.  A command line without the positional, or with a token that
    is none of these, is outside this type. *)
Record invocation : Type := {
  arg_help : bool;
  arg_model : string;
  arg_epochs : given Z;
  arg_hidden_size : given Z;
  arg_learning_rate : given R
}.

(** [opt], the namespace [parse_args] returns. *)
Record namespace : Type := {
  model : string;
  epochs : Z;
  hidden_size : Z;
  learning_rate : R
}.

Definition choices : list string := ["linear_regression"%string; "nn"%string].

(** The value of an option with [default=d]; nothing when its text does not
    convert. *)
Definition with_default {A : Type} (d : A) (g : given A) : option A :=
  match g with
  | Absent => Some d
  | Value a => Some a
  | Invalid => None
  end.

(** [parser.parse_args()]: argparse prints the help and ends the program
    with status 0 at [-h]; it ends it with a usage message and status 2
    when the positional argument is not among [choices] or the text of an
    option does not convert. *)
Definition parse_args (args : invocation) : Z + namespace :=
  if arg_help args then inl 0%Z
  else if negb (existsb (String.eqb (arg_model args)) choices) then inl 2%Z
  else
    match with_default 150%Z (arg_epochs args),
          with_default 150%Z (arg_hidden_size args),
          with_default (1 / 1000) (arg_learning_rate args) with
    | Some e, Some h, Some lr =>
        inr {| model := arg_model args; epochs := e; hidden_size := h; learning_rate := lr |}
    | _, _, _ => inl 2%Z
    end.

(** The collaborators of [main]. *)
Record environment : Type := {
  (** Modelled from the spec: [utils.load_regression_data], which is not
      among the sources; given whether to append a bias column it returns
      the training and the test set, each a design matrix with its targets. *)
  load_regression_data : bool -> (mat * vec) * (mat * vec);
  (** [np.random.normal(0.1, 0.1, size=(rows, cols))], by call number: the
      sample, or the exception numpy raises when it cannot build an array of
      that size *)
  random_normal : nat -> nat -> nat -> string + mat;
  (** [np.random.permutation(n)] as called in epoch [epoch] *)
  random_permutation : nat -> nat -> list nat;
  (** [np.linalg.pinv] *)
  linalg_pinv : mat -> mat;
  (** [np.arange(1, stop)] for a Python integer [stop] of any size: the
      array, or the exception numpy raises.  numpy computes the length in
      floating point and casts it to a machine integer, so what it does with
      a [stop] near or beyond [2 ^ 63], or with a range the machine cannot
      hold, depends on the machine. *)
  arange_from_1 : Z -> string + list nat
}.

Definition distance (analytic_solution model_params : vec) : R :=
  norm (vsub analytic_solution model_params).

(** [np.arange(1, opt.epochs + 1)] *)
Definition arange_epochs (env : environment) (opt : namespace) : string + list nat :=
  arange_from_1 env (epochs opt + 1).

(** [epochs[-1]] *)
Definition last_epoch (epochs : list nat) : option nat :=
  match rev epochs with
  | [] => None
  | e :: _ => Some e
  end.

(** [plot]: the ticks need [epochs[-1]], which raises on an empty array. *)
Definition plot (epochs : list nat) (train_loss test_loss : list R) : list event * outcome :=
  match last_epoch epochs with
  | None => ([], Raised "IndexError")
  | Some _ => ([Plot epochs train_loss test_loss], Completed)
  end.

Definition plot_dist_from_analytic (epochs : list nat) (dist : list R) : list event * outcome :=
  match last_epoch epochs with
  | None => ([], Raised "IndexError")
  | Some _ => ([PlotDist epochs dist], Completed)
  end.

Section TrainingLoop.

Context {M : Type} {regression_model : RegressionModel M}.

(** [model.w] *)
Variable get_w : M -> vec.

Variables (env : environment) (opt : namespace).
Variables (test_X : mat) (test_y : vec) (analytic_solution : option vec).

(** The variables the training loop reads and writes. *)
Record loop_state : Type := {
  the_model : M;
  train_X : mat;
  train_y : vec;
  train_losses : list R;
  test_losses : list R;
  dist_opt : list R;
  log : list event
}.

Definition epoch_body (st : loop_state) (epoch : nat) : loop_state :=
  let log1 := log st ++ [PrintEpoch epoch] in
  let train_order := random_permutation env epoch (length (train_X st)) in
  let train_X' := take_rows [] train_order (train_X st) in
  let train_y' := take_rows 0 train_order (train_y st) in
  let kw := {| kw_learning_rate := Some (learning_rate opt) |} in
  let (_, m1) := train_epoch train_X' train_y' kw (the_model st) in
  let (train_loss, m2) := evaluate train_X' train_y' m1 in
  let (test_loss, m3) := evaluate test_X test_y m2 in
  let dist_opt' :=
    match analytic_solution with
    | Some a => dist_opt st ++ [distance a (get_w m3)]
    | None => dist_opt st
    end in
  {| the_model := m3;
     train_X := train_X';
     train_y := train_y';
     train_losses := train_losses st ++ [train_loss];
     test_losses := test_losses st ++ [test_loss];
     dist_opt := dist_opt';
     log := log1 ++ [PrintLoss train_loss test_loss] |}.

(** From [epochs = np.arange(...)] to the end of [main]. *)
Definition train_and_plot (st : loop_state) : list event * outcome :=
  match arange_epochs env opt with
  | inl exception => (log st, Raised exception)
  | inr epochs =>
      let st' := fold_left epoch_body epochs st in
      match plot epochs (train_losses st') (test_losses st') with
      | (shown, Completed) =>
          match analytic_solution with
          | Some _ =>
              let (shown', out) := plot_dist_from_analytic epochs (dist_opt st') in
              (log st' ++ shown ++ shown', out)
          | None => (log st' ++ shown, Completed)
          end
      | (shown, out) => (log st' ++ shown, out)
      end
  end.

End TrainingLoop.

Definition main (args : invocation) (env : environment) : list event * outcome :=
  match parse_args args with
  | inl status => ([], Exit status)
  | inr opt =>
      let add_bias := negb (String.eqb (model opt) "nn") in
      let data := load_regression_data env add_bias in
      let '(train_X0, train_y0) := fst data in
      let '(test_X, test_y) := snd data in
      let n_feats := ncols train_X0 in
      let log0 := [ConfigureSeed 42; LoadData add_bias] in
      if String.eqb (model opt) "linear_regression" then
        let analytic_solution := Some (solve_analytically (linalg_pinv env) train_X0 train_y0) in
        let st := {| the_model := Linear.init n_feats;
                     train_X := train_X0; train_y := train_y0;
                     train_losses := []; test_losses := []; dist_opt := [];
                     log := log0 |} in
        train_and_plot Linear.w env opt test_X test_y analytic_solution st
      (* NeuralRegression(n_feats, opt.hidden_size): numpy refuses a
         negative dimension in [np.random.normal(..., size=...)] *)
      else if (hidden_size opt <? 0)%Z then (log0, Raised "ValueError")
      else
        let hidden := Z.to_nat (hidden_size opt) in
        match random_normal env 0 n_feats hidden with
        | inl exception => (log0, Raised exception)
        | inr W0 =>
            match random_normal env 1 hidden 1 with
            | inl exception => (log0, Raised exception)
            | inr W1 =>
                let nn := Neural.init W0 W1 hidden in
                let st := {| the_model := nn;
                             train_X := train_X0; train_y := train_y0;
                             train_losses := []; test_losses := []; dist_opt := [];
                             log := log0 |} in
                train_and_plot (fun _ => []) env opt test_X test_y None st
            end
        end
  end.

(** An [arange] for concrete runs, on a machine that holds arrays of up to
    [2 ^ 20] entries: [np.arange(1, stop)] is empty for a [stop] of at most
    1, holds [1 .. stop - 1] when that many entries fit, and is empty again
    at [stop = 2 ^ 63], where the length, computed in floating point,
    overflows in the cast to a 64-bit integer.  Every other range is
    refused; the exception numpy raises for it depends on the size, and is
    [MemoryError] here. *)
Definition sample_arange (stop : Z) : string + list nat :=
  if ((- 2 ^ 63 <=? stop) && (stop <=? 1))%Z then inr []
  else if ((1 <? stop) && (stop - 1 <=? 2 ^ 20))%Z then inr (seq 1 (Z.to_nat (stop - 1)))
  else if (stop =? 2 ^ 63)%Z then inr []
  else inl "MemoryError"%string.

(** A small environment for concrete runs: two training rows, one test
    row, the identity shuffle, weights drawn as zero (matrices of up to
    [2 ^ 20] entries), and the inverse of the Gram matrix of the training
    rows for [pinv]. *)
Definition sample_environment : environment :=
  {| load_regression_data := fun _ => (([[1; 1]; [2; 1]], [3; 5]), ([[3; 1]], [7]));
     random_normal := fun _ rows cols =>
       if (Z.of_nat rows * Z.of_nat cols <=? 2 ^ 20)%Z then inr (repeat (repeat 0 cols) rows)
       else inl "MemoryError"%string;
     random_permutation := fun _ n => seq 0 n;
     linalg_pinv := fun _ => [[2; -3]; [-3; 5]];
     arange_from_1 := sample_arange |}.

(** The lines printed by the run. *)
Definition printed (l : list event) : list event :=
  filter (fun e => match e with PrintEpoch _ | PrintLoss _ _ => true | _ => false end) l.

End Main.

(** ** What the spec says, in its own words *)

Module Spec.

(** [mean(v)] *)
Definition mean (v : vec) : R := sum v / INR (length v).

(** [sqrt(mean((prediction - target)^2))] *)
Definition rmse (prediction target : vec) : R :=
  sqrt (mean (map (fun e => e ^ 2) (vsub prediction target))).

(** The outer product of two vectors. *)
Definition outer (u v : vec) : mat := map (fun a => map (fun b => a * b) v) u.

(** The derivative of ReLU applied to an incoming gradient: pass-through
    where the pre-activation is positive, zero otherwise. *)
Definition relu_backward (grad pre_activation : vec) : vec :=
  zip_with (fun g z => if Rlt_dec 0 z then g else 0) grad pre_activation.

(** The squared error [(yhat_i - y_i)^2] of the network on one example. *)
Definition squared_error (self : Neural.NeuralRegression) (x_i : vec) (y_i : R) : R :=
  (hd 0 (snd (Neural.forward self x_i)) - y_i) ^ 2.

(** The linear model's step: [w - learning_rate * 2 * (dot(x_i, w) - y_i) * x_i]. *)
Definition linear_step (w x_i : vec) (y_i learning_rate : R) : vec :=
  zip_with (fun w_j x_j => w_j - learning_rate * 2 * (dot_vv x_i w - y_i) * x_j) w x_i.

End Spec.

(** ** Predicates of the statements *)

(** A model predicts row by row when the prediction for a batch is the list
    of the predictions for its rows. *)
Definition row_wise {M : Type} {model : RegressionModel M} (s : M) (f : vec -> R) : Prop :=
  forall X : mat, fst (predict X s) = map f X.

(** [P] is a generalized inverse of the square matrix [G]. *)
Definition generalized_inverse (n : nat) (G P : mat) : Prop :=
  has_shape n n P /\ dot_mm (dot_mm G P) G = G.

(** The collaborators of [main] hand back arrays that fit together: the
    training and the test set are not empty, their rows have one length and
    each row has its target; a shuffle is a permutation of the row indices;
    [pinv] of the Gram matrix of the training rows has its shape; a sample
    of [np.random.normal] has the shape asked for.  numpy raises where
    shapes do not fit, and the list functions do not. *)
Definition fitting_data (data : (mat * vec) * (mat * vec)) : Prop :=
  let train_X := fst (fst data) in
  let train_y := snd (fst data) in
  let test_X := fst (snd data) in
  let test_y := snd (snd data) in
  exists n_train n_test n_feats : nat,
    (0 < n_train)%nat /\ (0 < n_test)%nat /\ (0 < n_feats)%nat /\
    has_shape n_train n_feats train_X /\ length train_y = n_train /\
    has_shape n_test n_feats test_X /\ length test_y = n_test.

Definition orderly (env : Main.environment) : Prop :=
  (forall bias : bool, fitting_data (Main.load_regression_data env bias)) /\
  (forall epoch n : nat, Permutation (Main.random_permutation env epoch n) (seq 0 n)) /\
  (let train_X := fst (fst (Main.load_regression_data env true)) in
   has_shape (ncols train_X) (ncols train_X)
             (Main.linalg_pinv env (dot_mm (transpose train_X) train_X))) /\
  (forall (call rows cols : nat) (W : mat),
      Main.random_normal env call rows cols = inr W -> has_shape rows cols W).

(** [NeuralRegression(n_feats, hidden_size)] gets its two weight matrices:
    the hidden size is not negative and numpy returns both samples. *)
Definition weights_drawn (env : Main.environment) (hidden_size : Z) : Prop :=
  (0 <= hidden_size)%Z /\
  let n_feats := ncols (fst (fst (Main.load_regression_data env false))) in
  exists W0 W1 : mat,
    Main.random_normal env 0 n_feats (Z.to_nat hidden_size) = inr W0 /\
    Main.random_normal env 1 (Z.to_nat hidden_size) 1 = inr W1.

(** The two lines printed in one epoch. *)
Definition print_lines (el : nat * (R * R)) : list Main.event :=
  [Main.PrintEpoch (fst el); Main.PrintLoss (fst (snd el)) (snd (snd el))].

(** ** Lists *)

(** Equality of concrete arrays, entry by entry. *)
Ltac array_eq :=
  repeat match goal with
         | |- _ :: _ = _ :: _ => apply f_equal2
         | |- @nil _ = @nil _ => reflexivity
         | |- (_, _) = (_, _) => apply f_equal2
         end.

(** Evaluation of the array functions on concrete arrays, down to
    expressions over the reals. *)
Ltac np_compute :=
  cbv -[Rplus Rmult Rminus Rdiv Rinv Ropp Rmax Rlt_dec IZR sqrt INR Rle Rlt].


Section ZipWith.

Context {A B C : Type}.

Lemma zip_with_length (f : A -> B -> C) (u : list A) (v : list B) :
  length (zip_with f u v) = Nat.min (length u) (length v).
Proof.
  revert v; induction u as [|a u IH]; intros [|b v]; simpl; auto.
Qed.

Lemma zip_with_ext (f g : A -> B -> C) (u : list A) (v : list B) :
  (forall a b, f a b = g a b) -> zip_with f u v = zip_with g u v.
Proof.
  intros E; revert v; induction u as [|a u IH]; intros [|b v]; simpl; auto.
  now rewrite E, IH.
Qed.

Lemma zip_with_map_r {B' : Type} (f : A -> B -> C) (g : B' -> B) (u : list A) (v : list B') :
  zip_with f u (map g v) = zip_with (fun a b => f a (g b)) u v.
Proof.
  revert v; induction u as [|a u IH]; intros [|b v]; simpl; auto.
  now rewrite IH.
Qed.


End ZipWith.

Lemma zip_with_diag {A C : Type} (f : A -> A -> C) (u : list A) :
  zip_with f u u = map (fun a => f a a) u.
Proof.
  induction u as [|a u IH]; simpl; auto. now rewrite IH.
Qed.

Lemma for_each_fold {S A B : Type} (body : A -> State S B) (l : list A) (s : S) :
  for_each l body s = (tt, fold_left (fun s a => snd (body a s)) l s).
Proof.
  revert s; induction l as [|a l IH]; intros s; simpl.
  - reflexivity.
  - unfold bind. destruct (body a s) as [b s'] eqn:E. simpl. apply IH.
Qed.

(** ** LinearRegression.update_weight *)

(** C2: one step of the linear model sets [w] to
    [w - learning_rate * 2 * (dot(x_i, w) - y_i) * x_i], with [w] the weights
    before the call; the new vector is stored in the model and returned. *)
Theorem linear_update_weight_step (self : Linear.LinearRegression) (x_i : vec) (y_i lr : R) :
  length x_i = length (Linear.w self) ->
  let w' := Spec.linear_step (Linear.w self) x_i y_i lr in
  Linear.update_weight x_i y_i lr self = (w', {| Linear.w := w' |}) /\
  length w' = length (Linear.w self).
Proof.
  intros Hlen w'.
  assert (E : vsub (Linear.w self) (scale lr (dot_sv (2 * (dot_vv x_i (Linear.w self) - y_i)) x_i)) = w').
  { unfold w', Spec.linear_step, vsub, dot_sv, scale.
    rewrite map_map, zip_with_map_r. apply zip_with_ext. intros; ring. }
  split.
  - unfold Linear.update_weight, Linear.predict1, bind, get, put, ret. simpl.
    now rewrite E.
  - unfold w', Spec.linear_step. rewrite zip_with_length. lia.
Qed.

Lemma linear_update_weight_step_witness :
  let self := {| Linear.w := [1; 2] |} in
  Linear.update_weight [3; 4] 5 (1 / 10) self
  = (Spec.linear_step [1; 2] [3; 4] 5 (1 / 10),
     {| Linear.w := Spec.linear_step [1; 2] [3; 4] 5 (1 / 10) |}).
Proof.
  intros self.
  exact (proj1 (@linear_update_weight_step self [3; 4] 5 (1 / 10) eq_refl)).
Defined.

(** ** _RegressionModel.train_epoch *)

(** C7: [train_epoch] folds [update_weight] over the pairs [(x_i, y_i)] in
    row order, each call starting from the state the previous one left and
    receiving the same keyword arguments; the recording model sees exactly
    one call per pair, in that order. *)
Theorem train_epoch_sequential_fold :
  (forall (M : Type) (model : RegressionModel M) (X : mat) (y : vec) (kw : kwargs) (s : M),
      train_epoch X y kw s
      = (tt, fold_left (fun s xy => snd (update_weight (fst xy) (snd xy) kw s))
                       (combine X y) s)) /\
  (forall (X : mat) (y : vec) (kw : kwargs) (log : CallLog),
      snd (@train_epoch _ Recorder X y kw log)
      = log ++ map (fun xy => (fst xy, snd xy, kw)) (combine X y)).
Proof.
  split.
  - intros. unfold train_epoch. apply for_each_fold.
  - intros X y kw log. unfold train_epoch. rewrite for_each_fold. simpl.
    revert log. induction (combine X y) as [|[x yi] l IH]; intros log; simpl.
    + now rewrite app_nil_r.
    + rewrite IH, <- app_assoc. reflexivity.
Qed.

(** ** _RegressionModel.evaluate *)

Lemma dot_vv_self (e : vec) : dot_vv e e = sum (map (fun a => a ^ 2) e).
Proof.
  unfold dot_vv. rewrite zip_with_diag. f_equal. apply map_ext. intros; ring.
Qed.

(** C5: on a non-empty dataset whose predictions are as many as its
    targets, [evaluate] returns [sqrt(mean((predict(X) - y)^2))] for the
    prediction of the model at hand, and leaves the model as [predict] does. *)
Theorem evaluate_is_rmse (M : Type) (model : RegressionModel M) (X : mat) (y : vec) (s : M) :
  y <> [] ->
  length (fst (predict X s)) = length y ->
  evaluate X y s = (Spec.rmse (fst (predict X s)) y, snd (predict X s)).
Proof.
  intros _ Hlen. unfold evaluate, bind, ret.
  destruct (predict X s) as [yhat s'] eqn:E. simpl in *.
  f_equal. unfold Spec.rmse, Spec.mean. f_equal.
  rewrite dot_vv_self, length_map. unfold vsub. rewrite zip_with_length, Hlen, Nat.min_id.
  reflexivity.
Qed.

Lemma evaluate_is_rmse_witness :
  let self := {| Linear.w := [1; 2] |} in
  evaluate [[1; 0]; [0; 1]] [3; 4] self
  = (Spec.rmse (fst (predict [[1; 0]; [0; 1]] self)) [3; 4],
     snd (predict [[1; 0]; [0; 1]] self)).
Proof.
  intros self.
  apply (@evaluate_is_rmse _ Linear_model [[1; 0]; [0; 1]] [3; 4] self).
  - discriminate.
  - reflexivity.
Defined.

(** ** Shapes of numpy results *)

Lemma length_columns (m : nat) (A : mat) : length (columns m A) = m.
Proof. unfold columns. now rewrite length_map, length_seq. Qed.

Lemma ncols_has_shape (k m : nat) (A : mat) :
  has_shape k m A -> (0 < k)%nat -> ncols A = m.
Proof.
  intros [Hk Hr] Hpos. destruct A as [|r A]; simpl in *; [lia|].
  now inversion Hr.
Qed.

Lemma length_dot_vm (h : vec) (W : mat) : length (dot_vm h W) = ncols W.
Proof. unfold dot_vm, transpose. now rewrite length_map, length_columns. Qed.

Lemma length_maximum0 (z : vec) : length (maximum0 z) = length z.
Proof. unfold maximum0. apply length_map. Qed.

Lemma length_concat_singletons (Z : mat) :
  Forall (fun r => length r = 1%nat) Z -> length (concat Z) = length Z.
Proof.
  induction 1 as [|r Z Hr _ IH]; simpl; auto.
  rewrite length_app, Hr, IH. reflexivity.
Qed.


(** ** The loops of NeuralRegression on a two-layer model *)

Section TwoLayers.

Variables (W0 W1 : mat) (b0 b1 : vec).

Lemma forward_two_layers (x_i : vec) :
  let z0 := vadd (dot_vm x_i W0) b0 in
  let h0 := maximum0 z0 in
  Neural.forward (Neural.two_layers W0 W1 b0 b1) x_i = ([h0], vadd (dot_vm h0 W1) b1).
Proof. reflexivity. Qed.

Lemma backward_two_layers (x_i h0 grad_z : vec) :
  let grad_h0 := dot_vm grad_z (transpose W1) in
  let grad_z0 := vmul grad_h0 (vgt0 h0) in
  Neural.backward (Neural.two_layers W0 W1 b0 b1) x_i [h0] grad_z
  = (vmul (dot_vm grad_z0 (transpose W0)) (vgt0 x_i),
     [dot_mm (as_column h0) (transpose (as_column grad_z));
      dot_mm (as_column x_i) (transpose (as_column grad_z0))],
     [grad_z; grad_z0]).
Proof. reflexivity. Qed.

Lemma update_two_layers (lr : R) (gW0 gW1 : mat) (gb0 gb1 : vec) :
  fold_left (Neural.update_body lr [gW0; gW1] [gb0; gb1]) (seq 0 2) (Neural.two_layers W0 W1 b0 b1)
  = {| Neural.weights := [msub W0 (mscale lr gW0); msub W1 (mscale lr gW1)];
       Neural.biases := [vsub b0 (scale lr gb0); vsub b1 (scale lr gb1)] |}.
Proof. reflexivity. Qed.

Lemma predict_two_layers (X : mat) :
  let z0 := add_rows (dot_mm X W0) b0 in
  let h0 := mmaximum0 z0 in
  let z1 := add_rows (dot_mm h0 W1) b1 in
  Neural.predict X (Neural.two_layers W0 W1 b0 b1) = (flatten z1, (Neural.two_layers W0 W1 b0 b1)).
Proof. reflexivity. Qed.

End TwoLayers.

Lemma well_shaped_inv (n hidden : nat) (self : Neural.NeuralRegression) :
  Neural.well_shaped n hidden self ->
  exists W0 W1 b0 b1,
    self = Neural.two_layers W0 W1 b0 b1 /\
    ncols W0 = hidden /\ ncols W1 = 1%nat /\ length W0 = n /\ length W1 = hidden /\
    length b0 = hidden /\ length b1 = 1%nat.
Proof.
  intros (W0 & W1 & b0 & b1 & HW & Hb & S0 & S1 & L0 & L1 & Hn & Hh).
  exists W0, W1, b0, b1. destruct self as [ws bs]; simpl in *; subst.
  repeat split; auto.
  - eapply ncols_has_shape; eauto.
  - eapply ncols_has_shape; eauto.
  - apply S0.
  - apply S1.
Qed.

Lemma length_output_row (h : vec) (W1 : mat) (b1 : vec) :
  ncols W1 = 1%nat -> length b1 = 1%nat -> length (vadd (dot_vm h W1) b1) = 1%nat.
Proof.
  intros HW Hb. unfold vadd. rewrite zip_with_length, length_dot_vm, HW, Hb. reflexivity.
Qed.

(** ** NeuralRegression.predict *)

(** C3: on a well-shaped two-layer model and an input of [n_points] rows,
    [predict] returns the rows of [z1 = h0.W1 + b1], taken flat, where
    [h0 = max(z0, 0)] and [z0 = X.W0 + b0]; the result has [n_points]
    entries, nothing is applied to [z1], and the model is left as it was. *)
Theorem neural_predict_forward_pass (n hidden : nat) (self : Neural.NeuralRegression) (X : mat) :
  Neural.well_shaped n hidden self ->
  Forall (fun r => length r = n) X ->
  let W0 := nth 0 (Neural.weights self) [] in
  let W1 := nth 1 (Neural.weights self) [] in
  let b0 := nth 0 (Neural.biases self) [] in
  let b1 := nth 1 (Neural.biases self) [] in
  let z0 := add_rows (dot_mm X W0) b0 in
  let h0 := mmaximum0 z0 in
  let z1 := add_rows (dot_mm h0 W1) b1 in
  Neural.predict X self = (flatten z1, self) /\
  length (flatten z1) = length X /\
  z1 = map (fun yhat => [yhat]) (flatten z1).
Proof.
  intros Hs _.
  destruct (well_shaped_inv Hs) as (W0 & W1 & b0 & b1 & -> & C0 & C1 & R0 & R1 & L0 & L1).
  simpl. split; [apply predict_two_layers|].
  set (h0 := mmaximum0 (add_rows (dot_mm X W0) b0)).
  assert (Hrows : Forall (fun r => length r = 1%nat) (add_rows (dot_mm h0 W1) b1)).
  { unfold add_rows, dot_mm. rewrite map_map. apply Forall_forall.
    intros r Hr. apply in_map_iff in Hr as (h & <- & _). now apply length_output_row. }
  split.
  - unfold flatten. rewrite length_concat_singletons by exact Hrows.
    unfold h0, mmaximum0, add_rows, dot_mm. now rewrite !length_map.
  - unfold flatten. induction Hrows as [|r Z Hr _ IH]; simpl; auto.
    destruct r as [|a [|b r]]; try discriminate. simpl. now rewrite <- IH.
Qed.

Lemma neural_predict_forward_pass_witness :
  let self := Neural.init [[1]; [1]] [[2]] 1 in
  fst (Neural.predict [[1; 2]; [0; -1]] self)
  = flatten (add_rows (dot_mm (mmaximum0 (add_rows (dot_mm [[1; 2]; [0; -1]] [[1]; [1]]) [0])) [[2]]) [0]).
Proof.
  intros self.
  assert (Hs : Neural.well_shaped 2 1 self).
  { exists [[1]; [1]], [[2]], [0], [0]. unfold has_shape. simpl.
    repeat split; auto; try lia; repeat constructor. }
  assert (HX : Forall (fun r => length r = 2%nat) [[1; 2]; [0; -1]]).
  { repeat constructor. }
  exact (f_equal fst (proj1 (@neural_predict_forward_pass 2 1 self [[1; 2]; [0; -1]] Hs HX))).
Defined.

(** ** The two forward passes *)

(** C10: on a well-shaped model, the forward pass inside [update_weight]
    ends with a one-entry array [yhat], and [predict] on the one-row batch
    made of the same example returns that same one-entry array. *)
Theorem forward_pass_agrees_with_predict (n hidden : nat)
    (self : Neural.NeuralRegression) (x_i : vec) :
  Neural.well_shaped n hidden self ->
  length x_i = n ->
  exists yhat : R,
    snd (Neural.forward self x_i) = [yhat] /\
    fst (Neural.predict [x_i] self) = [yhat].
Proof.
  intros Hs _.
  destruct (well_shaped_inv Hs) as (W0 & W1 & b0 & b1 & -> & C0 & C1 & R0 & R1 & L0 & L1).
  rewrite forward_two_layers, predict_two_layers. simpl.
  set (z := vadd (dot_vm (maximum0 (vadd (dot_vm x_i W0) b0)) W1) b1).
  assert (Hz : length z = 1%nat) by now apply length_output_row.
  destruct z as [|yhat [|? ?]] eqn:E; try discriminate.
  exists yhat. split; reflexivity.
Qed.

Lemma forward_pass_agrees_with_predict_witness :
  let self := Neural.init [[1]; [1]] [[2]] 1 in
  exists yhat : R,
    snd (Neural.forward self [1; 2]) = [yhat] /\
    fst (Neural.predict [[1; 2]] self) = [yhat].
Proof.
  intros self.
  assert (Hs : Neural.well_shaped 2 1 self).
  { exists [[1]; [1]], [[2]], [0], [0]. unfold has_shape. simpl.
    repeat split; auto; try lia; repeat constructor. }
  exact (@forward_pass_agrees_with_predict 2 1 self [1; 2] Hs eq_refl).
Defined.

(** ** Indexing and transposition *)

Lemma map_nth_seq {A : Type} (d : A) (l : list A) :
  map (fun i => nth i l d) (seq 0 (length l)) = l.
Proof.
  induction l as [|a l IH]; simpl; auto.
  rewrite <- seq_shift, map_map. simpl. now rewrite IH.
Qed.

Lemma nth_column (i j : nat) (A : mat) : nth i (column j A) 0 = nth j (nth i A []) 0.
Proof.
  unfold column.
  assert (E : 0 = (fun r : vec => nth j r 0) []) by (destruct j; reflexivity).
  rewrite E at 1. apply (map_nth (fun r : vec => nth j r 0)).
Qed.

Lemma column_columns (i m : nat) (A : mat) :
  column i (columns m A) = map (fun j => nth j (nth i A []) 0) (seq 0 m).
Proof.
  unfold column at 1, columns. rewrite map_map. apply map_ext. intros j. apply nth_column.
Qed.

Lemma ncols_columns (m : nat) (A : mat) : (0 < m)%nat -> ncols (columns m A) = length A.
Proof.
  intros Hm. unfold columns. destruct m as [|m]; [lia|]. simpl.
  unfold column. apply length_map.
Qed.

Lemma transpose_involutive (k m : nat) (A : mat) :
  has_shape k m A -> (0 < k)%nat -> (0 < m)%nat -> transpose (transpose A) = A.
Proof.
  intros HA Hk Hm. pose proof (ncols_has_shape HA Hk) as Hc. destruct HA as [HkA HrA].
  unfold transpose at 2. rewrite Hc. unfold transpose.
  rewrite ncols_columns by exact Hm. unfold columns at 1.
  transitivity (map (fun i => nth i A []) (seq 0 (length A))); [|apply map_nth_seq].
  apply map_ext_in. intros i Hi. apply in_seq in Hi.
  rewrite column_columns.
  assert (Hr : length (nth i A []) = m).
  { rewrite Forall_forall in HrA. apply HrA. apply nth_In. lia. }
  rewrite <- Hr. apply map_nth_seq.
Qed.

Lemma transpose_row (g : vec) : transpose [g] = as_column g.
Proof.
  unfold transpose, columns, column, as_column. simpl.
  rewrite <- (map_map (fun j => nth j g 0) (fun a => [a])). now rewrite map_nth_seq.
Qed.

Lemma transpose_as_column (g : vec) : g <> [] -> transpose (as_column g) = [g].
Proof.
  intros Hg. destruct g as [|a g]; [congruence|].
  unfold transpose, columns, column. simpl. f_equal. f_equal.
  unfold as_column. rewrite map_map. simpl. apply map_id.
Qed.

Lemma dot_outer (h g : vec) :
  dot_mm (as_column h) (transpose (as_column g)) = Spec.outer h g.
Proof.
  unfold Spec.outer. destruct g as [|b g].
  - unfold dot_mm, as_column. rewrite map_map. reflexivity.
  - rewrite transpose_as_column by discriminate.
    unfold dot_mm, as_column at 1. rewrite map_map. apply map_ext. intros a.
    unfold dot_vm. rewrite transpose_row. unfold as_column. rewrite map_map.
    apply map_ext. intros c. unfold dot_vv. simpl. ring.
Qed.

(** ** ReLU and its mask *)

Lemma gt0_maximum0 (z : R) : gt0 (Rmax z 0) = gt0 z.
Proof.
  unfold gt0, Rmax.
  destruct (Rle_dec z 0), (Rlt_dec 0 0), (Rlt_dec 0 z); try reflexivity; lra.
Qed.

Lemma relu_mask (grad_h z0 : vec) :
  vmul grad_h (vgt0 (maximum0 z0)) = Spec.relu_backward grad_h z0.
Proof.
  unfold vmul, vgt0, maximum0, Spec.relu_backward.
  rewrite map_map, zip_with_map_r. apply zip_with_ext. intros g z.
  rewrite gt0_maximum0. unfold gt0. destruct (Rlt_dec 0 z); ring.
Qed.

Lemma dot_vv_comm (u v : vec) : dot_vv u v = dot_vv v u.
Proof.
  unfold dot_vv. revert v; induction u as [|a u IH]; intros [|b v]; simpl; auto.
  specialize (IH v). unfold sum in *. rewrite IH. ring.
Qed.

Lemma dot_vm_transpose (k m : nat) (W : mat) (g : vec) :
  has_shape k m W -> (0 < k)%nat -> (0 < m)%nat ->
  dot_vm g (transpose W) = dot_mv W g.
Proof.
  intros HW Hk Hm. unfold dot_vm, dot_mv.
  rewrite (transpose_involutive HW Hk Hm). apply map_ext. intros r. apply dot_vv_comm.
Qed.

Lemma nth_relu_backward (grad z : vec) (j : nat) :
  nth j (Spec.relu_backward grad z) 0
  = if Rlt_dec 0 (nth j z 0) then nth j grad 0 else 0.
Proof.
  unfold Spec.relu_backward. revert z j.
  induction grad as [|g grad IH]; intros [|a z] [|j]; simpl; auto;
    try (destruct (Rlt_dec 0 0); [lra | reflexivity]);
    try (destruct (Rlt_dec 0 _); reflexivity).
Qed.

(** ** NeuralRegression.update_weight *)

(** On a well-shaped two-layer model the three loops of [update_weight]
    come to this: every weight matrix and bias vector is replaced by its
    value before the call minus [learning_rate] times a gradient computed
    in the backward sweep from the parameters before the call. *)
Lemma neural_update_weight_sgd_step (n hidden : nat)
    (self : Neural.NeuralRegression) (x_i : vec) (y_i lr : R) :
  Neural.well_shaped n hidden self ->
  length x_i = n ->
  let W0 := nth 0 (Neural.weights self) [] in
  let W1 := nth 1 (Neural.weights self) [] in
  let b0 := nth 0 (Neural.biases self) [] in
  let b1 := nth 1 (Neural.biases self) [] in
  let z0 := vadd (dot_vm x_i W0) b0 in
  let h0 := maximum0 z0 in
  let yhat := vadd (dot_vm h0 W1) b1 in
  let grad_z1 := scale 2 (vsub_scalar yhat y_i) in
  let grad_h0 := dot_vm grad_z1 (transpose W1) in
  let grad_z0 := Spec.relu_backward grad_h0 z0 in
  let self' :=
    {| Neural.weights := [msub W0 (mscale lr (Spec.outer x_i grad_z0));
                          msub W1 (mscale lr (Spec.outer h0 grad_z1))];
       Neural.biases := [vsub b0 (scale lr grad_z0); vsub b1 (scale lr grad_z1)] |} in
  Neural.update_weight x_i y_i lr self
  = ((Neural.weights self', Neural.biases self'), self').
Proof.
  intros Hs _.
  destruct (well_shaped_inv Hs) as (W0 & W1 & b0 & b1 & -> & _).
  simpl. unfold Neural.update_weight, bind, get, put, ret.
  rewrite forward_two_layers, backward_two_layers. simpl rev. simpl length.
  rewrite update_two_layers, !dot_outer, relu_mask. reflexivity.
Qed.

Lemma neural_update_weight_sgd_step_example :
  let self := Neural.init [[1]; [1]] [[2]] 1 in
  exists self', Neural.update_weight [1; 2] 5 (1 / 10) self
                = ((Neural.weights self', Neural.biases self'), self').
Proof.
  intros self.
  assert (Hs : Neural.well_shaped 2 1 self).
  { exists [[1]; [1]], [[2]], [0], [0]. unfold has_shape. simpl.
    repeat split; auto; try lia; repeat constructor. }
  eexists.
  exact (@neural_update_weight_sgd_step 2 1 self [1; 2] 5 (1 / 10) Hs eq_refl).
Defined.

(** A step worked by hand: one hidden unit, weights [W0 = [[1], [1]]],
    [W1 = [[2]]], zero biases, the example [x_i = [1, 2]], [y_i = 5] and
    learning rate 0.1.  Forward: [z0 = 3], [h0 = 3], [yhat = 6]; backward:
    [grad_z1 = 2], [grad_W1 = 6], [grad_z0 = 4], [grad_W0 = [[4], [8]]]. *)
Example neural_update_weight_worked :
  Neural.update_weight [1; 2] 5 (1 / 10) (Neural.init [[1]; [1]] [[2]] 1)
  = (([[[3 / 5]; [1 / 5]]; [[7 / 5]]], [[- (2 / 5)]; [- (1 / 5)]]),
     {| Neural.weights := [[[3 / 5]; [1 / 5]]; [[7 / 5]]];
        Neural.biases := [[- (2 / 5)]; [- (1 / 5)]] |}).
Proof.
  np_compute.
  replace (Rmax (1 * 1 + (2 * 1 + 0) + 0) 0) with 3
    by (unfold Rmax; destruct (Rle_dec _ _); lra).
  destruct (Rlt_dec 0 3) as [_|H]; [|exfalso; lra].
  apply f_equal2; [|apply f_equal2]; array_eq; lra.
Qed.

(** C8: when the backward sweep leaves the output layer, the gradient
    handed to the hidden layer is the propagated gradient where the hidden
    pre-activation is strictly positive and zero elsewhere; where the
    pre-activation is exactly zero it is zero. *)
Theorem relu_gradient_mask (n hidden : nat) (self : Neural.NeuralRegression)
    (x_i grad_z : vec) (grad_weights : list mat) (grad_biases : list vec) :
  Neural.well_shaped n hidden self ->
  length x_i = n ->
  let W0 := nth 0 (Neural.weights self) [] in
  let W1 := nth 1 (Neural.weights self) [] in
  let b0 := nth 0 (Neural.biases self) [] in
  let z0 := vadd (dot_vm x_i W0) b0 in
  let hiddens := fst (Neural.forward self x_i) in
  let grad_h := dot_vm grad_z (transpose W1) in
  let grad_z0 :=
    fst (fst (Neural.backward_body self x_i hiddens (grad_z, grad_weights, grad_biases) 1)) in
  length z0 = hidden /\ length grad_h = hidden /\ length grad_z0 = hidden /\
  forall j : nat,
    (0 < nth j z0 0 -> nth j grad_z0 0 = nth j grad_h 0) /\
    (nth j z0 0 <= 0 -> nth j grad_z0 0 = 0) /\
    (nth j z0 0 = 0 -> nth j grad_z0 0 = 0).
Proof.
  intros Hs _.
  pose proof Hs as (W0' & W1' & b0' & b1' & HW & Hb & S0 & S1 & _ & _ & Hn & Hh).
  destruct (well_shaped_inv Hs) as (W0 & W1 & b0 & b1 & -> & C0 & C1 & R0 & R1 & L0 & L1).
  simpl in HW, Hb. injection HW as <- <-. injection Hb as <- <-.
  rewrite forward_two_layers. simpl.
  rewrite relu_mask.
  assert (Lz : length (vadd (dot_vm x_i W0) b0) = hidden).
  { unfold vadd. rewrite zip_with_length, length_dot_vm, C0, L0. apply Nat.min_id. }
  assert (Lg : length (dot_vm grad_z (transpose W1)) = hidden).
  { rewrite (dot_vm_transpose grad_z S1 Hh Nat.lt_0_1). unfold dot_mv.
    now rewrite length_map. }
  repeat split.
  - exact Lz.
  - exact Lg.
  - unfold Spec.relu_backward. rewrite zip_with_length, Lz, Lg. apply Nat.min_id.
  - intros Hpos. rewrite nth_relu_backward. destruct (Rlt_dec 0 _); [reflexivity | lra].
  - intros Hneg. rewrite nth_relu_backward. destruct (Rlt_dec 0 _); [lra | reflexivity].
  - intros Hzero. rewrite nth_relu_backward. destruct (Rlt_dec 0 _); [lra | reflexivity].
Qed.

Lemma relu_gradient_mask_witness :
  let self := Neural.init [[1]; [-1]] [[2]] 1 in
  let hiddens := fst (Neural.forward self [1; 1]) in
  nth 0 (vadd (dot_vm [1; 1] [[1]; [-1]]) [0]) 0 = 0 /\
  nth 0 (fst (fst (Neural.backward_body self [1; 1] hiddens ([3], [], []) 1))) 0 = 0.
Proof.
  intros self hiddens.
  assert (Hs : Neural.well_shaped 2 1 self).
  { exists [[1]; [-1]], [[2]], [0], [0]. unfold has_shape. simpl.
    repeat split; auto; try lia; repeat constructor. }
  assert (Hz : nth 0 (vadd (dot_vm [1; 1] [[1]; [-1]]) [0]) 0 = 0).
  { np_compute. lra. }
  split; [exact Hz|].
  pose proof (@relu_gradient_mask 2 1 self [1; 1] [3] [] [] Hs eq_refl) as H.
  destruct H as (_ & _ & _ & H). exact (proj2 (proj2 (H 0%nat)) Hz).
Defined.

(** ** Sums and permutations *)

Lemma sum_Permutation (u v : vec) : Permutation u v -> sum u = sum v.
Proof.
  induction 1; simpl; lra.
Qed.

Lemma zip_with_same_index {A B C I : Type} (f : A -> B -> C) (g1 : I -> A) (g2 : I -> B)
    (order : list I) :
  zip_with f (map g1 order) (map g2 order) = map (fun i => f (g1 i) (g2 i)) order.
Proof. induction order as [|i order IH]; simpl; congruence. Qed.

Lemma zip_with_by_index {A B C : Type} (f : A -> B -> C) (dA : A) (dB : B)
    (u : list A) (v : list B) :
  length u = length v ->
  zip_with f u v = map (fun i => f (nth i u dA) (nth i v dB)) (seq 0 (length u)).
Proof.
  revert v; induction u as [|a u IH]; intros [|b v] Hlen; simpl in *; try discriminate; auto.
  rewrite <- seq_shift, map_map. simpl. f_equal. apply IH. congruence.
Qed.

Lemma length_take_rows {A : Type} (d : A) (order : list nat) (X : list A) :
  length (take_rows d order X) = length order.
Proof. unfold take_rows. apply length_map. Qed.

Section RowWise.

Context {M : Type} {model : RegressionModel M}.

Lemma evaluate_value (X : mat) (y : vec) (s : M) :
  fst (evaluate X y s)
  = sqrt (dot_vv (vsub (fst (predict X s)) y) (vsub (fst (predict X s)) y) / INR (length y)).
Proof.
  unfold evaluate, bind, ret. destruct (predict X s) as [yhat s']. reflexivity.
Qed.

Lemma evaluate_row_wise_permutation (s : M) (f : vec -> R) (X : mat) (y : vec)
    (order : list nat) :
  row_wise s f ->
  length X = length y ->
  Permutation order (seq 0 (length X)) ->
  fst (evaluate (take_rows [] order X) (take_rows 0 order y) s) = fst (evaluate X y s).
Proof.
  intros Hf Hlen Hperm. rewrite !evaluate_value, !Hf.
  rewrite length_take_rows, (Permutation_length Hperm), length_seq, Hlen.
  f_equal. f_equal. rewrite !dot_vv_self. apply sum_Permutation, Permutation_map.
  unfold take_rows, vsub. rewrite map_map, zip_with_same_index.
  rewrite (zip_with_by_index Rminus 0 0 (map f X) y) by now rewrite length_map.
  rewrite length_map.
  erewrite (map_ext_in _ _ (seq 0 (length X))).
  - apply Permutation_map, Hperm.
  - intros i Hi. apply in_seq in Hi. simpl. f_equal.
    rewrite (nth_indep _ 0 (f [])) by (rewrite length_map; apply Hi).
    apply map_nth.
Qed.

End RowWise.

Lemma linear_row_wise (self : Linear.LinearRegression) :
  row_wise self (fun r => dot_vv r (Linear.w self)).
Proof. intros X. reflexivity. Qed.

Lemma concat_singleton_rows (g : vec -> vec) (X : mat) :
  (forall r, length (g r) = 1%nat) ->
  concat (map g X) = map (fun r => hd 0 (g r)) X.
Proof.
  intros Hg. induction X as [|r X IH]; simpl; auto.
  rewrite IH. specialize (Hg r). destruct (g r) as [|a [|b l]]; try discriminate.
  reflexivity.
Qed.

Lemma neural_row_wise (n hidden : nat) (self : Neural.NeuralRegression) :
  Neural.well_shaped n hidden self ->
  row_wise self (fun r => hd 0 (snd (Neural.forward self r))).
Proof.
  intros Hs X.
  destruct (well_shaped_inv Hs) as (W0 & W1 & b0 & b1 & -> & C0 & C1 & R0 & R1 & L0 & L1).
  cbn [predict Neural_model]. rewrite predict_two_layers. cbn [fst].
  unfold flatten, add_rows, mmaximum0, dot_mm. rewrite !map_map.
  rewrite concat_singleton_rows.
  - apply map_ext. intros r. now rewrite forward_two_layers.
  - intros r. now apply length_output_row.
Qed.

Lemma evaluate_exact_zero (M : Type) (model : RegressionModel M) (X : mat) (y : vec) (s : M) :
  fst (predict X s) = y -> fst (evaluate X y s) = 0.
Proof.
  intros E. rewrite evaluate_value, E, dot_vv_self.
  assert (Z : sum (map (fun a => a ^ 2) (vsub y y)) = 0).
  { unfold vsub. rewrite zip_with_diag, map_map. clear E.
    induction y as [|a l IH]; simpl; [reflexivity|]. simpl in IH. rewrite IH. ring. }
  rewrite Z. unfold Rdiv. rewrite Rmult_0_l. apply sqrt_0.
Qed.

(** ** evaluate: exact zero and invariance under a common permutation *)

(** C6: [evaluate] returns exactly 0 when the predictions are the targets;
    and picking the rows of [X] and the entries of [y] by one and the same
    permutation of the indices leaves the value of [evaluate] unchanged, for
    the linear model and for a well-shaped neural model. *)
Theorem evaluate_zero_and_permutation_invariant :
  (forall (M : Type) (model : RegressionModel M) (X : mat) (y : vec) (s : M),
      y <> [] -> fst (predict X s) = y -> fst (evaluate X y s) = 0) /\
  (forall (self : Linear.LinearRegression) (X : mat) (y : vec) (order : list nat),
      y <> [] -> length X = length y ->
      Permutation order (seq 0 (length X)) ->
      fst (evaluate (take_rows [] order X) (take_rows 0 order y) self)
      = fst (evaluate X y self)) /\
  (forall (n hidden : nat) (self : Neural.NeuralRegression) (X : mat) (y : vec)
          (order : list nat),
      Neural.well_shaped n hidden self ->
      Forall (fun r => length r = n) X ->
      y <> [] -> length X = length y ->
      Permutation order (seq 0 (length X)) ->
      fst (evaluate (take_rows [] order X) (take_rows 0 order y) self)
      = fst (evaluate X y self)).
Proof.
  split; [|split].
  - intros M model X y s _ E. now apply evaluate_exact_zero.
  - intros self X y order _ Hlen Hperm.
    eapply evaluate_row_wise_permutation; eauto using linear_row_wise.
  - intros n hidden self X y order Hs _ _ Hlen Hperm.
    eapply evaluate_row_wise_permutation; eauto using neural_row_wise.
Qed.

Lemma evaluate_zero_and_permutation_invariant_witness :
  let self := {| Linear.w := [1; 2] |} in
  fst (evaluate (take_rows [] [1; 0]%nat [[1; 0]; [0; 1]]) (take_rows 0 [1; 0]%nat [3; 4]) self)
  = fst (evaluate [[1; 0]; [0; 1]] [3; 4] self).
Proof.
  intros self.
  apply (proj1 (proj2 evaluate_zero_and_permutation_invariant)).
  - discriminate.
  - reflexivity.
  - simpl. apply perm_swap.
Defined.

(** ** Linear algebra on lists *)

Section DotProducts.

Lemma dot_vv_cons (a b : R) (u v : vec) : dot_vv (a :: u) (b :: v) = a * b + dot_vv u v.
Proof. reflexivity. Qed.


Lemma dot_vv_scale_l (c : R) (u v : vec) : dot_vv (scale c u) v = c * dot_vv u v.
Proof.
  revert v; induction u as [|a u IH]; intros [|b v]; unfold scale; simpl;
    try (unfold dot_vv; simpl; ring).
  fold (scale c u). rewrite !dot_vv_cons, IH. ring.
Qed.

Lemma dot_vv_vadd_l (u w v : vec) :
  length u = length w -> dot_vv (vadd u w) v = dot_vv u v + dot_vv w v.
Proof.
  revert w v; induction u as [|a u IH]; intros [|c w] [|b v] Hlen;
    simpl in *; try discriminate; try (unfold dot_vv; simpl; ring).
  unfold vadd; simpl; fold (vadd u w). rewrite !dot_vv_cons, IH by congruence. ring.
Qed.

Lemma dot_vv_vsub_r (a u w : vec) :
  length u = length w -> dot_vv a (vsub u w) = dot_vv a u - dot_vv a w.
Proof.
  revert u w; induction a as [|a0 a IH]; intros [|b u] [|c w] Hlen;
    simpl in *; try discriminate; try (unfold dot_vv; simpl; ring).
  unfold vsub; simpl; fold (vsub u w). rewrite !dot_vv_cons, IH by congruence. ring.
Qed.

Lemma dot_vv_zeros_l (m : nat) (v : vec) : dot_vv (zeros m) v = 0.
Proof.
  revert v; induction m as [|m IH]; intros [|b v]; simpl; try reflexivity.
  unfold zeros in *. simpl. rewrite dot_vv_cons, IH. ring.
Qed.

Lemma dot_vv_self_nonneg (v : vec) : 0 <= dot_vv v v.
Proof.
  induction v as [|a v IH]; [unfold dot_vv; simpl; lra|].
  rewrite dot_vv_cons. nra.
Qed.

End DotProducts.

Lemma dot_vm_cols_eq (k m : nat) (h : vec) (W : mat) :
  has_shape k m W -> (0 < k)%nat -> dot_vm h W = dot_vm_cols m h W.
Proof.
  intros HW Hk. unfold dot_vm, dot_vm_cols, transpose. now rewrite (ncols_has_shape HW Hk).
Qed.

Lemma dot_vm_cols_nil (m : nat) : dot_vm_cols m [] [] = zeros m.
Proof.
  unfold dot_vm_cols, columns, zeros. rewrite map_map. simpl.
  generalize 0%nat. induction m as [|m IH]; intros s; simpl; [reflexivity|].
  now rewrite IH.
Qed.

Lemma dot_vm_cols_cons (m : nat) (a0 : R) (a r : vec) (B : mat) :
  length r = m ->
  dot_vm_cols m (a0 :: a) (r :: B) = vadd (scale a0 r) (dot_vm_cols m a B).
Proof.
  intros Hr. unfold dot_vm_cols, columns, vadd, scale. rewrite !map_map. simpl.
  rewrite zip_with_map_r.
  replace (map (Rmult a0) r) with (map (fun j => a0 * nth j r 0) (seq 0 m)).
  - rewrite <- (map_id (seq 0 m)) at 3. rewrite zip_with_same_index.
    apply map_ext. intros j. apply dot_vv_cons.
  - rewrite <- (map_map (fun j => nth j r 0) (Rmult a0)), <- Hr. now rewrite map_nth_seq.
Qed.

Lemma length_dot_vm_cols (m : nat) (h : vec) (W : mat) : length (dot_vm_cols m h W) = m.
Proof. unfold dot_vm_cols. now rewrite length_map, length_columns. Qed.

(** The sum over rows and columns may be taken in either order. *)
Lemma dot_vm_cols_assoc (m : nat) (a : vec) (B : mat) (v : vec) :
  length a = length B ->
  Forall (fun r => length r = m) B ->
  dot_vv (dot_vm_cols m a B) v = dot_vv a (dot_mv B v).
Proof.
  intros Hlen HB. revert a Hlen.
  induction HB as [|r B Hr HB IH]; intros [|a0 a] Hlen; simpl in *; try discriminate.
  - rewrite dot_vm_cols_nil. apply dot_vv_zeros_l.
  - rewrite dot_vm_cols_cons by exact Hr.
    rewrite dot_vv_vadd_l.
    + rewrite dot_vv_scale_l, IH by congruence. unfold dot_mv. simpl.
      rewrite dot_vv_cons. reflexivity.
    + unfold scale. now rewrite length_map, length_dot_vm_cols.
Qed.

Lemma dot_mv_dot_mm (k m : nat) (A B : mat) (v : vec) :
  Forall (fun a => length a = k) A ->
  has_shape k m B -> (0 < k)%nat ->
  dot_mv (dot_mm A B) v = dot_mv A (dot_mv B v).
Proof.
  intros HA HB Hk. unfold dot_mv at 1 2, dot_mm. rewrite map_map.
  apply map_ext_in. intros a Ha. rewrite Forall_forall in HA.
  rewrite (dot_vm_cols_eq a HB Hk). destruct HB as [HkB HrB].
  apply dot_vm_cols_assoc; [|exact HrB]. rewrite HkB. now apply HA.
Qed.

Lemma dot_mv_vsub (A : mat) (u w : vec) :
  length u = length w ->
  dot_mv A (vsub u w) = vsub (dot_mv A u) (dot_mv A w).
Proof.
  intros Hlen. unfold dot_mv, vsub at 2. rewrite zip_with_same_index.
  apply map_ext. intros a. now apply dot_vv_vsub_r.
Qed.

Lemma dot_mv_transpose (k n : nat) (X : mat) (r : vec) :
  has_shape k n X -> (0 < k)%nat ->
  dot_mv (transpose X) r = dot_vm_cols n r X.
Proof.
  intros HX Hk. unfold dot_mv, dot_vm_cols, transpose. rewrite (ncols_has_shape HX Hk).
  apply map_ext. intros c. apply dot_vv_comm.
Qed.

Lemma vsub_diag (v : vec) : vsub v v = zeros (length v).
Proof.
  unfold vsub, zeros. rewrite zip_with_diag.
  induction v as [|a v IH]; simpl; [reflexivity|]. rewrite IH. f_equal. ring.
Qed.

Lemma has_shape_transpose (k n : nat) (X : mat) :
  has_shape k n X -> (0 < k)%nat -> has_shape n k (transpose X).
Proof.
  intros HX Hk. unfold transpose. rewrite (ncols_has_shape HX Hk).
  split; [apply length_columns|]. unfold columns. apply Forall_forall.
  intros c Hc. apply in_map_iff in Hc as (j & <- & _). unfold column.
  rewrite length_map. apply HX.
Qed.

Lemma has_shape_dot_mm (p k m : nat) (A B : mat) :
  length A = p -> has_shape k m B -> (0 < k)%nat -> has_shape p m (dot_mm A B).
Proof.
  intros HA HB Hk. unfold dot_mm. split; [now rewrite length_map|].
  apply Forall_forall. intros r Hr. apply in_map_iff in Hr as (a & <- & _).
  rewrite length_dot_vm. now apply (ncols_has_shape HB).
Qed.

Lemma length_dot_mv (A : mat) (v : vec) : length (dot_mv A v) = length A.
Proof. unfold dot_mv. apply length_map. Qed.

Lemma dot_vv_unit (i s : nat) (v : vec) :
  dot_vv (map (fun j => if (i =? j)%nat then 1 else 0) (seq s (length v))) v
  = if (s <=? i)%nat then nth (i - s) v 0 else 0.
Proof.
  revert s; induction v as [|b v IH]; intros s; simpl.
  - unfold dot_vv. simpl. destruct (s <=? i)%nat; [destruct (i - s)%nat|]; reflexivity.
  - rewrite dot_vv_cons, IH.
    destruct (Nat.eqb_spec i s) as [->|Hne].
    + rewrite Nat.leb_refl, Nat.sub_diag.
      destruct (Nat.leb_spec (S s) s); [lia|]. ring.
    + destruct (Nat.leb_spec (S s) i), (Nat.leb_spec s i); try lia; try ring.
      replace (i - s)%nat with (S (i - S s)) by lia. ring.
Qed.

(** For two residuals of one length, the squared norms differ by the
    squared norm of their difference and twice a cross term. *)
Lemma squared_norm_split (a b : vec) :
  length a = length b ->
  dot_vv a a = dot_vv b b + dot_vv (vsub a b) (vsub a b) + 2 * dot_vv b (vsub a b).
Proof.
  revert b; induction a as [|x a IH]; intros [|y b] Hlen; simpl in *; try discriminate.
  - unfold dot_vv; simpl; ring.
  - unfold vsub; simpl; fold (vsub a b). rewrite !dot_vv_cons, (IH b) by congruence. ring.
Qed.

Lemma vsub_vsub_common (p q y : vec) :
  length p = length y -> length q = length y ->
  vsub (vsub p y) (vsub q y) = vsub p q.
Proof.
  revert q y; induction p as [|a p IH]; intros [|b q] [|c y] Hp Hq;
    simpl in *; try discriminate; auto.
  unfold vsub; simpl; fold (vsub p y) (vsub q y) (vsub p q).
  rewrite IH by congruence. f_equal. ring.
Qed.

(** ** solve_analytically: the normal equations *)

Lemma dot_vv_unit_vector (i : nat) (r : vec) :
  dot_vv (unit_vector (length r) i) r = nth i r 0.
Proof.
  unfold unit_vector. rewrite dot_vv_unit. simpl. now rewrite Nat.sub_0_r.
Qed.

Lemma dot_mv_unit_vector (n i : nat) (X : mat) :
  Forall (fun r => length r = n) X -> dot_mv X (unit_vector n i) = column i X.
Proof.
  intros HX. unfold dot_mv, column. apply map_ext_in. intros r Hr.
  rewrite Forall_forall in HX. rewrite dot_vv_comm, <- (HX r Hr). apply dot_vv_unit_vector.
Qed.

Lemma dot_vm_cols_unit_vector (m n i : nat) (G : mat) :
  has_shape m n G -> (i < m)%nat -> dot_vm_cols n (unit_vector m i) G = nth i G [].
Proof.
  intros [Hlen Hrows] Hi. unfold dot_vm_cols, columns. rewrite map_map.
  assert (Hr : length (nth i G []) = n).
  { rewrite Forall_forall in Hrows. apply Hrows, nth_In. rewrite <- Hlen in Hi. exact Hi. }
  transitivity (map (fun j => nth j (nth i G []) 0) (seq 0 n));
    [|rewrite <- Hr; apply map_nth_seq].
  apply map_ext. intros j.
  assert (Hc : length (column j G) = m) by (unfold column; rewrite length_map; exact Hlen).
  rewrite <- Hc, dot_vv_unit_vector. apply nth_column.
Qed.

Lemma dot_vv_vsub_l (u w v : vec) :
  length u = length w -> dot_vv (vsub u w) v = dot_vv u v - dot_vv w v.
Proof.
  intros Hlen. rewrite dot_vv_comm, dot_vv_vsub_r by exact Hlen.
  now rewrite (dot_vv_comm v u), (dot_vv_comm v w).
Qed.

Lemma dot_vm_cols_vsub (n : nat) (u w : vec) (G : mat) :
  length u = length w ->
  dot_vm_cols n (vsub u w) G = vsub (dot_vm_cols n u G) (dot_vm_cols n w G).
Proof.
  intros Hlen. unfold dot_vm_cols, vsub at 2. rewrite zip_with_same_index.
  apply map_ext. intros c. now apply dot_vv_vsub_l.
Qed.

Lemma dot_vv_self_zero (f : vec) : dot_vv f f = 0 -> f = zeros (length f).
Proof.
  induction f as [|a f IH]; intros H; [reflexivity|].
  rewrite dot_vv_cons in H. pose proof (dot_vv_self_nonneg f) as Hf.
  assert (Ha : a = 0) by nra. assert (Hf0 : dot_vv f f = 0) by nra.
  simpl. unfold zeros in *. simpl. rewrite <- (IH Hf0). now rewrite Ha.
Qed.

Lemma vsub_zero_eq (u v : vec) :
  length u = length v -> vsub u v = zeros (length u) -> u = v.
Proof.
  revert v; induction u as [|a u IH]; intros [|b v] Hlen H; simpl in *; try discriminate; auto.
  unfold vsub, zeros in *. simpl in H. injection H as Hab Hrest.
  f_equal; [lra|]. apply IH; [congruence | exact Hrest].
Qed.

Lemma nth_dot_mm (A B : mat) (i : nat) :
  (i < length A)%nat -> nth i (dot_mm A B) [] = dot_vm (nth i A []) B.
Proof.
  intros Hi. unfold dot_mm.
  rewrite (nth_indep _ [] ((fun r => dot_vm r B) [])) by (rewrite length_map; exact Hi).
  apply (map_nth (fun r => dot_vm r B)).
Qed.

Lemma length_unit_vector (n i : nat) : length (unit_vector n i) = n.
Proof. unfold unit_vector. now rewrite length_map, length_seq. Qed.

Section GeneralizedInverse.

Variables (k n : nat) (X P : mat).

Hypothesis HX : has_shape k n X.
Hypothesis Hk : (0 < k)%nat.
Hypothesis Hn : (0 < n)%nat.
Hypothesis HP : generalized_inverse n (dot_mm (transpose X) X) P.

Lemma shape_of_transpose : has_shape n k (transpose X).
Proof. exact (has_shape_transpose HX Hk). Qed.

Lemma shape_of_gram : has_shape n n (dot_mm (transpose X) X).
Proof. apply has_shape_dot_mm with (k := k); auto. apply shape_of_transpose. Qed.

Lemma shape_of_gram_pinv : has_shape n n (dot_mm (dot_mm (transpose X) X) P).
Proof. apply has_shape_dot_mm with (k := n); auto; [apply shape_of_gram | apply HP]. Qed.

Lemma gram_annihilates_row_defect (i : nat) :
  (i < n)%nat ->
  let q := nth i (dot_mm (dot_mm (transpose X) X) P) [] in
  dot_vm_cols n (vsub q (unit_vector n i)) (dot_mm (transpose X) X) = zeros n.
Proof.
  intros Hi q.
  pose proof shape_of_gram as HG. pose proof shape_of_gram_pinv as HQ.
  assert (Hq : length q = n).
  { destruct HQ as [HlQ HrQ]. rewrite Forall_forall in HrQ. apply HrQ, nth_In.
    rewrite <- HlQ in Hi. exact Hi. }
  rewrite dot_vm_cols_vsub by now rewrite length_unit_vector.
  rewrite <- (dot_vm_cols_eq q HG Hn).
  unfold q. rewrite <- nth_dot_mm by (rewrite (proj1 HQ); exact Hi).
  rewrite (proj2 HP).
  rewrite (dot_vm_cols_unit_vector HG Hi), vsub_diag. f_equal.
  destruct HG as [HlG HrG]. rewrite Forall_forall in HrG. apply HrG, nth_In.
  rewrite <- HlG in Hi. exact Hi.
Qed.

Lemma design_times_row (i : nat) :
  (i < n)%nat ->
  dot_mv X (nth i (dot_mm (dot_mm (transpose X) X) P) []) = column i X.
Proof.
  intros Hi. set (q := nth i (dot_mm (dot_mm (transpose X) X) P) []).
  pose proof shape_of_gram as HG. pose proof shape_of_gram_pinv as HQ.
  pose proof shape_of_transpose as HXt.
  assert (Hq : length q = n).
  { destruct HQ as [HlQ HrQ]. rewrite Forall_forall in HrQ. apply HrQ, nth_In.
    rewrite <- HlQ in Hi. exact Hi. }
  set (a := vsub q (unit_vector n i)).
  assert (Ha : length a = n).
  { unfold a, vsub. rewrite zip_with_length, Hq, length_unit_vector. apply Nat.min_id. }
  assert (Hzero : dot_vv (dot_mv X a) (dot_mv X a) = 0).
  { rewrite <- (dot_vm_cols_assoc (m := n));
      [|now rewrite length_dot_mv | apply HX].
    rewrite <- (dot_mv_transpose _ HX Hk).
    rewrite <- (dot_mv_dot_mm a (proj2 HXt) HX Hk).
    rewrite dot_vv_comm.
    rewrite <- (dot_vm_cols_assoc (m := n));
      [|rewrite Ha; symmetry; apply HG | apply HG].
    unfold a at 1, q. rewrite (gram_annihilates_row_defect Hi). apply dot_vv_zeros_l. }
  apply dot_vv_self_zero in Hzero.
  unfold a in Hzero.
  rewrite dot_mv_vsub in Hzero by now rewrite length_unit_vector.
  assert (Hl : length (vsub (dot_mv X q) (dot_mv X (unit_vector n i)))
               = length (dot_mv X q)).
  { unfold vsub. rewrite zip_with_length, !length_dot_mv. apply Nat.min_id. }
  rewrite Hl in Hzero.
  apply vsub_zero_eq in Hzero.
  - rewrite Hzero. apply dot_mv_unit_vector. apply HX.
  - now rewrite !length_dot_mv.
Qed.

Lemma gram_pinv_fixes_transpose :
  dot_mm (dot_mm (dot_mm (transpose X) X) P) (transpose X) = transpose X.
Proof.
  pose proof shape_of_gram_pinv as [HlQ HrQ].
  unfold dot_mm at 1.
  rewrite <- (map_nth_seq [] (dot_mm (dot_mm (transpose X) X) P)) at 1.
  rewrite HlQ, map_map.
  unfold transpose at 3. rewrite (ncols_has_shape HX Hk). unfold columns.
  apply map_ext_in. intros i Hi. apply in_seq in Hi.
  rewrite (dot_vm_transpose _ HX Hk Hn). apply design_times_row. lia.
Qed.

End GeneralizedInverse.

Section NormalEquations.

Variables (pinv : mat -> mat) (k n : nat) (X : mat) (y : vec).

Hypothesis HX : has_shape k n X.
Hypothesis Hk : (0 < k)%nat.
Hypothesis Hn : (0 < n)%nat.
Hypothesis Hy : length y = k.

Hypothesis Hpinv : generalized_inverse n (dot_mm (transpose X) X) (pinv (dot_mm (transpose X) X)).

Lemma shape_transposed : has_shape n k (transpose X).
Proof. exact (has_shape_transpose HX Hk). Qed.

Lemma shape_gram : has_shape n n (dot_mm (transpose X) X).
Proof. apply has_shape_dot_mm with (k := k); auto. apply shape_transposed. Qed.

Lemma solve_analytically_gram :
  dot_mv (dot_mm (transpose X) X) (solve_analytically pinv X y) = dot_mv (transpose X) y.
Proof.
  unfold solve_analytically.
  pose proof Hpinv as [HP _].
  rewrite (dot_mv_dot_mm y (proj2 HP) shape_transposed Hn).
  rewrite <- (dot_mv_dot_mm (dot_mv (transpose X) y) (proj2 shape_gram) HP Hn).
  rewrite <- (dot_mv_dot_mm y (proj2 (shape_of_gram_pinv HX Hk Hn Hpinv)) shape_transposed Hn).
  now rewrite (gram_pinv_fixes_transpose HX Hk Hn Hpinv).
Qed.

Lemma length_solve_analytically : length (solve_analytically pinv X y) = n.
Proof.
  unfold solve_analytically. rewrite length_dot_mv.
  unfold dot_mm. rewrite length_map. apply Hpinv.
Qed.

Lemma solve_analytically_residual_orthogonal :
  dot_mv (transpose X) (vsub (dot_mv X (solve_analytically pinv X y)) y) = zeros n.
Proof.
  rewrite dot_mv_vsub by (rewrite length_dot_mv, Hy; apply HX).
  rewrite <- (dot_mv_dot_mm _ (proj2 shape_transposed) HX Hk).
  rewrite solve_analytically_gram, vsub_diag, length_dot_mv. f_equal. apply shape_transposed.
Qed.

Lemma solve_analytically_least_squares (v : vec) :
  length v = n ->
  let w := solve_analytically pinv X y in
  dot_vv (vsub (dot_mv X w) y) (vsub (dot_mv X w) y)
  <= dot_vv (vsub (dot_mv X v) y) (vsub (dot_mv X v) y).
Proof.
  intros Hv w.
  set (rw := vsub (dot_mv X w) y). set (rv := vsub (dot_mv X v) y).
  assert (Lw : length (dot_mv X w) = length y) by (rewrite length_dot_mv, Hy; apply HX).
  assert (Lv : length (dot_mv X v) = length y) by (rewrite length_dot_mv, Hy; apply HX).
  assert (Hsplit := @squared_norm_split rv rw).
  rewrite Hsplit by (unfold rv, rw, vsub; rewrite !zip_with_length; lia).
  assert (Hd : vsub rv rw = dot_mv X (vsub v w)).
  { unfold rv, rw. rewrite vsub_vsub_common by assumption.
    symmetry. apply dot_mv_vsub. rewrite Hv. symmetry. apply length_solve_analytically. }
  assert (Hcross : dot_vv rw (vsub rv rw) = 0).
  { rewrite Hd. pose proof HX as [HkX HrX].
    rewrite <- (dot_vm_cols_assoc (m := n)); [|unfold rw, vsub; rewrite zip_with_length; lia | exact HrX].
    rewrite <- (dot_mv_transpose rw HX Hk). unfold rw, w.
    rewrite solve_analytically_residual_orthogonal. apply dot_vv_zeros_l. }
  rewrite Hcross. pose proof (dot_vv_self_nonneg (vsub rv rw)). lra.
Qed.

End NormalEquations.

(** ** Products of matrices *)

Lemma nth_map_seq {A : Type} (f : nat -> A) (n j : nat) (d : A) :
  (j < n)%nat -> nth j (map f (seq 0 n)) d = f j.
Proof.
  intros Hj. rewrite (nth_indep _ d (f 0%nat)) by (rewrite length_map, length_seq; exact Hj).
  rewrite (map_nth f). now rewrite seq_nth.
Qed.

Lemma column_dot_mm (q r : nat) (B C : mat) (j : nat) :
  has_shape q r C -> (0 < q)%nat -> (j < r)%nat ->
  column j (dot_mm B C) = dot_mv B (column j C).
Proof.
  intros HC Hq Hj. unfold column at 1, dot_mm, dot_mv. rewrite map_map.
  apply map_ext. intros b. unfold dot_vm, transpose. rewrite (ncols_has_shape HC Hq).
  unfold columns. rewrite map_map.
  exact (@nth_map_seq R (fun x => dot_vv b (column x C)) r j 0 Hj).
Qed.

Lemma dot_vm_assoc (p q r : nat) (a : vec) (B C : mat) :
  length a = p -> has_shape p q B -> has_shape q r C -> (0 < p)%nat -> (0 < q)%nat ->
  dot_vm (dot_vm a B) C = dot_vm a (dot_mm B C).
Proof.
  intros Ha HB HC Hp Hq.
  assert (HBC : has_shape p r (dot_mm B C)) by (apply has_shape_dot_mm with (k := q); auto; apply HB).
  unfold dot_vm at 1 3, transpose.
  rewrite (ncols_has_shape HC Hq), (ncols_has_shape HBC Hp).
  unfold columns. rewrite !map_map. apply map_ext_in. intros j Hj. apply in_seq in Hj.
  rewrite (column_dot_mm B HC Hq) by lia.
  rewrite (dot_vm_cols_eq a HB Hp).
  apply dot_vm_cols_assoc; [|apply HB]. rewrite Ha. symmetry. apply HB.
Qed.

Lemma dot_mm_assoc (p q r t : nat) (A B C : mat) :
  has_shape p q A -> has_shape q r B -> has_shape r t C -> (0 < q)%nat -> (0 < r)%nat ->
  dot_mm (dot_mm A B) C = dot_mm A (dot_mm B C).
Proof.
  intros HA HB HC Hq Hr. unfold dot_mm at 1 2 3. rewrite map_map.
  apply map_ext_in. intros a Ha. destruct HA as [_ HrA]. rewrite Forall_forall in HrA.
  exact (@dot_vm_assoc q r t a B C (HrA a Ha) HB HC Hq Hr).
Qed.

Lemma has_shape_identity (n : nat) : has_shape n n (Linalg.identity n).
Proof.
  unfold Linalg.identity. split; [now rewrite length_map, length_seq|].
  apply Forall_forall. intros r Hr. apply in_map_iff in Hr as (i & <- & _).
  apply length_unit_vector.
Qed.

Lemma dot_mm_identity_l (n m : nat) (A : mat) :
  has_shape n m A -> dot_mm (Linalg.identity n) A = A.
Proof.
  intros HA. unfold dot_mm, Linalg.identity. rewrite map_map.
  transitivity (map (fun i => nth i A []) (seq 0 (length A))); [|apply map_nth_seq].
  rewrite (proj1 HA).
  apply map_ext_in. intros i Hi. apply in_seq in Hi.
  assert (Hn : (0 < n)%nat) by lia.
  rewrite (dot_vm_cols_eq (unit_vector n i) HA Hn).
  apply dot_vm_cols_unit_vector; [exact HA | lia].
Qed.

Lemma dot_vm_scale_l (c : R) (a : vec) (M : mat) :
  dot_vm (scale c a) M = scale c (dot_vm a M).
Proof.
  unfold dot_vm, scale at 2. rewrite map_map. apply map_ext. intros col.
  apply dot_vv_scale_l.
Qed.

Lemma scale_scale (a b : R) (v : vec) : scale a (scale b v) = scale (a * b) v.
Proof. unfold scale. rewrite map_map. apply map_ext. intros x. ring. Qed.

Lemma length_scale (c : R) (v : vec) : length (scale c v) = length v.
Proof. apply length_map. Qed.

Lemma has_shape_diag (s : vec) : has_shape (length s) (length s) (Linalg.diag s).
Proof.
  unfold Linalg.diag. split; [now rewrite length_map, length_seq|].
  apply Forall_forall. intros r Hr. apply in_map_iff in Hr as (i & <- & _).
  rewrite length_scale. apply length_unit_vector.
Qed.

Lemma scale_rows_by_index (s : vec) (M : mat) :
  length s = length M ->
  Linalg.scale_rows s M = map (fun i => scale (nth i s 0) (nth i M [])) (seq 0 (length s)).
Proof. intros Hlen. unfold Linalg.scale_rows. now apply zip_with_by_index. Qed.

Lemma has_shape_scale_rows (n m : nat) (s : vec) (M : mat) :
  length s = n -> has_shape n m M -> has_shape n m (Linalg.scale_rows s M).
Proof.
  intros Hs [Hl Hr]. unfold Linalg.scale_rows. split.
  - rewrite zip_with_length. unfold mat, vec in *. lia.
  - clear Hl Hs. revert s. induction Hr as [|r M Hrow HrM IH]; intros [|c s]; simpl; auto.
    constructor; [now rewrite length_scale | apply IH].
Qed.

(** [diag(s) @ M] scales the rows of [M]. *)
Lemma dot_mm_diag_l (n m : nat) (s : vec) (M : mat) :
  length s = n -> has_shape n m M -> dot_mm (Linalg.diag s) M = Linalg.scale_rows s M.
Proof.
  intros Hs HM. rewrite scale_rows_by_index by (rewrite Hs; symmetry; apply HM).
  unfold dot_mm, Linalg.diag. rewrite map_map.
  apply map_ext_in. intros i Hi. apply in_seq in Hi. rewrite Hs in *.
  assert (Hn : (0 < n)%nat) by lia.
  rewrite dot_vm_scale_l. f_equal.
  rewrite (dot_vm_cols_eq (unit_vector n i) HM Hn).
  apply dot_vm_cols_unit_vector; [exact HM | lia].
Qed.

(** [(t[:, None] * M) @ N = t[:, None] * (M @ N)] *)
Lemma dot_mm_scale_rows_l (t : vec) (M N : mat) :
  dot_mm (Linalg.scale_rows t M) N = Linalg.scale_rows t (dot_mm M N).
Proof.
  unfold Linalg.scale_rows, dot_mm. revert M.
  induction t as [|c t IH]; intros [|r M]; simpl; auto.
  now rewrite dot_vm_scale_l, IH.
Qed.

Lemma scale_rows_scale_rows (a b : vec) (M : mat) :
  Linalg.scale_rows a (Linalg.scale_rows b M)
  = Linalg.scale_rows (zip_with Rmult a b) M.
Proof.
  unfold Linalg.scale_rows. revert b M.
  induction a as [|x a IH]; intros [|y b] [|r M]; simpl; auto.
  now rewrite scale_scale, IH.
Qed.

Lemma nth_diag (s : vec) (i : nat) :
  (i < length s)%nat ->
  nth i (Linalg.diag s) [] = scale (nth i s 0) (unit_vector (length s) i).
Proof.
  intros Hi. unfold Linalg.diag.
  exact (@nth_map_seq (list R) (fun i => scale (nth i s 0) (unit_vector (length s) i))
           (length s) i [] Hi).
Qed.

(** Rows of [diag(s)] scaled by factors that leave [s] as it is. *)
Lemma scale_rows_diag_fixed (t s : vec) :
  length t = length s ->
  (forall i : nat, (i < length s)%nat -> nth i t 0 * nth i s 0 = nth i s 0) ->
  Linalg.scale_rows t (Linalg.diag s) = Linalg.diag s.
Proof.
  intros Hlen Hfix.
  rewrite scale_rows_by_index by (rewrite Hlen; symmetry; apply has_shape_diag).
  rewrite Hlen. unfold Linalg.diag at 2.
  apply map_ext_in. intros i Hi. apply in_seq in Hi.
  rewrite nth_diag by lia.
  rewrite scale_scale, Hfix by lia. reflexivity.
Qed.

Lemma length_cut_and_invert (s : vec) : length (Linalg.cut_and_invert s) = length s.
Proof. unfold Linalg.cut_and_invert. apply length_map. Qed.

Lemma nth_cut_and_invert (s : vec) (i : nat) :
  (i < length s)%nat ->
  nth i (Linalg.cut_and_invert s) 0
  = if Rlt_dec (Linalg.rcond * Linalg.amax s) (nth i s 0) then 1 / nth i s 0 else 0.
Proof.
  intros Hi. unfold Linalg.cut_and_invert. cbv zeta.
  set (f := fun x : R => if Rlt_dec (Linalg.rcond * Linalg.amax s) x then 1 / x else 0).
  rewrite (nth_indep _ 0 (f 0)) by (rewrite length_map; exact Hi).
  apply (map_nth f).
Qed.

(** When no singular value other than 0 is cut, [s * (1/s) * s = s]. *)
Lemma cut_and_invert_fixes (s : vec) (i : nat) :
  Linalg.none_cut s -> (i < length s)%nat ->
  nth i (zip_with Rmult s (Linalg.cut_and_invert s)) 0 * nth i s 0 = nth i s 0.
Proof.
  intros Hcut Hi.
  rewrite (zip_with_by_index Rmult 0 0) by (symmetry; apply length_cut_and_invert).
  rewrite (nth_map_seq (fun i => nth i s 0 * nth i (Linalg.cut_and_invert s) 0) 0 Hi).
  rewrite nth_cut_and_invert by exact Hi.
  destruct (Req_dec (nth i s 0) 0) as [H0|Hne].
  - rewrite H0. ring.
  - unfold Linalg.none_cut in Hcut. rewrite Forall_forall in Hcut.
    destruct (Hcut (nth i s 0) (nth_In s 0 Hi)) as [H0|Hlt]; [contradiction|].
    destruct (Rlt_dec _ _) as [_|Hn]; [|contradiction].
    field. exact Hne.
Qed.

(** ** np.linalg.pinv without a cut gives a generalized inverse *)

Section PinvOfSvd.

Variables (n : nat) (a u : mat) (s : vec) (vt : mat).

Hypothesis Hn : (0 < n)%nat.
Hypothesis Hsvd : Linalg.svd n a u s vt.

Lemma svd_shapes :
  has_shape n n u /\ has_shape n n vt /\ length s = n /\
  has_shape n n (transpose u) /\ has_shape n n (transpose vt) /\
  has_shape n n (Linalg.diag s) /\
  has_shape n n (Linalg.scale_rows (Linalg.cut_and_invert s) (transpose u)).
Proof.
  pose proof Hsvd as (Hu & Hs & Hvt & _).
  assert (Hut : has_shape n n (transpose u)) by now apply has_shape_transpose.
  repeat match goal with |- _ /\ _ => split end; auto.
  - now apply has_shape_transpose.
  - rewrite <- Hs at 1 2. apply has_shape_diag.
  - apply has_shape_scale_rows; [now rewrite length_cut_and_invert | exact Hut].
Qed.

Lemma has_shape_pinv_of_svd : has_shape n n (Linalg.pinv_of_svd u s vt).
Proof.
  pose proof svd_shapes as (Hu & Hvt & Hs & Hut & Hvtt & Hd & Hc).
  unfold Linalg.pinv_of_svd. apply has_shape_dot_mm with (k := n); auto. apply Hvtt.
Qed.

Lemma pinv_of_svd_generalized_inverse :
  Linalg.none_cut s -> generalized_inverse n a (Linalg.pinv_of_svd u s vt).
Proof.
  intros Hcut. split; [apply has_shape_pinv_of_svd|].
  pose proof svd_shapes as (Hu & Hvt & Hs & Hut & Hvtt & Hd & Hc).
  pose proof Hsvd as (_ & _ & _ & Huu & _ & Hvv & _ & _ & Ha).
  set (c := Linalg.cut_and_invert s) in *.
  set (Cu := Linalg.scale_rows c (transpose u)) in *.
  set (A1 := dot_mm u (Linalg.diag s)) in *.
  assert (HA1 : has_shape n n A1) by (apply has_shape_dot_mm with (k := n); auto; apply Hu).
  assert (HP : has_shape n n (dot_mm (transpose vt) Cu))
    by (apply has_shape_dot_mm with (k := n); auto; apply Hvtt).
  assert (HA1Cu : has_shape n n (dot_mm A1 Cu))
    by (apply has_shape_dot_mm with (k := n); auto; apply HA1).
  unfold Linalg.pinv_of_svd. fold c Cu. rewrite Ha.
  (* (A1 vt) (vt^T Cu) = A1 Cu *)
  assert (E1 : dot_mm (dot_mm A1 vt) (dot_mm (transpose vt) Cu) = dot_mm A1 Cu).
  { rewrite (dot_mm_assoc HA1 Hvt HP Hn Hn).
    rewrite <- (dot_mm_assoc Hvt Hvtt Hc Hn Hn), Hvv.
    now rewrite (dot_mm_identity_l Hc). }
  rewrite E1.
  (* A1 Cu = u (t-rows u^T) with t = s * c *)
  set (t := zip_with Rmult s c).
  assert (Ht : length t = n).
  { unfold t, c. rewrite zip_with_length, length_cut_and_invert, Hs. apply Nat.min_id. }
  assert (HTu : has_shape n n (Linalg.scale_rows t (transpose u)))
    by now apply has_shape_scale_rows.
  assert (E2 : dot_mm A1 Cu = dot_mm u (Linalg.scale_rows t (transpose u))).
  { unfold A1. rewrite (dot_mm_assoc Hu Hd Hc Hn Hn).
    rewrite (@dot_mm_diag_l n n s Cu Hs Hc). unfold Cu. now rewrite scale_rows_scale_rows. }
  (* (t-rows u^T) A1 = diag s *)
  assert (E3 : dot_mm (Linalg.scale_rows t (transpose u)) A1 = Linalg.diag s).
  { rewrite dot_mm_scale_rows_l. unfold A1.
    rewrite <- (dot_mm_assoc Hut Hu Hd Hn Hn), Huu, (dot_mm_identity_l Hd).
    apply scale_rows_diag_fixed; [now rewrite Ht, Hs|].
    intros i Hi. now apply cut_and_invert_fixes. }
  rewrite <- (dot_mm_assoc HA1Cu HA1 Hvt Hn Hn). f_equal.
  rewrite E2, (dot_mm_assoc Hu HTu HA1 Hn Hn), E3. reflexivity.
Qed.

End PinvOfSvd.

(** C4, amended: for a design matrix [X] with at least one row and one
    column, of full rank or not, and targets [y] of matching length, when
    [np.linalg.pinv] computes its result from a singular value
    decomposition of [X.T X] none of whose singular values other than 0
    falls at or below the cut-off [1e-15 * max(s)], [solve_analytically]
    returns a vector [w] of length [n_features] with [X.T (X w - y) = 0],
    and [w] minimizes [||X v - y||^2] over all [v] of that length. *)
Theorem solve_analytically_normal_equations (pinv : mat -> mat) (n_points n_features : nat)
    (X : mat) (y : vec) (u : mat) (s : vec) (vt : mat) :
  has_shape n_points n_features X ->
  (0 < n_points)%nat -> (0 < n_features)%nat ->
  length y = n_points ->
  Linalg.svd n_features (dot_mm (transpose X) X) u s vt ->
  pinv (dot_mm (transpose X) X) = Linalg.pinv_of_svd u s vt ->
  Linalg.none_cut s ->
  let w := solve_analytically pinv X y in
  length w = n_features /\
  dot_mv (transpose X) (vsub (dot_mv X w) y) = zeros n_features /\
  forall v : vec, length v = n_features ->
    dot_vv (vsub (dot_mv X w) y) (vsub (dot_mv X w) y)
    <= dot_vv (vsub (dot_mv X v) y) (vsub (dot_mv X v) y).
Proof.
  intros HX Hk Hn Hy Hsvd Hp Hcut w.
  assert (Hpinv : generalized_inverse n_features (dot_mm (transpose X) X)
                    (pinv (dot_mm (transpose X) X))).
  { rewrite Hp. now apply pinv_of_svd_generalized_inverse. }
  split; [|split].
  - eapply length_solve_analytically; eauto.
  - eapply solve_analytically_residual_orthogonal; eauto.
  - intros v Hv. eapply solve_analytically_least_squares; eauto.
Qed.

Lemma solve_analytically_normal_equations_witness :
  let X := [[1; 0]; [1; 0]] in
  let y := [3; 5] in
  let pinv := fun _ : mat => Linalg.pinv_of_svd [[1; 0]; [0; 1]] [2; 0] [[1; 0]; [0; 1]] in
  let w := solve_analytically pinv X y in
  length w = 2%nat /\
  dot_mv (transpose X) (vsub (dot_mv X w) y) = zeros 2.
Proof.
  intros X y pinv w.
  assert (HX : has_shape 2 2 X) by (split; [reflexivity | repeat constructor]).
  assert (Hsvd : Linalg.svd 2 (dot_mm (transpose X) X) [[1; 0]; [0; 1]] [2; 0] [[1; 0]; [0; 1]]).
  { unfold Linalg.svd.
    repeat match goal with |- _ /\ _ => split end;
      try reflexivity; try (repeat constructor; lra);
      np_compute; array_eq; lra. }
  assert (Hcut : Linalg.none_cut [2; 0]).
  { apply Forall_cons; [right | apply Forall_cons; [left; reflexivity | apply Forall_nil]].
    np_compute. unfold Rmax. repeat destruct (Rle_dec _ _); lra. }
  destruct (@solve_analytically_normal_equations pinv 2 2 X y _ _ _ HX
              (Nat.lt_0_succ 1) (Nat.lt_0_succ 1) eq_refl Hsvd eq_refl Hcut) as (Hlen & Hne & _).
  split; [exact Hlen | exact Hne].
Defined.

Lemma two_by_two (A : mat) :
  has_shape 2 2 A -> exists a b c d : R, A = [[a; b]; [c; d]].
Proof.
  intros [Hl Hr].
  destruct A as [|r1 [|r2 [|r3 A]]]; try discriminate.
  pose proof (Forall_inv Hr) as H1. pose proof (Forall_inv (Forall_inv_tail Hr)) as H2.
  cbv beta in H1, H2.
  destruct r1 as [|a [|b [|x r1]]]; try discriminate.
  destruct r2 as [|c [|d [|x r2]]]; try discriminate.
  now exists a, b, c, d.
Qed.

Lemma entries_2x2 (a b c d a' b' c' d' : R) :
  [[a; b]; [c; d]] = [[a'; b']; [c'; d']] -> a = a' /\ b = b' /\ c = c' /\ d = d'.
Proof. intros H. injection H as -> -> -> ->. auto. Qed.

(** The singular value decomposition of [diag(1, eps)] with [0 < eps < 1]:
    what any decomposition gives for the products that enter [pinv]. *)
Lemma svd_of_diagonal_2x2 (eps s1 s2 a b c d e f g h : R) :
  0 < eps < 1 -> 0 <= s1 -> 0 <= s2 ->
  a * a + c * c = 1 -> a * b + c * d = 0 -> b * b + d * d = 1 ->
  a * a + b * b = 1 -> a * c + b * d = 0 -> c * c + d * d = 1 ->
  e * e + f * f = 1 -> e * g + f * h = 0 -> g * g + h * h = 1 ->
  e * e + g * g = 1 -> e * f + g * h = 0 -> f * f + h * h = 1 ->
  a * s1 * e + b * s2 * g = 1 ->
  a * s1 * f + b * s2 * h = 0 ->
  c * s1 * e + d * s2 * g = 0 ->
  c * s1 * f + d * s2 * h = eps ->
  (s1 = 1 /\ s2 = eps /\ e * a = 1 /\ e * c = 0 /\ f = 0) \/
  (s1 = eps /\ s2 = 1 /\ g * b = 1 /\ g * d = 0 /\ h = 0).
Proof.
  intros Heps Hs1 Hs2 U1 U2 U4 U5 U6 U8 V1 V2 V4 V5 V6 V8 A1 A2 A3 A4.
  (* diag(s) vt = u^T G *)
  assert (E1 : s1 * e = a).
  { assert (T1 : (a * a + c * c) * (s1 * e) = s1 * e) by (rewrite U1; ring).
    assert (T2 : (a * b + c * d) * (s2 * g) = 0) by (rewrite U2; ring).
    assert (T3 : a * (a * s1 * e + b * s2 * g) = a) by (rewrite A1; ring).
    assert (T4 : c * (c * s1 * e + d * s2 * g) = 0) by (rewrite A3; ring).
    lra. }
  assert (E2 : s1 * f = c * eps).
  { assert (T1 : (a * a + c * c) * (s1 * f) = s1 * f) by (rewrite U1; ring).
    assert (T2 : (a * b + c * d) * (s2 * h) = 0) by (rewrite U2; ring).
    assert (T3 : a * (a * s1 * f + b * s2 * h) = 0) by (rewrite A2; ring).
    assert (T4 : c * (c * s1 * f + d * s2 * h) = c * eps) by (rewrite A4; ring).
    lra. }
  assert (E3 : s2 * g = b).
  { assert (T1 : (b * b + d * d) * (s2 * g) = s2 * g) by (rewrite U4; ring).
    assert (T2 : (a * b + c * d) * (s1 * e) = 0) by (rewrite U2; ring).
    assert (T3 : b * (a * s1 * e + b * s2 * g) = b) by (rewrite A1; ring).
    assert (T4 : d * (c * s1 * e + d * s2 * g) = 0) by (rewrite A3; ring).
    lra. }
  assert (E4 : s2 * h = d * eps).
  { assert (T1 : (b * b + d * d) * (s2 * h) = s2 * h) by (rewrite U4; ring).
    assert (T2 : (a * b + c * d) * (s1 * f) = 0) by (rewrite U2; ring).
    assert (T3 : b * (a * s1 * f + b * s2 * h) = 0) by (rewrite A2; ring).
    assert (T4 : d * (c * s1 * f + d * s2 * h) = d * eps) by (rewrite A4; ring).
    lra. }
  (* u diag(s) = G vt^T *)
  assert (F1 : a * s1 = e).
  { assert (T1 : (e * e + f * f) * (a * s1) = a * s1) by (rewrite V1; ring).
    assert (T2 : (e * g + f * h) * (b * s2) = 0) by (rewrite V2; ring).
    assert (T3 : e * (a * s1 * e + b * s2 * g) = e) by (rewrite A1; ring).
    assert (T4 : f * (a * s1 * f + b * s2 * h) = 0) by (rewrite A2; ring).
    lra. }
  assert (F2 : c * s1 = eps * f).
  { assert (T1 : (e * e + f * f) * (c * s1) = c * s1) by (rewrite V1; ring).
    assert (T2 : (e * g + f * h) * (d * s2) = 0) by (rewrite V2; ring).
    assert (T3 : e * (c * s1 * e + d * s2 * g) = 0) by (rewrite A3; ring).
    assert (T4 : f * (c * s1 * f + d * s2 * h) = f * eps) by (rewrite A4; ring).
    lra. }
  assert (F3 : b * s2 = g).
  { assert (T1 : (g * g + h * h) * (b * s2) = b * s2) by (rewrite V4; ring).
    assert (T2 : (e * g + f * h) * (a * s1) = 0) by (rewrite V2; ring).
    assert (T3 : g * (a * s1 * e + b * s2 * g) = g) by (rewrite A1; ring).
    assert (T4 : h * (a * s1 * f + b * s2 * h) = 0) by (rewrite A2; ring).
    lra. }
  assert (F4 : d * s2 = eps * h).
  { assert (T1 : (g * g + h * h) * (d * s2) = d * s2) by (rewrite V4; ring).
    assert (T2 : (e * g + f * h) * (c * s1) = 0) by (rewrite V2; ring).
    assert (T3 : g * (c * s1 * e + d * s2 * g) = 0) by (rewrite A3; ring).
    assert (T4 : h * (c * s1 * f + d * s2 * h) = h * eps) by (rewrite A4; ring).
    lra. }
  (* the squares of the singular values *)
  assert (G1 : (s1 * s1 - 1) * e = 0).
  { replace ((s1 * s1 - 1) * e) with (s1 * (s1 * e) - e) by ring. rewrite E1. lra. }
  assert (G2 : (s1 * s1 - eps * eps) * f = 0).
  { replace ((s1 * s1 - eps * eps) * f) with (s1 * (s1 * f) - eps * (eps * f)) by ring.
    rewrite E2, <- F2. ring. }
  assert (G3 : (s2 * s2 - 1) * g = 0).
  { replace ((s2 * s2 - 1) * g) with (s2 * (s2 * g) - g) by ring. rewrite E3. lra. }
  assert (G4 : (s2 * s2 - eps * eps) * h = 0).
  { replace ((s2 * s2 - eps * eps) * h) with (s2 * (s2 * h) - eps * (eps * h)) by ring.
    rewrite E4, <- F4. ring. }
  assert (H2 : (s1 * s1 - eps * eps) * c = 0).
  { replace ((s1 * s1 - eps * eps) * c) with (s1 * (c * s1) - eps * (c * eps)) by ring.
    rewrite F2, <- E2. ring. }
  assert (H4 : (s2 * s2 - eps * eps) * d = 0).
  { replace ((s2 * s2 - eps * eps) * d) with (s2 * (d * s2) - eps * (d * eps)) by ring.
    rewrite F4, <- E4. ring. }
  assert (Hsq : eps * eps < 1) by nra.
  assert (root : forall x y : R, 0 <= x -> 0 <= y -> x * x = y * y -> x = y) by (intros; nra).
  destruct (Req_dec e 0) as [He|He].
  - right.
    assert (Hf : f <> 0) by (intros Hf; rewrite He, Hf in V1; lra).
    assert (Hg : g <> 0) by (intros Hg; rewrite He, Hg in V5; lra).
    assert (S1 : s1 = eps).
    { apply root; try lra. destruct (Rmult_integral _ _ G2); [lra | contradiction]. }
    assert (S2 : s2 = 1).
    { apply root; try lra. destruct (Rmult_integral _ _ G3); [lra | contradiction]. }
    assert (Hh : h = 0) by (rewrite He in V5; nra).
    assert (Hd : d = 0).
    { destruct (Rmult_integral _ _ H4) as [H|H]; [|exact H]. rewrite S2 in H. lra. }
    repeat split; auto.
    + rewrite <- E3, S2. nra.
    + rewrite Hd. ring.
  - left.
    assert (S1 : s1 = 1).
    { apply root; try lra. destruct (Rmult_integral _ _ G1); [lra | contradiction]. }
    assert (Hf : f = 0).
    { destruct (Rmult_integral _ _ G2) as [H|H]; [|exact H]. rewrite S1 in H. lra. }
    assert (Hc : c = 0).
    { destruct (Rmult_integral _ _ H2) as [H|H]; [|exact H]. rewrite S1 in H. lra. }
    assert (Hh : h <> 0) by (intros ->; nra).
    assert (S2 : s2 = eps).
    { apply root; try lra. destruct (Rmult_integral _ _ G4); [lra | contradiction]. }
    repeat split; auto.
    + rewrite <- E1, S1. nra.
    + rewrite Hc. ring.
Qed.

(** Whatever decomposition LAPACK returns for [diag(1, 1e-18)], the
    singular value [1e-18] is cut and [pinv] gives [diag(1, 0)]. *)
Lemma pinv_of_ill_conditioned_gram (u : mat) (s : vec) (vt : mat) :
  Linalg.svd 2 [[1; 0]; [0; 1 / 10 ^ 18]] u s vt ->
  Linalg.pinv_of_svd u s vt = [[1; 0]; [0; 0]].
Proof.
  remember (1 / 10 ^ 18) as eps eqn:Eeps.
  assert (Heps : 0 < eps < 1 /\ eps <= 1 / 10 ^ 15) by (rewrite Eeps; simpl; lra).
  clear Eeps.
  intros (Hu & Hs & Hvt & Huu & Huu' & Hvv & Hvv' & Hpos & Ha).
  destruct (two_by_two Hu) as (a & b & c & d & ->).
  destruct (two_by_two Hvt) as (e & f & g & h & ->).
  destruct s as [|s1 [|s2 [|x s]]]; try discriminate. clear Hs Hu Hvt.
  pose proof (Forall_inv Hpos) as Hs1. pose proof (Forall_inv (Forall_inv_tail Hpos)) as Hs2.
  cbv beta in Hs1, Hs2. clear Hpos.
  revert Huu Huu' Hvv Hvv' Ha Heps. np_compute. intros Huu Huu' Hvv Hvv' Ha Heps.
  apply entries_2x2 in Huu as (U1 & U2 & U3 & U4).
  apply entries_2x2 in Huu' as (U5 & U6 & U7 & U8).
  apply entries_2x2 in Hvv as (V1 & V2 & V3 & V4).
  apply entries_2x2 in Hvv' as (V5 & V6 & V7 & V8).
  apply entries_2x2 in Ha as (A1 & A2 & A3 & A4).
  destruct (@svd_of_diagonal_2x2 eps s1 s2 a b c d e f g h) as
    [(-> & -> & Hea & Hec & ->)|(-> & -> & Hgb & Hgd & ->)]; try lra.
  - unfold Rmax. repeat destruct (Rle_dec _ _); repeat destruct (Rlt_dec _ _);
      try lra; array_eq; lra.
  - unfold Rmax. repeat destruct (Rle_dec _ _); repeat destruct (Rlt_dec _ _);
      try lra; array_eq; lra.
Qed.

(** The claim fails on a design matrix of full rank that is badly
    conditioned.  For [X = [[1, 0], [0, 1e-9]]] the Gram matrix is
    [diag(1, 1e-18)]; its singular values are 1 and 1e-18, the second is
    below the cut-off 1e-15 and [pinv] returns [diag(1, 0)], whatever the
    decomposition it starts from.  With [y = [1, 1e9]] the weights returned
    are [[1, 0]], and [X.T (X w - y) = [0, -1]], although [w = [1, 1e18]]
    fits [y] exactly. *)
Lemma solve_analytically_cuts_small_singular_value :
  let X := [[1; 0]; [0; 1 / 10 ^ 9]] in
  let y := [1; 10 ^ 9] in
  let p := [[1; 0]; [0; 0]] in
  let w := solve_analytically (fun _ : mat => p) X y in
  (has_shape 2 2 X /\ dot_mm [[1; 0]; [0; 10 ^ 9]] X = Linalg.identity 2) /\
  (Linalg.pinv 2 (dot_mm (transpose X) X) p /\
   forall p' : mat, Linalg.pinv 2 (dot_mm (transpose X) X) p' -> p' = p) /\
  w = [1; 0] /\
  dot_mv (transpose X) (vsub (dot_mv X w) y) = [0; -1] /\
  dot_mv X [1; 10 ^ 18] = y.
Proof.
  intros X y p w.
  assert (EG : dot_mm (transpose X) X = [[1; 0]; [0; 1 / 10 ^ 18]])
    by (np_compute; array_eq; lra).
  split; [|split; [|split; [|split]]].
  - split; [split; [reflexivity | repeat constructor]|].
    np_compute. array_eq; lra.
  - rewrite EG. split.
    + assert (Hsvd : Linalg.svd 2 [[1; 0]; [0; 1 / 10 ^ 18]]
                       [[1; 0]; [0; 1]] [1; 1 / 10 ^ 18] [[1; 0]; [0; 1]]).
      { unfold Linalg.svd.
        repeat match goal with |- _ /\ _ => split end;
          try reflexivity; try (repeat constructor; simpl; lra);
          np_compute; array_eq; lra. }
      exists [[1; 0]; [0; 1]], [1; 1 / 10 ^ 18], [[1; 0]; [0; 1]].
      split; [exact Hsvd|]. symmetry. now apply pinv_of_ill_conditioned_gram.
    + intros p' (u & s & vt & Hsvd & ->). now apply pinv_of_ill_conditioned_gram.
  - np_compute. array_eq; lra.
  - np_compute. array_eq; lra.
  - np_compute. array_eq; lra.
Qed.

(** The scenario of a system with an exact solution: the weights returned
    for [X = [[1, 0, 1], [0, 1, 1]]] and [y = [2, 3]] reproduce [y]. *)
Example solve_analytically_reconstructs_targets :
  let X := [[1; 0; 1]; [0; 1; 1]] in
  let pinv := fun _ : mat =>
    [[5 / 9; - (4 / 9); 1 / 9]; [- (4 / 9); 5 / 9; 1 / 9]; [1 / 9; 1 / 9; 2 / 9]] in
  dot_mv X (solve_analytically pinv X [2; 3]) = [2; 3].
Proof.
  intros X pinv. np_compute. array_eq; lra.
Qed.

(** ** main *)

Section MainFacts.

Import Main.

Lemma printed_app (l1 l2 : list event) : printed (l1 ++ l2) = printed l1 ++ printed l2.
Proof. unfold printed. apply filter_app. Qed.

Lemma printed_print_lines (l : list (nat * (R * R))) :
  printed (flat_map print_lines l) = flat_map print_lines l.
Proof.
  induction l as [|el l IH]; simpl; auto. unfold printed in *. simpl. now rewrite IH.
Qed.

Lemma last_epoch_some (epochs : list nat) :
  epochs <> [] -> exists e, last_epoch epochs = Some e.
Proof.
  intros Hne. unfold last_epoch. destruct (rev epochs) as [|e l] eqn:E.
  - apply (f_equal (@rev nat)) in E. rewrite rev_involutive in E. simpl in E. contradiction.
  - now exists e.
Qed.

Lemma seq_not_nil (start n : nat) : (0 < n)%nat -> seq start n <> [].
Proof. destruct n; [lia | discriminate]. Qed.

Lemma epoch_body_log (M : Type) (rm : RegressionModel M) (get_w : M -> vec)
    (env : environment) (opt : namespace) (test_X : mat) (test_y : vec)
    (analytic_solution : option vec) (st : loop_state) (e : nat) :
  exists train_loss test_loss : R,
    log (epoch_body get_w env opt test_X test_y analytic_solution st e)
    = log st ++ [PrintEpoch e; PrintLoss train_loss test_loss].
Proof.
  unfold epoch_body.
  destruct (train_epoch _ _ _ _) as [u m1].
  destruct (evaluate _ _ m1) as [train_loss m2].
  destruct (evaluate _ _ m2) as [test_loss m3].
  exists train_loss, test_loss. simpl. now rewrite <- app_assoc.
Qed.

Lemma epoch_loop_log (M : Type) (rm : RegressionModel M) (get_w : M -> vec)
    (env : environment) (opt : namespace) (test_X : mat) (test_y : vec)
    (analytic_solution : option vec) (epochs : list nat) (st : loop_state) :
  exists losses : list (R * R),
    length losses = length epochs /\
    log (fold_left (epoch_body get_w env opt test_X test_y analytic_solution) epochs st)
    = log st ++ flat_map print_lines (combine epochs losses).
Proof.
  revert st. induction epochs as [|e epochs IH]; intros st.
  - exists []. simpl. now rewrite app_nil_r.
  - simpl fold_left.
    destruct (IH (epoch_body get_w env opt test_X test_y analytic_solution st e))
      as (losses & Hlen & Hlog).
    destruct (epoch_body_log rm get_w env opt test_X test_y analytic_solution st e)
      as (train_loss & test_loss & Hbody).
    exists ((train_loss, test_loss) :: losses). split; [simpl; congruence|].
    rewrite Hlog, Hbody. simpl. now rewrite <- app_assoc.
Qed.

(** When [np.arange] hands back an array of epochs that is not empty, the
    loop runs over it and both plots are drawn. *)
Lemma train_and_plot_completes (M : Type) (rm : RegressionModel M) (get_w : M -> vec)
    (env : environment) (opt : namespace) (test_X : mat) (test_y : vec)
    (analytic_solution : option vec) (st : loop_state) (epochs : list nat) :
  arange_epochs env opt = inr epochs ->
  epochs <> [] ->
  printed (log st) = [] ->
  let run := train_and_plot get_w env opt test_X test_y analytic_solution st in
  snd run = Completed /\
  exists losses : list (R * R),
    length losses = length epochs /\
    printed (fst run) = flat_map print_lines (combine epochs losses).
Proof.
  intros Har Hne Hlog run. unfold run, train_and_plot, plot, plot_dist_from_analytic.
  rewrite Har.
  destruct (last_epoch_some Hne) as [e He]. rewrite He.
  destruct (epoch_loop_log rm get_w env opt test_X test_y analytic_solution epochs st)
    as (losses & Hlen & Hst).
  destruct analytic_solution as [a|]; simpl; (split; [reflexivity|]);
    exists losses; (split; [exact Hlen|]);
    rewrite Hst, !printed_app, Hlog, printed_print_lines; simpl; now rewrite app_nil_r.
Qed.

(** When the array of epochs is empty the loop is skipped and [plot] raises
    on [epochs[-1]]; when [np.arange] raises, so does the run. *)
Lemma train_and_plot_without_epochs (M : Type) (rm : RegressionModel M) (get_w : M -> vec)
    (env : environment) (opt : namespace) (test_X : mat) (test_y : vec)
    (analytic_solution : option vec) (st : loop_state) :
  arange_epochs env opt = inr [] ->
  train_and_plot get_w env opt test_X test_y analytic_solution st
  = (log st, Raised "IndexError").
Proof.
  intros Har. unfold train_and_plot. rewrite Har. cbn. now rewrite app_nil_r.
Qed.

Lemma train_and_plot_arange_raises (M : Type) (rm : RegressionModel M) (get_w : M -> vec)
    (env : environment) (opt : namespace) (test_X : mat) (test_y : vec)
    (analytic_solution : option vec) (st : loop_state) (exception : string) :
  arange_epochs env opt = inl exception ->
  train_and_plot get_w env opt test_X test_y analytic_solution st
  = (log st, Raised exception).
Proof.
  intros Har. unfold train_and_plot. now rewrite Har.
Qed.

(** What argparse has checked when it returns a namespace. *)
Lemma parse_args_accepts (args : invocation) (opt : namespace) :
  parse_args args = inr opt ->
  arg_help args = false /\
  model opt = arg_model args /\
  (model opt = "linear_regression"%string \/ model opt = "nn"%string) /\
  with_default 150%Z (arg_epochs args) = Some (epochs opt) /\
  with_default 150%Z (arg_hidden_size args) = Some (hidden_size opt) /\
  with_default (1 / 1000) (arg_learning_rate args) = Some (learning_rate opt).
Proof.
  unfold parse_args. intros H.
  destruct (arg_help args); [discriminate|].
  destruct (existsb (String.eqb (arg_model args)) choices) eqn:E; [|discriminate].
  cbn [negb] in H.
  destruct (with_default 150%Z (arg_epochs args)) as [e|]; [|discriminate].
  destruct (with_default 150%Z (arg_hidden_size args)) as [h|]; [|discriminate].
  destruct (with_default (1 / 1000) (arg_learning_rate args)) as [lr|]; [|discriminate].
  injection H as <-. cbn [model epochs hidden_size learning_rate].
  repeat split; auto.
  apply existsb_exists in E as (c & Hin & Heq). apply String.eqb_eq in Heq. subst c.
  destruct Hin as [Hm|[Hm|[]]]; auto.
Qed.

Lemma parse_args_rejects_model (args : invocation) :
  arg_help args = false ->
  ~ In (arg_model args) choices ->
  parse_args args = inl 2%Z.
Proof.
  intros Hh Hno. unfold parse_args. rewrite Hh.
  destruct (existsb _ _) eqn:E; [|reflexivity].
  apply existsb_exists in E as (c & Hc & Heq). apply String.eqb_eq in Heq.
  subst c. contradiction.
Qed.

(** [main] for [linear_regression] and for [nn], once the arguments are
    parsed. *)
Lemma main_linear_regression (args : invocation) (env : environment) (opt : namespace) :
  parse_args args = inr opt ->
  model opt = "linear_regression"%string ->
  let data := load_regression_data env true in
  let log0 := [ConfigureSeed 42; LoadData true] in
  let st := {| the_model := Linear.init (ncols (fst (fst data)));
               train_X := fst (fst data); train_y := snd (fst data);
               train_losses := []; test_losses := []; dist_opt := [];
               log := log0 |} in
  main args env
  = train_and_plot Linear.w env opt (fst (snd data)) (snd (snd data))
      (Some (solve_analytically (linalg_pinv env) (fst (fst data)) (snd (fst data)))) st.
Proof.
  intros Hp Hm. cbv zeta. unfold main. rewrite Hp, Hm. simpl String.eqb. cbv iota.
  cbn [negb].
  destruct (load_regression_data env true) as [[train_X0 train_y0] [test_X test_y]].
  reflexivity.
Qed.

Lemma main_nn (args : invocation) (env : environment) (opt : namespace) :
  parse_args args = inr opt ->
  model opt = "nn"%string ->
  let data := load_regression_data env false in
  let log0 := [ConfigureSeed 42; LoadData false] in
  let hidden := Z.to_nat (hidden_size opt) in
  main args env
  = if (hidden_size opt <? 0)%Z then (log0, Raised "ValueError")
    else
      match random_normal env 0 (ncols (fst (fst data))) hidden with
      | inl exception => (log0, Raised exception)
      | inr W0 =>
          match random_normal env 1 hidden 1 with
          | inl exception => (log0, Raised exception)
          | inr W1 =>
              train_and_plot (fun _ : Neural.NeuralRegression => []) env opt
                (fst (snd data)) (snd (snd data)) None
                {| the_model := Neural.init W0 W1 hidden;
                   train_X := fst (fst data); train_y := snd (fst data);
                   train_losses := []; test_losses := []; dist_opt := [];
                   log := log0 |}
          end
      end.
Proof.
  intros Hp Hm. cbv zeta. unfold main. rewrite Hp, Hm. simpl String.eqb. cbv iota.
  cbn [negb].
  destruct (load_regression_data env false) as [[train_X0 train_y0] [test_X test_y]].
  reflexivity.
Qed.

Lemma main_nn_weights_drawn (args : invocation) (env : environment) (opt : namespace) :
  parse_args args = inr opt ->
  model opt = "nn"%string ->
  weights_drawn env (hidden_size opt) ->
  let data := load_regression_data env false in
  exists W0 W1 : mat,
    main args env
    = train_and_plot (fun _ : Neural.NeuralRegression => []) env opt
        (fst (snd data)) (snd (snd data)) None
        {| the_model := Neural.init W0 W1 (Z.to_nat (hidden_size opt));
           train_X := fst (fst data); train_y := snd (fst data);
           train_losses := []; test_losses := []; dist_opt := [];
           log := [ConfigureSeed 42; LoadData false] |}.
Proof.
  intros Hp Hm (Hpos & W0 & W1 & H0 & H1). cbv zeta.
  rewrite (@main_nn args env opt Hp Hm).
  destruct (Z.ltb_spec (hidden_size opt) 0) as [Hneg|_]; [lia|].
  rewrite H0, H1. now exists W0, W1.
Qed.

Lemma orderly_sample_environment : orderly sample_environment.
Proof.
  split; [|split; [|split]].
  - intros bias. exists 2%nat, 1%nat, 2%nat. cbn.
    repeat split; auto; repeat constructor.
  - intros epoch n. apply Permutation_refl.
  - cbn. split; [reflexivity | repeat constructor].
  - intros call rows cols W. cbn [random_normal sample_environment].
    destruct (Z.of_nat rows * Z.of_nat cols <=? 2 ^ 20)%Z; [|discriminate].
    intros H. injection H as <-. split; [apply repeat_length|].
    apply Forall_forall. intros r Hr. apply repeat_spec in Hr. subst r. apply repeat_length.
Qed.

End MainFacts.

(** C9, amended: when [-h] is not given and the positional argument is not
    a known model, [main] ends with a usage error and status 2 before
    anything else is done.  When argparse accepts the command line (no
    [-h], a known model, option values that convert), the number of epochs
    is at least one and [np.arange] returns the epochs [1 .. epochs], the
    network, if asked for, gets its weights (a hidden size that is not
    negative, samples that numpy can build), and the data, the shuffles
    and [pinv] fit together, [main] runs to its end and prints, for every
    epoch in turn, the epoch line and the line of the two losses. *)
Theorem main_rejects_or_completes (args : Main.invocation) (env : Main.environment) :
  (Main.arg_help args = false ->
   ~ In (Main.arg_model args) Main.choices ->
   Main.main args env = ([], Main.Exit 2)) /\
  (forall opt : Main.namespace,
     Main.parse_args args = inr opt ->
     orderly env ->
     (1 <= Main.epochs opt)%Z ->
     Main.arange_from_1 env (Main.epochs opt + 1) = inr (seq 1 (Z.to_nat (Main.epochs opt))) ->
     (Main.model opt = "nn"%string -> weights_drawn env (Main.hidden_size opt)) ->
     snd (Main.main args env) = Main.Completed /\
     exists losses : list (R * R),
       length losses = Z.to_nat (Main.epochs opt) /\
       Main.printed (fst (Main.main args env))
       = flat_map print_lines (combine (seq 1 (Z.to_nat (Main.epochs opt))) losses)).
Proof.
  split.
  - intros Hh Hno. unfold Main.main. now rewrite (@parse_args_rejects_model args Hh Hno).
  - intros opt Hp _ Hep Har Hnn.
    assert (Hne : seq 1 (Z.to_nat (Main.epochs opt)) <> []) by (apply seq_not_nil; lia).
    assert (Hlen : forall losses : list (R * R),
               length losses = length (seq 1 (Z.to_nat (Main.epochs opt))) ->
               length losses = Z.to_nat (Main.epochs opt))
      by (intros losses ->; apply length_seq).
    destruct (@parse_args_accepts args opt Hp) as (_ & _ & [Hm|Hm] & _).
    + rewrite (@main_linear_regression args env opt Hp Hm).
      match goal with
      | |- context [Main.train_and_plot ?g ?e ?o ?tx ?ty ?a ?st] =>
          destruct (@train_and_plot_completes _ Linear_model g e o tx ty a st _ Har Hne eq_refl)
            as (Hc & losses & Hl & Hpr)
      end.
      split; [exact Hc|]. exists losses. split; [now apply Hlen | exact Hpr].
    + destruct (@main_nn_weights_drawn args env opt Hp Hm (Hnn Hm)) as (W0 & W1 & ->).
      match goal with
      | |- context [Main.train_and_plot ?g ?e ?o ?tx ?ty ?a ?st] =>
          destruct (@train_and_plot_completes _ Neural_model g e o tx ty a st _ Har Hne eq_refl)
            as (Hc & losses & Hl & Hpr)
      end.
      split; [exact Hc|]. exists losses. split; [now apply Hlen | exact Hpr].
Qed.

Lemma main_rejects_or_completes_witness :
  let args := {| Main.arg_help := false;
                 Main.arg_model := "linear_regression";
                 Main.arg_epochs := Main.Value 2%Z;
                 Main.arg_hidden_size := Main.Absent;
                 Main.arg_learning_rate := Main.Absent |} in
  snd (Main.main args Main.sample_environment) = Main.Completed /\
  exists losses : list (R * R),
    length losses = 2%nat /\
    Main.printed (fst (Main.main args Main.sample_environment))
    = flat_map print_lines (combine [1; 2]%nat losses).
Proof.
  intros args.
  apply (proj2 (main_rejects_or_completes args Main.sample_environment)
               {| Main.model := "linear_regression"; Main.epochs := 2;
                  Main.hidden_size := 150; Main.learning_rate := 1 / 1000 |}).
  - reflexivity.
  - exact orderly_sample_environment.
  - simpl. lia.
  - reflexivity.
  - discriminate.
Defined.

(** The run need not end as the claim says.  With [-h] before a model that
    is not known, argparse prints the help and the exit status is 0.  With
    arguments the parser accepts: zero epochs skip the training loop and
    [plot] raises on [epochs[-1]]; so does [-epochs 9223372036854775807],
    for which [np.arange(1, 2 ** 63)] is empty on the sample machine; and
    with a negative hidden size the network cannot be built. *)
Lemma main_accepted_arguments_may_raise :
  let env := Main.sample_environment in
  let run (help : bool) (model : string) (epochs hidden_size : Z) :=
    Main.main {| Main.arg_help := help;
                 Main.arg_model := model;
                 Main.arg_epochs := Main.Value epochs;
                 Main.arg_hidden_size := Main.Value hidden_size;
                 Main.arg_learning_rate := Main.Absent |} env in
  (~ In "svm"%string Main.choices /\
   run true "svm"%string 150%Z 150%Z = ([], Main.Exit 0)) /\
  (In "linear_regression"%string Main.choices /\
   run false "linear_regression"%string 0%Z 150%Z
   = ([Main.ConfigureSeed 42; Main.LoadData true], Main.Raised "IndexError")) /\
  run false "linear_regression"%string (2 ^ 63 - 1)%Z 150%Z
  = ([Main.ConfigureSeed 42; Main.LoadData true], Main.Raised "IndexError") /\
  (In "nn"%string Main.choices /\
   run false "nn"%string 150%Z (-1)%Z
   = ([Main.ConfigureSeed 42; Main.LoadData false], Main.Raised "ValueError")).
Proof.
  intros env run. unfold run.
  split; [|split; [|split]].
  - split; [|reflexivity]. intros [H|[H|[]]]; discriminate.
  - split; [left; reflexivity|].
    erewrite main_linear_regression; [|reflexivity|reflexivity].
    now rewrite train_and_plot_without_epochs.
  - erewrite main_linear_regression; [|reflexivity|reflexivity].
    now rewrite train_and_plot_without_epochs.
  - split; [right; left; reflexivity|].
    erewrite main_nn; [|reflexivity|reflexivity]. reflexivity.
Qed.

(** ** One entry of a parameter changed *)

Lemma length_set_nth {A : Type} (i : nat) (v : A) (l : list A) :
  length (set_nth i v l) = length l.
Proof.
  revert i; induction l as [|a l IH]; intros [|i]; simpl; auto.
Qed.

Lemma nth_set_nth_eq {A : Type} (i : nat) (v d : A) (l : list A) :
  (i < length l)%nat -> nth i (set_nth i v l) d = v.
Proof.
  revert i; induction l as [|a l IH]; intros [|i] Hi; simpl in *; try lia; auto.
  apply IH. lia.
Qed.

Lemma nth_set_nth_neq {A : Type} (i j : nat) (v d : A) (l : list A) :
  i <> j -> nth j (set_nth i v l) d = nth j l d.
Proof.
  revert i j; induction l as [|a l IH]; intros [|i] [|j] Hij; simpl; auto; try lia.
Qed.

Lemma set_nth_same {A : Type} (i : nat) (d : A) (l : list A) :
  set_nth i (nth i l d) l = l.
Proof.
  revert i; induction l as [|a l IH]; intros [|i]; simpl; auto. now rewrite IH.
Qed.

Lemma map_set_nth {A B : Type} (f : A -> B) (i : nat) (v : A) (l : list A) :
  map f (set_nth i v l) = set_nth i (f v) (map f l).
Proof.
  revert i; induction l as [|a l IH]; intros [|i]; simpl; auto. now rewrite IH.
Qed.

Lemma dot_vv_set_nth_r (x col : vec) (i : nat) (t : R) :
  (i < length col)%nat ->
  dot_vv x (set_nth i t col) = dot_vv x col + nth i x 0 * (t - nth i col 0).
Proof.
  revert col i; induction x as [|a x IH]; intros [|c col] [|i] Hi; simpl in *; try lia.
  - unfold dot_vv; simpl; ring.
  - unfold dot_vv; simpl; ring.
  - rewrite !dot_vv_cons. ring.
  - rewrite !dot_vv_cons, IH by lia. ring.
Qed.

Lemma dot_vv_set_nth_l (h w : vec) (j : nat) (a : R) :
  (j < length h)%nat ->
  dot_vv (set_nth j a h) w = dot_vv h w + (a - nth j h 0) * nth j w 0.
Proof.
  intros Hj. rewrite dot_vv_comm, dot_vv_set_nth_r by exact Hj.
  rewrite (dot_vv_comm w h). ring.
Qed.

Lemma vadd_set_nth_l (u b : vec) (j : nat) (a : R) :
  vadd (set_nth j a u) b = set_nth j (a + nth j b 0) (vadd u b).
Proof.
  unfold vadd. revert b j; induction u as [|c u IH]; intros [|e b] [|j]; simpl; auto.
  now rewrite IH.
Qed.

Lemma vadd_set_nth_r (u b : vec) (j : nat) (t : R) :
  vadd u (set_nth j t b) = set_nth j (nth j u 0 + t) (vadd u b).
Proof.
  unfold vadd. revert b j; induction u as [|c u IH]; intros [|e b] [|j]; simpl; auto.
  now rewrite IH.
Qed.

Lemma maximum0_set_nth (z : vec) (j : nat) (a : R) :
  maximum0 (set_nth j a z) = set_nth j (Rmax a 0) (maximum0 z).
Proof. unfold maximum0. apply (map_set_nth (fun b => Rmax b 0)). Qed.

Lemma column_set_nth (c i : nat) (r : vec) (A : mat) :
  column c (set_nth i r A) = set_nth i (nth c r 0) (column c A).
Proof. unfold column. apply (map_set_nth (fun r => nth c r 0)). Qed.

(** ** Derivatives along one parameter *)

Lemma derivable_square_affine (A B t0 : R) :
  derivable_pt_lim (fun t => (A + B * (t - t0)) ^ 2) t0 (2 * A * B).
Proof.
  intros eps Heps.
  assert (Hd : 0 < eps / (Rabs B * Rabs B + 1)).
  { apply Rdiv_lt_0_compat; [exact Heps|]. pose proof (Rabs_pos B). nra. }
  exists (mkposreal _ Hd). cbn [pos]. intros h Hh Hsmall. cbv beta.
  replace (((A + B * (t0 + h - t0)) ^ 2 - (A + B * (t0 - t0)) ^ 2) / h - 2 * A * B)
    with (B * B * h) by (field; exact Hh).
  rewrite !Rabs_mult.
  pose proof (Rabs_pos B) as HB. pose proof (Rabs_pos h) as Hh0.
  assert (Hlt : Rabs h * (Rabs B * Rabs B + 1) < eps).
  { apply (Rmult_lt_compat_r (Rabs B * Rabs B + 1)) in Hsmall; [|nra].
    unfold Rdiv in Hsmall. rewrite Rmult_assoc, Rinv_l in Hsmall by nra. lra. }
  nra.
Qed.

Lemma Rmax_pos_near (c s t0 t : R) :
  0 < c -> Rabs (t - t0) < c / (Rabs s + 1) -> Rmax (c + s * (t - t0)) 0 = c + s * (t - t0).
Proof.
  intros Hc Ht. pose proof (Rabs_pos s) as Hs.
  assert (Hprod : Rabs (s * (t - t0)) < c).
  { rewrite Rabs_mult.
    apply (Rmult_lt_compat_r (Rabs s + 1)) in Ht; [|lra].
    unfold Rdiv in Ht. rewrite Rmult_assoc, Rinv_l in Ht by lra.
    pose proof (Rabs_pos (t - t0)). nra. }
  apply Rabs_def2 in Hprod. apply Rmax_left. lra.
Qed.

Lemma Rmax_neg_near (c s t0 t : R) :
  c < 0 -> Rabs (t - t0) < - c / (Rabs s + 1) -> Rmax (c + s * (t - t0)) 0 = 0.
Proof.
  intros Hc Ht. pose proof (Rabs_pos s) as Hs.
  assert (Hprod : Rabs (s * (t - t0)) < - c).
  { rewrite Rabs_mult.
    apply (Rmult_lt_compat_r (Rabs s + 1)) in Ht; [|lra].
    unfold Rdiv in Ht. rewrite Rmult_assoc, Rinv_l in Ht by lra.
    pose proof (Rabs_pos (t - t0)). nra. }
  apply Rabs_def2 in Hprod. apply Rmax_right. lra.
Qed.

(** The squared error as a function of one parameter that reaches the
    output through one hidden unit with pre-activation [c <> 0]. *)
Lemma derivable_square_through_relu (A w c s t0 : R) :
  c <> 0 ->
  derivable_pt_lim
    (fun t => (A + (Rmax (c + s * (t - t0)) 0 - Rmax c 0) * w) ^ 2)
    t0 (2 * A * (w * gt0 c * s)).
Proof.
  intros Hc. pose proof (Rabs_pos s) as Hs.
  destruct (Rlt_dec 0 c) as [Hpos|Hneg].
  - set (r := c / (Rabs s + 1)).
    assert (Hr : 0 < r) by (apply Rdiv_lt_0_compat; lra).
    apply (derivable_pt_lim_locally_ext (fun t => (A + (w * s) * (t - t0)) ^ 2)
             _ t0 (t0 - r) (t0 + r)); [lra | |].
    + intros t Ht.
      rewrite (Rmax_pos_near s t0 t Hpos) by (apply Rabs_def1; unfold r in *; lra).
      rewrite (Rmax_left c 0) by lra. f_equal. ring.
    + unfold gt0. destruct (Rlt_dec 0 c); [|contradiction].
      replace (2 * A * (w * 1 * s)) with (2 * A * (w * s)) by ring.
      apply derivable_square_affine.
  - assert (Hc' : c < 0) by lra.
    set (r := - c / (Rabs s + 1)).
    assert (Hr : 0 < r) by (apply Rdiv_lt_0_compat; lra).
    apply (derivable_pt_lim_locally_ext (fun t => (A + 0 * (t - t0)) ^ 2)
             _ t0 (t0 - r) (t0 + r)); [lra | |].
    + intros t Ht.
      rewrite (Rmax_neg_near s t0 t Hc') by (apply Rabs_def1; unfold r in *; lra).
      rewrite (Rmax_right c 0) by lra. f_equal. ring.
    + unfold gt0. destruct (Rlt_dec 0 c); [contradiction|].
      replace (2 * A * (w * 0 * s)) with (2 * A * 0) by ring.
      apply derivable_square_affine.
Qed.

(** ** The network in closed form *)

Lemma Forall_set_nth {A : Type} (P : A -> Prop) (i : nat) (v : A) (l : list A) :
  Forall P l -> P v -> Forall P (set_nth i v l).
Proof.
  intros Hl Hv. revert i; induction Hl as [|a l Ha Hl IH]; intros [|i]; simpl; auto.
Qed.

Lemma has_shape_set_entry (n m i j : nat) (t : R) (W : mat) :
  has_shape n m W -> (i < n)%nat ->
  has_shape n m (set_nth i (set_nth j t (nth i W [])) W).
Proof.
  intros [Hlen Hrows] Hi. split; [now rewrite length_set_nth|].
  apply Forall_set_nth; [exact Hrows|]. rewrite length_set_nth.
  rewrite Forall_forall in Hrows. apply Hrows, nth_In. lia.
Qed.

Lemma nth_maximum0 (z : vec) (j : nat) : nth j (maximum0 z) 0 = Rmax (nth j z 0) 0.
Proof.
  unfold maximum0.
  assert (E : 0 = (fun a => Rmax a 0) 0) by (symmetry; apply Rmax_left; lra).
  rewrite E at 1. apply (map_nth (fun a => Rmax a 0)).
Qed.

Lemma nth_vadd (u v : vec) (j : nat) :
  (j < length u)%nat -> (j < length v)%nat -> nth j (vadd u v) 0 = nth j u 0 + nth j v 0.
Proof.
  unfold vadd. revert v j; induction u as [|a u IH]; intros [|b v] [|j] Hu Hv;
    simpl in *; try lia; auto.
  apply IH; lia.
Qed.

Lemma forward_closed_form (n hidden : nat) (W0 W1 : mat) (b0 b1 x : vec) :
  has_shape n hidden W0 -> has_shape hidden 1 W1 ->
  length b1 = 1%nat -> (0 < n)%nat -> (0 < hidden)%nat ->
  snd (Neural.forward (Neural.two_layers W0 W1 b0 b1) x)
  = [dot_vv (maximum0 (vadd (dot_vm_cols hidden x W0) b0)) (column 0 W1) + nth 0 b1 0].
Proof.
  intros S0 S1 L1 Hn Hh. rewrite forward_two_layers. cbn [snd].
  rewrite (dot_vm_cols_eq x S0 Hn).
  rewrite (dot_vm_cols_eq _ S1 Hh).
  destruct b1 as [|beta [|? ?]]; try discriminate. reflexivity.
Qed.

Lemma squared_error_closed_form (n hidden : nat) (W0 W1 : mat) (b0 b1 x : vec) (y : R) :
  has_shape n hidden W0 -> has_shape hidden 1 W1 ->
  length b1 = 1%nat -> (0 < n)%nat -> (0 < hidden)%nat ->
  Spec.squared_error (Neural.two_layers W0 W1 b0 b1) x y
  = (dot_vv (maximum0 (vadd (dot_vm_cols hidden x W0) b0)) (column 0 W1) + nth 0 b1 0 - y) ^ 2.
Proof.
  intros S0 S1 L1 Hn Hh. unfold Spec.squared_error.
  now rewrite (@forward_closed_form n hidden W0 W1 b0 b1 x S0 S1 L1 Hn Hh).
Qed.

Lemma map_seq_update (f f' : nat -> R) (j m : nat) (v : R) :
  (forall c, c <> j -> f' c = f c) -> f' j = v ->
  map f' (seq 0 m) = set_nth j v (map f (seq 0 m)).
Proof.
  intros Hne Heq. apply (nth_ext _ _ 0 0).
  - now rewrite length_set_nth, !length_map.
  - intros k Hk. rewrite length_map, length_seq in Hk.
    assert (Hf : forall g : nat -> R, nth k (map g (seq 0 m)) 0 = g k).
    { intros g. rewrite (nth_indep _ 0 (g 0%nat)) by now rewrite length_map, length_seq.
      rewrite map_nth, seq_nth by exact Hk. reflexivity. }
    destruct (Nat.eq_dec j k) as [->|Hjk].
    + rewrite nth_set_nth_eq by now rewrite length_map, length_seq.
      now rewrite Hf.
    + rewrite nth_set_nth_neq by exact Hjk. rewrite !Hf. apply Hne. congruence.
Qed.

Lemma dot_vm_cols_set_entry (m : nat) (x : vec) (W : mat) (i j : nat) (t : R) :
  (i < length W)%nat -> (j < length (nth i W []))%nat ->
  dot_vm_cols m x (set_nth i (set_nth j t (nth i W [])) W)
  = set_nth j (nth j (dot_vm_cols m x W) 0 + nth i x 0 * (t - nth j (nth i W []) 0))
            (dot_vm_cols m x W).
Proof.
  intros Hi Hj. unfold dot_vm_cols, columns. rewrite !map_map.
  destruct (Nat.lt_ge_cases j m) as [Hjm|Hjm].
  - apply map_seq_update.
    + intros c Hc. rewrite column_set_nth, nth_set_nth_neq by congruence.
      rewrite <- nth_column, set_nth_same. reflexivity.
    + rewrite column_set_nth, nth_set_nth_eq by exact Hj.
      rewrite dot_vv_set_nth_r by (unfold column; now rewrite length_map).
      rewrite nth_column.
      assert (Hnth : nth j (map (fun c => dot_vv x (column c W)) (seq 0 m)) 0
                     = dot_vv x (column j W)).
      { rewrite (nth_indep (map (fun c => dot_vv x (column c W)) (seq 0 m)) 0
                   (dot_vv x (column 0 W))) by now rewrite length_map, length_seq.
        rewrite (map_nth (fun c => dot_vv x (column c W))), seq_nth by exact Hjm.
        reflexivity. }
      rewrite Hnth. reflexivity.
  - transitivity (map (fun c => dot_vv x (column c W)) (seq 0 m)).
    + apply map_ext_in. intros c Hc. apply in_seq in Hc.
      rewrite column_set_nth, nth_set_nth_neq by lia.
      rewrite <- nth_column, set_nth_same. reflexivity.
    + symmetry. apply (nth_ext _ _ 0 0); [now rewrite length_set_nth|].
      intros k Hk. rewrite length_set_nth, length_map, length_seq in Hk.
      apply nth_set_nth_neq. lia.
Qed.

(** ** The gradients of update_weight *)

Lemma gradients_two_layers (W0 W1 : mat) (b0 b1 x : vec) (y : R) :
  let z0 := vadd (dot_vm x W0) b0 in
  let h0 := maximum0 z0 in
  let yhat := vadd (dot_vm h0 W1) b1 in
  let grad_z1 := scale 2 (vsub_scalar yhat y) in
  let grad_z0 := Spec.relu_backward (dot_vm grad_z1 (transpose W1)) z0 in
  Neural.gradients (Neural.two_layers W0 W1 b0 b1) x y
  = ([Spec.outer x grad_z0; Spec.outer h0 grad_z1], [grad_z0; grad_z1]).
Proof.
  cbv zeta. unfold Neural.gradients.
  rewrite forward_two_layers, backward_two_layers. cbn [rev app].
  now rewrite !dot_outer, relu_mask.
Qed.

Lemma update_weight_applies_gradients (self : Neural.NeuralRegression) (x : vec) (y lr : R) :
  let grads := Neural.gradients self x y in
  let self' := fold_left (Neural.update_body lr (fst grads) (snd grads))
                         (seq 0 (length (Neural.weights self))) self in
  Neural.update_weight x y lr self = ((Neural.weights self', Neural.biases self'), self').
Proof.
  cbv zeta. unfold Neural.update_weight, Neural.gradients, bind, get, put, ret.
  destruct (Neural.forward self x) as [hiddens z].
  destruct (Neural.backward self x hiddens _) as [[g gw] gb]. reflexivity.
Qed.

Lemma nth_scale (a : R) (v : vec) (j : nat) :
  nth j (map (fun b => a * b) v) 0 = a * nth j v 0.
Proof.
  revert j; induction v as [|b v IH]; intros [|j]; simpl; auto; ring.
Qed.

Lemma nth_outer (u v : vec) (i j : nat) :
  (i < length u)%nat -> nth j (nth i (Spec.outer u v) []) 0 = nth i u 0 * nth j v 0.
Proof.
  unfold Spec.outer. revert i; induction u as [|a u IH]; intros [|i] Hi; simpl in *; try lia.
  - apply nth_scale.
  - apply IH. lia.
Qed.

Lemma nth_dot_mv_column (hidden : nat) (W1 : mat) (gamma : R) (j : nat) :
  has_shape hidden 1 W1 -> (j < hidden)%nat ->
  nth j (dot_mv W1 [gamma]) 0 = nth j (column 0 W1) 0 * gamma.
Proof.
  intros [Hlen Hrows] Hj. unfold dot_mv. rewrite <- Hlen in Hj.
  rewrite (nth_indep _ 0 ((fun r => dot_vv r [gamma]) []))
    by (rewrite length_map; exact Hj).
  rewrite (map_nth (fun r => dot_vv r [gamma])), nth_column.
  assert (Hr : length (nth j W1 []) = 1%nat).
  { rewrite Forall_forall in Hrows. apply Hrows, nth_In. exact Hj. }
  unfold vec, mat in *.
  destruct (nth j W1 []) as [|a [|? ?]]; try discriminate.
  unfold dot_vv. simpl. ring.
Qed.

(** ** The squared error along one parameter *)

Section Derivatives.

Variables (n hidden : nat) (W0 W1 : mat) (b0 b1 x : vec) (y : R).

Hypothesis S0 : has_shape n hidden W0.
Hypothesis S1 : has_shape hidden 1 W1.
Hypothesis L0 : length b0 = hidden.
Hypothesis L1 : length b1 = 1%nat.
Hypothesis Hn : (0 < n)%nat.
Hypothesis Hh : (0 < hidden)%nat.

Lemma length_hidden_pre_activation :
  length (vadd (dot_vm_cols hidden x W0) b0) = hidden.
Proof.
  unfold vadd. rewrite zip_with_length, length_dot_vm_cols, L0. apply Nat.min_id.
Qed.

Lemma length_output_column : length (column 0 W1) = hidden.
Proof. unfold column. rewrite length_map. apply S1. Qed.

Lemma derivative_output_bias :
  let h0 := maximum0 (vadd (dot_vm_cols hidden x W0) b0) in
  let yhat := dot_vv h0 (column 0 W1) + nth 0 b1 0 in
  derivable_pt_lim
    (fun t => Spec.squared_error (Neural.two_layers W0 W1 b0 (set_nth 0 t b1)) x y)
    (nth 0 b1 0) (2 * (yhat - y)).
Proof.
  intros h0 yhat.
  apply (derivable_pt_lim_ext (fun t => (yhat - y + 1 * (t - nth 0 b1 0)) ^ 2)).
  - intros t.
    rewrite (@squared_error_closed_form n hidden) by (auto; now rewrite length_set_nth).
    rewrite nth_set_nth_eq by (rewrite L1; lia). fold h0. unfold yhat. f_equal. ring.
  - replace (2 * (yhat - y)) with (2 * (yhat - y) * 1) by ring.
    apply derivable_square_affine.
Qed.

Lemma derivative_output_weight (i : nat) :
  (i < hidden)%nat ->
  let h0 := maximum0 (vadd (dot_vm_cols hidden x W0) b0) in
  let yhat := dot_vv h0 (column 0 W1) + nth 0 b1 0 in
  derivable_pt_lim
    (fun t => Spec.squared_error
                (Neural.two_layers W0 (set_nth i (set_nth 0 t (nth i W1 [])) W1) b0 b1) x y)
    (nth 0 (nth i W1 []) 0) (2 * (yhat - y) * nth i h0 0).
Proof.
  intros Hi h0 yhat.
  assert (Hrow : length (nth i W1 []) = 1%nat).
  { pose proof S1 as [Hlen Hrows]. rewrite Forall_forall in Hrows.
    apply Hrows, nth_In. rewrite <- Hlen in Hi. exact Hi. }
  apply (derivable_pt_lim_ext
           (fun t => (yhat - y + nth i h0 0 * (t - nth 0 (nth i W1 []) 0)) ^ 2)).
  - intros t.
    rewrite (@squared_error_closed_form n hidden)
      by (auto; apply has_shape_set_entry; auto).
    rewrite column_set_nth, nth_set_nth_eq by (rewrite Hrow; lia).
    rewrite dot_vv_set_nth_r by (rewrite length_output_column; exact Hi).
    rewrite nth_column. fold h0. unfold yhat. f_equal. ring.
  - apply derivable_square_affine.
Qed.

Lemma squared_error_hidden_unit (W0' : mat) (b0' : vec) (j : nat) (a : R) :
  has_shape n hidden W0' ->
  (j < hidden)%nat ->
  vadd (dot_vm_cols hidden x W0') b0' = set_nth j a (vadd (dot_vm_cols hidden x W0) b0) ->
  let z0 := vadd (dot_vm_cols hidden x W0) b0 in
  let yhat := dot_vv (maximum0 z0) (column 0 W1) + nth 0 b1 0 in
  Spec.squared_error (Neural.two_layers W0' W1 b0' b1) x y
  = (yhat - y + (Rmax a 0 - Rmax (nth j z0 0) 0) * nth j (column 0 W1) 0) ^ 2.
Proof.
  intros S0' Hj Hz z0 yhat.
  rewrite (@squared_error_closed_form n hidden) by auto.
  rewrite Hz, maximum0_set_nth.
  rewrite dot_vv_set_nth_l
    by (rewrite length_maximum0, length_hidden_pre_activation; exact Hj).
  rewrite nth_maximum0. fold z0. unfold yhat. f_equal. ring.
Qed.

Lemma derivative_hidden_bias (j : nat) :
  (j < hidden)%nat ->
  let z0 := vadd (dot_vm_cols hidden x W0) b0 in
  let yhat := dot_vv (maximum0 z0) (column 0 W1) + nth 0 b1 0 in
  nth j z0 0 <> 0 ->
  derivable_pt_lim
    (fun t => Spec.squared_error (Neural.two_layers W0 W1 (set_nth j t b0) b1) x y)
    (nth j b0 0)
    (2 * (yhat - y) * (nth j (column 0 W1) 0 * gt0 (nth j z0 0))).
Proof.
  intros Hj z0 yhat Hz.
  assert (Ez : nth j z0 0 = nth j (dot_vm_cols hidden x W0) 0 + nth j b0 0).
  { apply nth_vadd; [rewrite length_dot_vm_cols | rewrite L0]; exact Hj. }
  apply (derivable_pt_lim_ext
           (fun t => (yhat - y
                      + (Rmax (nth j z0 0 + 1 * (t - nth j b0 0)) 0 - Rmax (nth j z0 0) 0)
                        * nth j (column 0 W1) 0) ^ 2)).
  - intros t. symmetry. apply squared_error_hidden_unit; auto.
    rewrite vadd_set_nth_r. fold z0. f_equal. rewrite Ez. ring.
  - replace (2 * (yhat - y) * (nth j (column 0 W1) 0 * gt0 (nth j z0 0)))
      with (2 * (yhat - y) * (nth j (column 0 W1) 0 * gt0 (nth j z0 0) * 1)) by ring.
    now apply derivable_square_through_relu.
Qed.

Lemma derivative_hidden_weight (i j : nat) :
  (i < n)%nat -> (j < hidden)%nat ->
  let z0 := vadd (dot_vm_cols hidden x W0) b0 in
  let yhat := dot_vv (maximum0 z0) (column 0 W1) + nth 0 b1 0 in
  nth j z0 0 <> 0 ->
  derivable_pt_lim
    (fun t => Spec.squared_error
                (Neural.two_layers (set_nth i (set_nth j t (nth i W0 [])) W0) W1 b0 b1) x y)
    (nth j (nth i W0 []) 0)
    (2 * (yhat - y) * (nth j (column 0 W1) 0 * gt0 (nth j z0 0) * nth i x 0)).
Proof.
  intros Hi Hj z0 yhat Hz.
  pose proof S0 as [Hlen Hrows].
  assert (Hi' : (i < length W0)%nat) by (rewrite <- Hlen in Hi; exact Hi).
  assert (Hrow : length (nth i W0 []) = hidden).
  { rewrite Forall_forall in Hrows. apply Hrows, nth_In. exact Hi'. }
  assert (Ez : nth j z0 0 = nth j (dot_vm_cols hidden x W0) 0 + nth j b0 0).
  { apply nth_vadd; [rewrite length_dot_vm_cols | rewrite L0]; exact Hj. }
  apply (derivable_pt_lim_ext
           (fun t => (yhat - y
                      + (Rmax (nth j z0 0 + nth i x 0 * (t - nth j (nth i W0 []) 0)) 0
                         - Rmax (nth j z0 0) 0)
                        * nth j (column 0 W1) 0) ^ 2)).
  - intros t. symmetry. apply squared_error_hidden_unit; auto.
    + apply has_shape_set_entry; auto.
    + rewrite dot_vm_cols_set_entry by (auto; rewrite Hrow; exact Hj).
      rewrite vadd_set_nth_l. fold z0. f_equal. rewrite Ez. ring.
  - now apply derivable_square_through_relu.
Qed.

End Derivatives.

Lemma hidden_gradient_entry (hidden : nat) (W1 : mat) (z0 : vec) (gamma : R) (j : nat) :
  has_shape hidden 1 W1 -> (0 < hidden)%nat -> (j < hidden)%nat ->
  nth j (Spec.relu_backward (dot_vm [gamma] (transpose W1)) z0) 0
  = gamma * (nth j (column 0 W1) 0 * gt0 (nth j z0 0)).
Proof.
  intros S1 Hh Hj.
  rewrite nth_relu_backward, (dot_vm_transpose [gamma] S1 Hh Nat.lt_0_1).
  rewrite (nth_dot_mv_column gamma S1 Hj). unfold gt0.
  destruct (Rlt_dec 0 (nth j z0 0)); ring.
Qed.

(** The gradients [update_weight] holds are the derivatives of the
    squared error: for every entry of every weight matrix and bias vector,
    the squared error of the model with that entry set to [t], as a function
    of [t], has at the entry's current value the derivative that
    [update_weight] holds for it, provided no hidden pre-activation is
    exactly zero (where ReLU has no derivative). *)
Lemma backprop_gradients_are_derivatives (n hidden : nat)
    (self : Neural.NeuralRegression) (x_i : vec) (y_i : R) :
  Neural.well_shaped n hidden self ->
  length x_i = n ->
  let z0 := vadd (dot_vm x_i (nth 0 (Neural.weights self) [])) (nth 0 (Neural.biases self) []) in
  (forall j : nat, (j < hidden)%nat -> nth j z0 0 <> 0) ->
  let grad_weights := fst (Neural.gradients self x_i y_i) in
  let grad_biases := snd (Neural.gradients self x_i y_i) in
  (forall k i j : nat,
      (i < length (nth k (Neural.weights self) []))%nat ->
      (j < length (nth i (nth k (Neural.weights self) []) []))%nat ->
      derivable_pt_lim
        (fun t => Spec.squared_error (Neural.set_weight k i j t self) x_i y_i)
        (nth j (nth i (nth k (Neural.weights self) []) []) 0)
        (nth j (nth i (nth k grad_weights []) []) 0)) /\
  (forall k j : nat,
      (j < length (nth k (Neural.biases self) []))%nat ->
      derivable_pt_lim
        (fun t => Spec.squared_error (Neural.set_bias k j t self) x_i y_i)
        (nth j (nth k (Neural.biases self) []) 0)
        (nth j (nth k grad_biases []) 0)).
Proof.
  intros Hs Hx z0 Hz0 grad_weights grad_biases.
  pose proof Hs as (W0 & W1 & b0 & b1 & HW & Hb & S0 & S1 & L0 & L1 & Hn & Hh).
  destruct self as [ws bs]. simpl in HW, Hb. subst ws bs.
  subst grad_weights grad_biases.
  change {| Neural.weights := [W0; W1]; Neural.biases := [b0; b1] |}
    with (Neural.two_layers W0 W1 b0 b1) in *.
  rewrite gradients_two_layers. cbn [fst snd].
  cbn [Neural.two_layers Neural.weights Neural.biases nth] in z0.
  assert (Ez0 : z0 = vadd (dot_vm_cols hidden x_i W0) b0).
  { unfold z0. now rewrite (dot_vm_cols_eq x_i S0 Hn). }
  rewrite (dot_vm_cols_eq x_i S0 Hn). fold z0 in Ez0 |- *.
  clearbody z0. subst z0.
  set (z0 := vadd (dot_vm_cols hidden x_i W0) b0) in *.
  set (h0 := maximum0 z0).
  assert (Eyhat : vadd (dot_vm h0 W1) b1 = [dot_vv h0 (column 0 W1) + nth 0 b1 0]).
  { rewrite (dot_vm_cols_eq _ S1 Hh).
    destruct b1 as [|beta [|? ?]]; try discriminate. reflexivity. }
  rewrite Eyhat. set (yhat := dot_vv h0 (column 0 W1) + nth 0 b1 0).
  cbn [scale vsub_scalar map].
  split.
  - intros [|[|k]] i j Hi Hj;
      cbn [Neural.two_layers Neural.weights Neural.biases nth] in Hi, Hj.
    + cbn [nth] in *.
      assert (Hi' : (i < n)%nat) by (rewrite <- (proj1 S0); exact Hi).
      assert (Hj' : (j < hidden)%nat).
      { pose proof S0 as [_ Hrows]. rewrite Forall_forall in Hrows.
        rewrite <- (Hrows (nth i W0 [])); [exact Hj | now apply nth_In]. }
      rewrite nth_outer by (rewrite Hx; exact Hi').
      rewrite (hidden_gradient_entry z0 (2 * (yhat - y_i)) S1 Hh Hj').
      replace (nth i x_i 0 * (2 * (yhat - y_i) * (nth j (column 0 W1) 0 * gt0 (nth j z0 0))))
        with (2 * (yhat - y_i) * (nth j (column 0 W1) 0 * gt0 (nth j z0 0) * nth i x_i 0))
        by ring.
      apply (derivative_hidden_weight (n := n) (hidden := hidden)); auto.
    + cbn [nth] in *.
      assert (Hi' : (i < hidden)%nat) by (rewrite <- (proj1 S1); exact Hi).
      assert (Hj' : j = 0%nat).
      { pose proof S1 as [_ Hrows]. rewrite Forall_forall in Hrows.
        assert (Hr : length (nth i W1 []) = 1%nat) by (apply Hrows; now apply nth_In).
        unfold vec, mat in *. lia. }
      subst j.
      rewrite nth_outer by (unfold h0; rewrite length_maximum0;
                            unfold z0; rewrite (length_hidden_pre_activation); auto).
      cbn [nth].
      replace (nth i h0 0 * (2 * (yhat - y_i))) with (2 * (yhat - y_i) * nth i h0 0) by ring.
      apply (derivative_output_weight (n := n) (hidden := hidden)); auto.
    + exfalso. cbn [nth] in Hi. destruct k; simpl in Hi; lia.
  - intros [|[|k]] j Hj;
      cbn [Neural.two_layers Neural.weights Neural.biases nth] in Hj.
    + cbn [nth] in *. rewrite L0 in Hj.
      rewrite (hidden_gradient_entry z0 (2 * (yhat - y_i)) S1 Hh Hj).
      apply (derivative_hidden_bias (n := n) (hidden := hidden)); auto.
    + cbn [nth] in *. rewrite L1 in Hj. assert (j = 0%nat) by lia. subst j.
      cbn [nth].
      apply (derivative_output_bias (n := n) (hidden := hidden)); auto.
    + exfalso. cbn [nth] in Hj. destruct k; simpl in Hj; lia.
Qed.

(** ** NeuralRegression.update_weight: the step and its gradient *)

(** C1: on a well-shaped two-layer model, for every example and learning
    rate, [update_weight] replaces each weight matrix and bias vector by its
    value before the call minus [learning_rate] times its gradient, all
    gradients being computed from the parameters before the call.  The
    gradients are those of the sweep from the output to the input:
    [2 * (yhat - y_i)] at the output; for each layer the outer product of
    the layer's input and the incoming gradient for the weights and the
    incoming gradient itself for the bias; the gradient passes to the hidden
    layer through the transposed [W1] and the derivative of ReLU.  They are
    the exact gradient of the squared error [(yhat - y_i)^2]: wherever no
    hidden pre-activation is exactly zero, each entry is the derivative of
    the squared error with respect to that entry of the parameters. *)
Theorem neural_update_weight_exact_gradient (n hidden : nat)
    (self : Neural.NeuralRegression) (x_i : vec) (y_i lr : R) :
  Neural.well_shaped n hidden self ->
  length x_i = n ->
  let W0 := nth 0 (Neural.weights self) [] in
  let W1 := nth 1 (Neural.weights self) [] in
  let b0 := nth 0 (Neural.biases self) [] in
  let b1 := nth 1 (Neural.biases self) [] in
  let z0 := vadd (dot_vm x_i W0) b0 in
  let h0 := maximum0 z0 in
  let yhat := vadd (dot_vm h0 W1) b1 in
  let grad_z1 := scale 2 (vsub_scalar yhat y_i) in
  let grad_h0 := dot_vm grad_z1 (transpose W1) in
  let grad_z0 := Spec.relu_backward grad_h0 z0 in
  let grad_weights := [Spec.outer x_i grad_z0; Spec.outer h0 grad_z1] in
  let grad_biases := [grad_z0; grad_z1] in
  let self' :=
    {| Neural.weights := [msub W0 (mscale lr (nth 0 grad_weights []));
                          msub W1 (mscale lr (nth 1 grad_weights []))];
       Neural.biases := [vsub b0 (scale lr (nth 0 grad_biases []));
                         vsub b1 (scale lr (nth 1 grad_biases []))] |} in
  Neural.update_weight x_i y_i lr self = ((Neural.weights self', Neural.biases self'), self') /\
  Neural.gradients self x_i y_i = (grad_weights, grad_biases) /\
  ((forall j : nat, (j < hidden)%nat -> nth j z0 0 <> 0) ->
   (forall k i j : nat,
       (i < length (nth k (Neural.weights self) []))%nat ->
       (j < length (nth i (nth k (Neural.weights self) []) []))%nat ->
       derivable_pt_lim
         (fun t => Spec.squared_error (Neural.set_weight k i j t self) x_i y_i)
         (nth j (nth i (nth k (Neural.weights self) []) []) 0)
         (nth j (nth i (nth k grad_weights []) []) 0)) /\
   (forall k j : nat,
       (j < length (nth k (Neural.biases self) []))%nat ->
       derivable_pt_lim
         (fun t => Spec.squared_error (Neural.set_bias k j t self) x_i y_i)
         (nth j (nth k (Neural.biases self) []) 0)
         (nth j (nth k grad_biases []) 0))).
Proof.
  intros Hs Hx W0 W1 b0 b1 z0 h0 yhat grad_z1 grad_h0 grad_z0 grad_weights grad_biases self'.
  assert (Hgrads : Neural.gradients self x_i y_i = (grad_weights, grad_biases)).
  { destruct (well_shaped_inv Hs) as (W0' & W1' & b0' & b1' & E & _).
    subst self. apply gradients_two_layers. }
  split; [|split].
  - exact (@neural_update_weight_sgd_step n hidden self x_i y_i lr Hs Hx).
  - exact Hgrads.
  - intros Hz0.
    pose proof (@backprop_gradients_are_derivatives n hidden self x_i y_i Hs Hx Hz0) as H.
    cbv zeta in H. rewrite Hgrads in H. exact H.
Qed.

Lemma neural_update_weight_exact_gradient_witness :
  let self := Neural.init [[1]; [1]] [[2]] 1 in
  (exists self', Neural.update_weight [1; 2] 5 (1 / 10) self
                 = ((Neural.weights self', Neural.biases self'), self')) /\
  exists slope : R,
    derivable_pt_lim
      (fun t => Spec.squared_error (Neural.set_weight 0 1 0 t self) [1; 2] 5) 1 slope.
Proof.
  intros self.
  assert (Hs : Neural.well_shaped 2 1 self).
  { exists [[1]; [1]], [[2]], [0], [0]. unfold has_shape. simpl.
    repeat split; auto; try lia; repeat constructor. }
  destruct (@neural_update_weight_exact_gradient 2 1 self [1; 2] 5 (1 / 10) Hs eq_refl)
    as (Hstep & _ & Hderiv).
  split.
  - eexists. exact Hstep.
  - eexists. apply (proj1 (Hderiv
      ltac:(intros j Hj; assert (j = 0%nat) by lia; subst j; np_compute;
            unfold Rmax; repeat destruct (Rle_dec _ _); lra)) 0%nat 1%nat 0%nat);
      simpl; lia.
Defined.

(** * Further properties *)

(** ** The linear model *)

Lemma linear_predict1_value (x : vec) (self : Linear.LinearRegression) :
  fst (Linear.predict1 x self) = dot_vv x (Linear.w self).
Proof. reflexivity. Qed.

Lemma dot_vv_linear_step (x w : vec) (c : R) :
  length x = length w ->
  dot_vv x (zip_with (fun w_j x_j => w_j - c * x_j) w x) = dot_vv x w - c * dot_vv x x.
Proof.
  revert w; induction x as [|a x IH]; intros [|b w] Hlen; simpl in *; try discriminate.
  - unfold dot_vv; simpl; ring.
  - rewrite !dot_vv_cons, IH by congruence. ring.
Qed.

Lemma linear_update_weight_value (self : Linear.LinearRegression) (x_i : vec) (y_i lr : R) :
  Linear.update_weight x_i y_i lr self
  = (zip_with (fun w_j x_j => w_j - lr * (2 * (dot_vv x_i (Linear.w self) - y_i)) * x_j)
              (Linear.w self) x_i,
     {| Linear.w :=
          zip_with (fun w_j x_j => w_j - lr * (2 * (dot_vv x_i (Linear.w self) - y_i)) * x_j)
                   (Linear.w self) x_i |}).
Proof.
  unfold Linear.update_weight, Linear.predict1, bind, get, put, ret. simpl.
  assert (E : vsub (Linear.w self) (scale lr (dot_sv (2 * (dot_vv x_i (Linear.w self) - y_i)) x_i))
              = zip_with (fun w_j x_j => w_j - lr * (2 * (dot_vv x_i (Linear.w self) - y_i)) * x_j)
                         (Linear.w self) x_i).
  { unfold vsub, dot_sv, scale. rewrite map_map, zip_with_map_r.
    apply zip_with_ext. intros; ring. }
  now rewrite E.
Qed.

Lemma linear_residual_after_update (self : Linear.LinearRegression) (x_i : vec) (y_i lr : R) :
  length x_i = length (Linear.w self) ->
  dot_vv x_i (Linear.w (snd (Linear.update_weight x_i y_i lr self))) - y_i
  = (1 - 2 * lr * dot_vv x_i x_i) * (dot_vv x_i (Linear.w self) - y_i).
Proof.
  intros Hlen. rewrite linear_update_weight_value. cbn [snd Linear.w].
  rewrite dot_vv_linear_step by exact Hlen. ring.
Qed.

Lemma length_linear_update (self : Linear.LinearRegression) (x_i : vec) (y_i lr : R) :
  length x_i = length (Linear.w self) ->
  length (Linear.w (snd (Linear.update_weight x_i y_i lr self))) = length (Linear.w self).
Proof.
  intros Hlen. rewrite linear_update_weight_value. cbn [snd Linear.w].
  rewrite zip_with_length. lia.
Qed.

(** X1: a step of the linear model on [(x_i, y_i)], with [x_i] as long as
    [w], multiplies the residual [predict(x_i) - y_i] of that example by
    [1 - 2 * learning_rate * dot(x_i, x_i)]; so the squared error of the
    example does not grow when [0 <= learning_rate * dot(x_i, x_i) <= 1]. *)
Theorem linear_update_contracts_residual (self : Linear.LinearRegression)
    (x_i : vec) (y_i lr : R) :
  length x_i = length (Linear.w self) ->
  let self' := snd (Linear.update_weight x_i y_i lr self) in
  let residual := fst (Linear.predict1 x_i self) - y_i in
  let residual' := fst (Linear.predict1 x_i self') - y_i in
  residual' = (1 - 2 * lr * dot_vv x_i x_i) * residual /\
  (0 <= lr * dot_vv x_i x_i <= 1 -> residual' ^ 2 <= residual ^ 2).
Proof.
  intros Hlen self' residual residual'.
  assert (E : residual' = (1 - 2 * lr * dot_vv x_i x_i) * residual).
  { unfold residual', residual, self'. rewrite !linear_predict1_value.
    now apply linear_residual_after_update. }
  split; [exact E|].
  intros Hlr. rewrite E.
  set (a := lr * dot_vv x_i x_i) in *.
  replace (1 - 2 * lr * dot_vv x_i x_i) with (1 - 2 * a) by (unfold a; ring).
  assert (H1 : (1 - 2 * a) ^ 2 <= 1) by nra.
  pose proof (pow2_ge_0 residual) as H2.
  replace (((1 - 2 * a) * residual) ^ 2) with ((1 - 2 * a) ^ 2 * residual ^ 2) by ring.
  nra.
Qed.

Lemma train_epoch_nil (M : Type) (model : RegressionModel M) (kw : kwargs) (s : M) :
  train_epoch [] [] kw s = (tt, s).
Proof. reflexivity. Qed.

Lemma train_epoch_cons (M : Type) (model : RegressionModel M) (x : vec) (X : mat)
    (y : R) (Y : vec) (kw : kwargs) (s : M) :
  train_epoch (x :: X) (y :: Y) kw s = train_epoch X Y kw (snd (update_weight x y kw s)).
Proof.
  unfold train_epoch. simpl. unfold bind. destruct (update_weight x y kw s). reflexivity.
Qed.

(** X2: an epoch over [k] copies of one example multiplies its residual by
    [(1 - 2 * learning_rate * dot(x, x)) ^ k]. *)
Theorem linear_repeated_example_residual (self : Linear.LinearRegression)
    (x : vec) (y lr : R) (k : nat) :
  length x = length (Linear.w self) ->
  let kw := {| kw_learning_rate := Some lr |} in
  let self' := snd (train_epoch (repeat x k) (repeat y k) kw self) in
  fst (Linear.predict1 x self') - y
  = (1 - 2 * lr * dot_vv x x) ^ k * (fst (Linear.predict1 x self) - y).
Proof.
  intros Hlen kw self'. unfold self'. clear self'.
  revert self Hlen. induction k as [|k IH]; intros self Hlen.
  - simpl. ring.
  - cbn [repeat]. rewrite train_epoch_cons.
    cbn [update_weight Linear_model learning_rate_of kw kw_learning_rate].
    rewrite IH by (now rewrite length_linear_update).
    rewrite !linear_predict1_value.
    rewrite linear_residual_after_update by exact Hlen. simpl. ring.
Qed.

(** X3: the vector [np.dot(grad_loss, x_i)] that the linear step
    subtracts, times the learning rate, is the gradient of the squared
    error of the example: its entry [j] is the derivative of
    [(dot(x_i, w) - y_i) ^ 2] in [w[j]], at the weights before the step. *)
Theorem linear_gradient_is_derivative (self : Linear.LinearRegression)
    (x_i : vec) (y_i : R) (j : nat) :
  length x_i = length (Linear.w self) ->
  (j < length (Linear.w self))%nat ->
  let w := Linear.w self in
  let grad := dot_sv (2 * (fst (Linear.predict1 x_i self) - y_i)) x_i in
  derivable_pt_lim
    (fun t => (fst (Linear.predict1 x_i {| Linear.w := set_nth j t w |}) - y_i) ^ 2)
    (nth j w 0) (nth j grad 0).
Proof.
  intros Hlen Hj w grad. unfold grad, dot_sv, scale.
  rewrite linear_predict1_value. fold w. rewrite nth_scale.
  apply (derivable_pt_lim_ext
           (fun t => (dot_vv x_i w - y_i + nth j x_i 0 * (t - nth j w 0)) ^ 2)).
  - intros t. rewrite linear_predict1_value. cbn [Linear.w].
    rewrite dot_vv_set_nth_r by exact Hj. f_equal. ring.
  - apply derivable_square_affine.
Qed.

Lemma zip_with_unchanged (w x : vec) (c : R) :
  length x = length w -> c = 0 ->
  zip_with (fun w_j x_j => w_j - c * x_j) w x = w.
Proof.
  intros Hlen ->. revert x Hlen; induction w as [|a w IH]; intros [|b x] Hlen;
    simpl in *; try discriminate; auto.
  rewrite IH by congruence. f_equal. ring.
Qed.

Lemma linear_update_fixed (self : Linear.LinearRegression) (x_i : vec) (y_i lr : R) :
  length x_i = length (Linear.w self) ->
  dot_vv x_i (Linear.w self) = y_i ->
  snd (Linear.update_weight x_i y_i lr self) = self.
Proof.
  intros Hlen Hfit. rewrite linear_update_weight_value. cbn [snd].
  rewrite zip_with_unchanged; [now destruct self | exact Hlen | rewrite Hfit; ring].
Qed.

Lemma linear_epoch_fixed (self : Linear.LinearRegression)
    (X : mat) (y : vec) (kw : kwargs) :
  Forall (fun r => length r = length (Linear.w self)) X ->
  fst (Linear.predict X self) = y ->
  train_epoch X y kw self = (tt, self).
Proof.
  intros HX Hfit.
  change (fst (Linear.predict X self)) with (dot_mv X (Linear.w self)) in Hfit. subst y.
  induction HX as [|x X Hx HX IH].
  - reflexivity.
  - unfold dot_mv. cbn [map]. rewrite train_epoch_cons.
    cbn [update_weight Linear_model].
    rewrite linear_update_fixed by auto. exact IH.
Qed.

(** X4: an example the linear model already predicts exactly changes
    nothing, and a linear model that predicts every training target exactly
    is left as it is by an epoch. *)
Theorem linear_exact_fit_is_fixed (self : Linear.LinearRegression) :
  (forall (x_i : vec) (y_i lr : R),
      length x_i = length (Linear.w self) ->
      fst (Linear.predict1 x_i self) = y_i ->
      snd (Linear.update_weight x_i y_i lr self) = self) /\
  (forall (X : mat) (y : vec) (kw : kwargs),
      Forall (fun r => length r = length (Linear.w self)) X ->
      fst (Linear.predict X self) = y ->
      train_epoch X y kw self = (tt, self)).
Proof.
  split.
  - intros x_i y_i lr Hlen Hfit. now apply linear_update_fixed.
  - intros X y kw HX Hfit. now apply linear_epoch_fixed.
Qed.

(** ** train_epoch *)

Lemma combine_firstn_min {A B : Type} (u : list A) (v : list B) :
  combine u v
  = combine (firstn (Nat.min (length u) (length v)) u)
            (firstn (Nat.min (length u) (length v)) v).
Proof.
  revert v; induction u as [|a u IH]; intros [|b v]; simpl; auto.
  now rewrite <- IH.
Qed.

(** X5: [train_epoch] stops at the shorter of [X] and [y]: the surplus rows
    or targets are never used, and nothing is raised. *)
Theorem train_epoch_ignores_surplus (M : Type) (model : RegressionModel M)
    (X : mat) (y : vec) (kw : kwargs) (s : M) :
  let m := Nat.min (length X) (length y) in
  train_epoch X y kw s = train_epoch (firstn m X) (firstn m y) kw s.
Proof.
  intros m. unfold train_epoch, m. now rewrite <- combine_firstn_min.
Qed.

Lemma combine_app_eq {A B : Type} (u1 u2 : list A) (v1 v2 : list B) :
  length u1 = length v1 ->
  combine (u1 ++ u2) (v1 ++ v2) = combine u1 v1 ++ combine u2 v2.
Proof.
  revert v1; induction u1 as [|a u1 IH]; intros [|b v1] Hlen; simpl in *;
    try discriminate; auto.
  now rewrite IH by congruence.
Qed.

Lemma for_each_app {S A B : Type} (body : A -> State S B) (l1 l2 : list A) (s : S) :
  for_each (l1 ++ l2) body s = for_each l2 body (snd (for_each l1 body s)).
Proof.
  rewrite !for_each_fold, fold_left_app. reflexivity.
Qed.

(** X6: an epoch over two datasets put end to end is the epoch over the
    first followed by the epoch over the second, the second starting from
    the model the first one left. *)
Theorem train_epoch_app (M : Type) (model : RegressionModel M)
    (X1 X2 : mat) (y1 y2 : vec) (kw : kwargs) (s : M) :
  length X1 = length y1 ->
  train_epoch (X1 ++ X2) (y1 ++ y2) kw s
  = train_epoch X2 y2 kw (snd (train_epoch X1 y1 kw s)).
Proof.
  intros Hlen. unfold train_epoch.
  rewrite combine_app_eq by exact Hlen. apply for_each_app.
Qed.

(** ** evaluate and distance *)

Lemma vsub_eq_of_norm_zero (u v : vec) :
  length u = length v -> dot_vv (vsub u v) (vsub u v) = 0 -> u = v.
Proof.
  intros Hlen H. apply dot_vv_self_zero in H. apply vsub_zero_eq; [exact Hlen|].
  rewrite H. f_equal. unfold vsub. rewrite !zip_with_length. lia.
Qed.

(** X7: the value of [evaluate] is never negative, and on a non-empty
    dataset it is zero only when every prediction equals its target. *)
Theorem evaluate_zero_only_when_exact (M : Type) (model : RegressionModel M)
    (X : mat) (y : vec) (s : M) :
  y <> [] ->
  length (fst (predict X s)) = length y ->
  0 <= fst (evaluate X y s) /\
  (fst (evaluate X y s) = 0 -> fst (predict X s) = y).
Proof.
  intros Hy Hlen. rewrite evaluate_value. split; [apply sqrt_pos|].
  intros H0.
  assert (Hn : 0 < INR (length y)).
  { apply lt_0_INR. destruct y; [congruence | simpl; lia]. }
  set (S := dot_vv (vsub (fst (predict X s)) y) (vsub (fst (predict X s)) y)) in *.
  assert (HS : 0 <= S) by apply dot_vv_self_nonneg.
  assert (Hq : 0 <= S / INR (length y)).
  { apply Rmult_le_pos; [exact HS|]. left. now apply Rinv_0_lt_compat. }
  apply sqrt_eq_0 in H0; [|exact Hq].
  assert (HS0 : S = 0).
  { unfold Rdiv in H0. apply Rmult_integral in H0 as [H0|H0]; [exact H0|].
    pose proof (Rinv_0_lt_compat _ Hn). lra. }
  now apply vsub_eq_of_norm_zero.
Qed.

Lemma dot_vv_vsub_swap (a b : vec) :
  dot_vv (vsub a b) (vsub a b) = dot_vv (vsub b a) (vsub b a).
Proof.
  unfold vsub. revert b; induction a as [|x a IH]; intros [|y b]; simpl; auto.
  rewrite !dot_vv_cons, IH. ring.
Qed.

(** X8: [distance] is never negative, does not depend on the order of its
    two arguments, and for vectors of one length is zero exactly when they
    are equal. *)
Theorem distance_separates (a b : vec) :
  length a = length b ->
  0 <= Main.distance a b /\
  Main.distance a b = Main.distance b a /\
  (Main.distance a b = 0 <-> a = b).
Proof.
  intros Hlen. unfold Main.distance, norm. split; [apply sqrt_pos|]. split.
  - now rewrite dot_vv_vsub_swap.
  - split.
    + intros H0. apply sqrt_eq_0 in H0; [|apply dot_vv_self_nonneg].
      now apply vsub_eq_of_norm_zero.
    + intros ->. rewrite vsub_diag, dot_vv_zeros_l. apply sqrt_0.
Qed.

Lemma le_of_squares (p q : R) : 0 <= q -> p ^ 2 <= q ^ 2 -> p <= q.
Proof.
  intros Hq Hsq. apply Rnot_lt_le. intros Hlt. nra.
Qed.

Lemma cauchy_schwarz (u v : vec) : dot_vv u v ^ 2 <= dot_vv u u * dot_vv v v.
Proof.
  revert v; induction u as [|a u IH]; intros [|b v].
  - unfold dot_vv; simpl; lra.
  - pose proof (dot_vv_self_nonneg (b :: v)). unfold dot_vv at 1 2; simpl. nra.
  - pose proof (dot_vv_self_nonneg (a :: u)). unfold dot_vv at 1 3; simpl. nra.
  - rewrite !dot_vv_cons. specialize (IH v).
    pose proof (dot_vv_self_nonneg u) as HA. pose proof (dot_vv_self_nonneg v) as HB.
    set (S := dot_vv u v) in *. set (A := dot_vv u u) in *. set (B := dot_vv v v) in *.
    assert (Hcross : 2 * (a * b * S) <= a * a * B + b * b * A).
    { apply le_of_squares; [nra|].
      assert (H1 : 0 <= (a * a * B - b * b * A) ^ 2) by apply pow2_ge_0.
      assert (H2 : 0 <= a * a * (b * b) * (A * B - S ^ 2)).
      { apply Rmult_le_pos; [nra | lra]. }
      nra. }
    nra.
Qed.

Lemma vadd_vsub_chain (a b c : vec) :
  length a = length b -> length b = length c ->
  vsub a c = vadd (vsub a b) (vsub b c).
Proof.
  unfold vsub, vadd. revert b c; induction a as [|x a IH]; intros [|y b] [|z c] H1 H2;
    simpl in *; try discriminate; auto.
  rewrite (IH b c) by congruence. f_equal. ring.
Qed.

Lemma dot_vv_vadd_self (u v : vec) :
  length u = length v ->
  dot_vv (vadd u v) (vadd u v) = dot_vv u u + 2 * dot_vv u v + dot_vv v v.
Proof.
  unfold vadd. revert v; induction u as [|a u IH]; intros [|b v] Hlen;
    simpl in *; try discriminate.
  - unfold dot_vv; simpl; ring.
  - rewrite !dot_vv_cons, IH by congruence. ring.
Qed.

(** X9: [distance] obeys the triangle inequality on vectors of one length. *)
Theorem distance_triangle (a b c : vec) :
  length a = length b -> length b = length c ->
  Main.distance a c <= Main.distance a b + Main.distance b c.
Proof.
  intros H1 H2. unfold Main.distance, norm.
  rewrite (vadd_vsub_chain a b c H1 H2).
  set (u := vsub a b). set (v := vsub b c).
  assert (Huv : length u = length v).
  { unfold u, v, vsub. rewrite !zip_with_length. lia. }
  rewrite (dot_vv_vadd_self u v Huv).
  pose proof (dot_vv_self_nonneg u) as HA. pose proof (dot_vv_self_nonneg v) as HB.
  pose proof (cauchy_schwarz u v) as HCS.
  set (A := dot_vv u u) in *. set (B := dot_vv v v) in *. set (S := dot_vv u v) in *.
  pose proof (sqrt_pos A) as HsA. pose proof (sqrt_pos B) as HsB.
  pose proof (sqrt_sqrt A HA) as EA. pose proof (sqrt_sqrt B HB) as EB.
  assert (HS : S <= sqrt A * sqrt B).
  { apply le_of_squares; [nra|].
    replace ((sqrt A * sqrt B) ^ 2) with ((sqrt A * sqrt A) * (sqrt B * sqrt B)) by ring.
    now rewrite EA, EB. }
  destruct (Rle_dec 0 (A + 2 * S + B)) as [Hnn|Hneg].
  - rewrite <- (sqrt_square (sqrt A + sqrt B)) by lra.
    apply sqrt_le_1; [exact Hnn | nra | nra].
  - assert (E0 : sqrt (A + 2 * S + B) = 0) by (apply sqrt_neg_0; lra).
    rewrite E0. lra.
Qed.

(** ** The network *)

Lemma neural_update_two_layers (W0 W1 : mat) (b0 b1 x_i : vec) (y_i lr : R) :
  let z0 := vadd (dot_vm x_i W0) b0 in
  let h0 := maximum0 z0 in
  let yhat := vadd (dot_vm h0 W1) b1 in
  let grad_z1 := scale 2 (vsub_scalar yhat y_i) in
  let grad_z0 := Spec.relu_backward (dot_vm grad_z1 (transpose W1)) z0 in
  snd (Neural.update_weight x_i y_i lr (Neural.two_layers W0 W1 b0 b1))
  = Neural.two_layers (msub W0 (mscale lr (Spec.outer x_i grad_z0)))
                      (msub W1 (mscale lr (Spec.outer h0 grad_z1)))
                      (vsub b0 (scale lr grad_z0))
                      (vsub b1 (scale lr grad_z1)).
Proof.
  cbv zeta. unfold Neural.update_weight, bind, get, put, ret. cbv beta iota.
  rewrite forward_two_layers, backward_two_layers. simpl rev. simpl length.
  rewrite update_two_layers, !dot_outer, relu_mask. reflexivity.
Qed.

Lemma has_shape_outer (u v : vec) : has_shape (length u) (length v) (Spec.outer u v).
Proof.
  unfold Spec.outer. split; [apply length_map|].
  apply Forall_forall. intros r Hr. apply in_map_iff in Hr as (a & <- & _). apply length_map.
Qed.

Lemma has_shape_mscale (n m : nat) (c : R) (A : mat) :
  has_shape n m A -> has_shape n m (mscale c A).
Proof.
  intros [Hlen Hrows]. unfold mscale. split; [now rewrite length_map|].
  apply Forall_forall. intros r Hr. apply in_map_iff in Hr as (a & <- & Ha).
  unfold scale. rewrite length_map. rewrite Forall_forall in Hrows. now apply Hrows.
Qed.

Lemma has_shape_msub (n m : nat) (A B : mat) :
  has_shape n m A -> has_shape n m B -> has_shape n m (msub A B).
Proof.
  intros [HlA HrA] [HlB HrB]. unfold msub. split.
  - rewrite zip_with_length. unfold vec, mat in *. rewrite HlA, HlB. apply Nat.min_id.
  - clear HlA HlB. revert B HrB.
    induction HrA as [|a A' Ha HrA' IH]; intros [|b B'] HrB; simpl; auto.
    pose proof (Forall_inv HrB) as Hb. pose proof (Forall_inv_tail HrB) as HrB'.
    cbv beta in Hb. constructor; [|now apply IH].
    unfold vsub. rewrite zip_with_length, Ha, Hb. apply Nat.min_id.
Qed.

Lemma length_relu_backward (g z : vec) :
  length (Spec.relu_backward g z) = Nat.min (length g) (length z).
Proof. unfold Spec.relu_backward. apply zip_with_length. Qed.

Section NetworkShapes.

Variables (n hidden : nat) (W0 W1 : mat) (b0 b1 x_i : vec).

Hypothesis S0 : has_shape n hidden W0.
Hypothesis S1 : has_shape hidden 1 W1.
Hypothesis L0 : length b0 = hidden.
Hypothesis L1 : length b1 = 1%nat.
Hypothesis Hn : (0 < n)%nat.
Hypothesis Hh : (0 < hidden)%nat.
Hypothesis Hx : length x_i = n.

Lemma length_z0 : length (vadd (dot_vm x_i W0) b0) = hidden.
Proof.
  unfold vadd. rewrite zip_with_length, length_dot_vm, (ncols_has_shape S0 Hn), L0.
  apply Nat.min_id.
Qed.

Lemma length_grad_z1 (h : vec) (y_i : R) :
  length (scale 2 (vsub_scalar (vadd (dot_vm h W1) b1) y_i)) = 1%nat.
Proof.
  unfold scale, vsub_scalar. rewrite !length_map.
  apply length_output_row; [apply (ncols_has_shape S1 Hh) | exact L1].
Qed.

Lemma length_grad_z0 (g : vec) :
  length (Spec.relu_backward (dot_vm g (transpose W1)) (vadd (dot_vm x_i W0) b0)) = hidden.
Proof.
  rewrite length_relu_backward, length_z0.
  rewrite (dot_vm_transpose g S1 Hh Nat.lt_0_1), length_dot_mv, (proj1 S1).
  apply Nat.min_id.
Qed.

Lemma update_keeps_two_layer_shapes (y_i lr : R) :
  Neural.well_shaped n hidden
    (snd (Neural.update_weight x_i y_i lr (Neural.two_layers W0 W1 b0 b1))).
Proof.
  rewrite neural_update_two_layers.
  set (z0 := vadd (dot_vm x_i W0) b0). set (h0 := maximum0 z0).
  set (g1 := scale 2 (vsub_scalar (vadd (dot_vm h0 W1) b1) y_i)).
  set (g0 := Spec.relu_backward (dot_vm g1 (transpose W1)) z0).
  assert (Hg1 : length g1 = 1%nat) by apply length_grad_z1.
  assert (Hg0 : length g0 = hidden) by apply length_grad_z0.
  assert (Hh0 : length h0 = hidden).
  { unfold h0. rewrite length_maximum0. apply length_z0. }
  eexists _, _, _, _. split; [reflexivity|]. split; [reflexivity|].
  split; [|split; [|split; [|split; [|split; assumption]]]].
  - apply has_shape_msub; [exact S0|]. apply has_shape_mscale.
    rewrite <- Hx, <- Hg0. apply has_shape_outer.
  - apply has_shape_msub; [exact S1|]. apply has_shape_mscale.
    rewrite <- Hh0, <- Hg1. apply has_shape_outer.
  - unfold vsub, scale. rewrite zip_with_length, length_map, L0, Hg0. apply Nat.min_id.
  - unfold vsub, scale. rewrite zip_with_length, length_map, L1, Hg1. reflexivity.
Qed.

End NetworkShapes.

Lemma well_shaped_two_layers (n hidden : nat) (self : Neural.NeuralRegression) :
  Neural.well_shaped n hidden self ->
  exists W0 W1 b0 b1,
    self = Neural.two_layers W0 W1 b0 b1 /\
    has_shape n hidden W0 /\ has_shape hidden 1 W1 /\
    length b0 = hidden /\ length b1 = 1%nat /\ (0 < n)%nat /\ (0 < hidden)%nat.
Proof.
  intros (W0 & W1 & b0 & b1 & HW & Hb & S0 & S1 & L0 & L1 & Hn & Hh).
  exists W0, W1, b0, b1. destruct self as [ws bs]; simpl in *; subst.
  repeat split; auto; apply S0 || apply S1.
Qed.

Lemma neural_update_keeps_shapes (n hidden : nat) (self : Neural.NeuralRegression)
    (x_i : vec) (y_i lr : R) :
  Neural.well_shaped n hidden self ->
  length x_i = n ->
  Neural.well_shaped n hidden (snd (Neural.update_weight x_i y_i lr self)).
Proof.
  intros Hs Hx.
  destruct (well_shaped_two_layers Hs) as (W0 & W1 & b0 & b1 & -> & S0 & S1 & L0 & L1 & Hn & Hh).
  now apply update_keeps_two_layer_shapes.
Qed.

(** X10: the shapes of the network never change: a network built by
    [__init__] from samples of the shapes it asks for has them, and an epoch
    over rows of [n] features leaves a network with them a network with
    them. *)
Theorem neural_training_keeps_shapes (n hidden : nat) :
  (forall W0 W1 : mat,
      has_shape n hidden W0 -> has_shape hidden 1 W1 ->
      (0 < n)%nat -> (0 < hidden)%nat ->
      Neural.well_shaped n hidden (Neural.init W0 W1 hidden)) /\
  (forall (self : Neural.NeuralRegression) (X : mat) (y : vec) (kw : kwargs),
      Neural.well_shaped n hidden self ->
      Forall (fun r => length r = n) X ->
      Neural.well_shaped n hidden (snd (train_epoch X y kw self))).
Proof.
  split.
  - intros W0 W1 S0 S1 Hn Hh. exists W0, W1, (zeros hidden), (zeros 1).
    unfold zeros. rewrite !repeat_length. repeat split; auto; apply S0 || apply S1.
  - intros self X y kw Hs HX. revert y self Hs.
    induction HX as [|x X Hx HX IH]; intros [|y0 y] self Hs; try exact Hs.
    rewrite train_epoch_cons. apply IH.
    cbn [update_weight Neural_model]. now apply neural_update_keeps_shapes.
Qed.

(** X11: the length of the weight vector of the linear model never changes
    in an epoch over rows of that length. *)
Theorem linear_training_keeps_length (self : Linear.LinearRegression)
    (X : mat) (y : vec) (kw : kwargs) :
  Forall (fun r => length r = length (Linear.w self)) X ->
  length (Linear.w (snd (train_epoch X y kw self))) = length (Linear.w self).
Proof.
  intros HX. revert y self HX.
  induction X as [|x X IH]; intros [|y0 y] self HX; try reflexivity.
  rewrite train_epoch_cons. cbn [update_weight Linear_model].
  pose proof (Forall_inv HX) as Hx. pose proof (Forall_inv_tail HX) as HX'. cbv beta in Hx.
  assert (Hl := @length_linear_update self x y0 (learning_rate_of kw) Hx).
  rewrite IH; [exact Hl|].
  eapply Forall_impl; [|exact HX']. intros r Hr. cbv beta.
  rewrite Hr. symmetry. exact Hl.
Qed.

(** ** Steps that change nothing *)

Lemma scale_zeros (c : R) (m : nat) : scale c (zeros m) = zeros m.
Proof.
  unfold scale, zeros. induction m as [|m IH]; simpl; [reflexivity|].
  rewrite IH. f_equal. ring.
Qed.

Lemma vsub_zeros (b : vec) : vsub b (zeros (length b)) = b.
Proof.
  unfold vsub, zeros. induction b as [|a b IH]; simpl; [reflexivity|].
  rewrite IH. f_equal. ring.
Qed.

Lemma outer_zeros (u : vec) (m : nat) : Spec.outer u (zeros m) = repeat (zeros m) (length u).
Proof.
  unfold Spec.outer. induction u as [|a u IH]; simpl; [reflexivity|].
  rewrite IH. f_equal. apply (scale_zeros a m).
Qed.

Lemma mscale_zero_matrix (c : R) (m k : nat) :
  mscale c (repeat (zeros m) k) = repeat (zeros m) k.
Proof.
  unfold mscale. induction k as [|k IH]; simpl; [reflexivity|].
  now rewrite IH, scale_zeros.
Qed.

Lemma msub_zero_matrix (k m : nat) (A : mat) :
  has_shape k m A -> msub A (repeat (zeros m) k) = A.
Proof.
  intros [Hlen Hrows]. unfold msub. revert k Hlen.
  induction Hrows as [|r A' Hr Hrows IH]; intros [|k] Hlen; simpl in *;
    try discriminate; auto.
  rewrite (IH k) by congruence. f_equal. rewrite <- Hr. apply vsub_zeros.
Qed.

Lemma dot_mv_zeros (A : mat) (m : nat) : dot_mv A (zeros m) = zeros (length A).
Proof.
  unfold dot_mv, zeros at 2. induction A as [|r A IH]; simpl; [reflexivity|].
  now rewrite IH, dot_vv_comm, dot_vv_zeros_l.
Qed.

Lemma relu_backward_zeros (m : nat) (z : vec) :
  Spec.relu_backward (zeros m) z = zeros (Nat.min m (length z)).
Proof.
  unfold Spec.relu_backward, zeros. revert z; induction m as [|m IH]; intros [|a z];
    simpl; auto.
  rewrite IH. f_equal. destruct (Rlt_dec 0 a); reflexivity.
Qed.

Lemma neural_update_fixed (n hidden : nat) (self : Neural.NeuralRegression)
    (x_i : vec) (y_i lr : R) :
  Neural.well_shaped n hidden self ->
  length x_i = n ->
  snd (Neural.forward self x_i) = [y_i] ->
  snd (Neural.update_weight x_i y_i lr self) = self.
Proof.
  intros Hs Hx Hfit.
  destruct (well_shaped_two_layers Hs) as (W0 & W1 & b0 & b1 & -> & S0 & S1 & L0 & L1 & Hn & Hh).
  rewrite neural_update_two_layers.
  rewrite forward_two_layers in Hfit. cbn [snd] in Hfit. rewrite Hfit.
  assert (Eg1 : scale 2 (vsub_scalar [y_i] y_i) = zeros 1).
  { unfold scale, vsub_scalar, zeros. simpl. f_equal. ring. }
  rewrite Eg1.
  rewrite (dot_vm_transpose (zeros 1) S1 Hh Nat.lt_0_1), dot_mv_zeros, (proj1 S1).
  rewrite relu_backward_zeros, (@length_z0 n hidden W0 b0 x_i S0 L0 Hn), Nat.min_id.
  rewrite !outer_zeros, !mscale_zero_matrix, !scale_zeros.
  rewrite length_maximum0, (@length_z0 n hidden W0 b0 x_i S0 L0 Hn), Hx.
  rewrite (msub_zero_matrix S0), (msub_zero_matrix S1).
  assert (E0 : vsub b0 (zeros hidden) = b0) by (rewrite <- L0; apply vsub_zeros).
  assert (E1 : vsub b1 (zeros 1) = b1) by (rewrite <- L1; apply vsub_zeros).
  now rewrite E0, E1.
Qed.

(** X12: an example the network already predicts exactly changes nothing:
    [update_weight] leaves every weight and bias as it was, and so does an
    epoch over a dataset whose targets the network predicts exactly. *)
Theorem neural_exact_fit_is_fixed (n hidden : nat) (self : Neural.NeuralRegression) :
  Neural.well_shaped n hidden self ->
  (forall (x_i : vec) (y_i lr : R),
      length x_i = n ->
      fst (Neural.predict [x_i] self) = [y_i] ->
      snd (Neural.update_weight x_i y_i lr self) = self) /\
  (forall (X : mat) (y : vec) (kw : kwargs),
      Forall (fun r => length r = n) X ->
      fst (Neural.predict X self) = y ->
      train_epoch X y kw self = (tt, self)).
Proof.
  intros Hs.
  assert (Hrow := neural_row_wise Hs).
  assert (Hout : forall r, snd (Neural.forward self r) = [hd 0 (snd (Neural.forward self r))]).
  { intros r.
    destruct (well_shaped_two_layers Hs) as (W0 & W1 & b0 & b1 & -> & S0 & S1 & L0 & L1 & Hn & Hh).
    rewrite forward_two_layers. cbn [snd].
    assert (Hl := length_output_row (maximum0 (vadd (dot_vm r W0) b0)) W1 b1
                    (ncols_has_shape S1 Hh) L1).
    destruct (vadd _ b1) as [|a [|? ?]]; try discriminate. reflexivity. }
  split.
  - intros x_i y_i lr Hx Hfit. apply (@neural_update_fixed n hidden self x_i y_i lr Hs Hx).
    change (fst (predict [x_i] self) = [y_i]) in Hfit.
    rewrite (Hrow [x_i]) in Hfit. cbn [map] in Hfit. rewrite Hout. exact Hfit.
  - intros X y kw HX Hfit.
    change (fst (predict X self) = y) in Hfit. rewrite (Hrow X) in Hfit. subst y.
    induction HX as [|x X Hx HX IH]; [reflexivity|].
    cbn [map]. rewrite train_epoch_cons. cbn [update_weight Neural_model].
    rewrite (@neural_update_fixed n hidden self x _ (learning_rate_of kw) Hs Hx)
      by apply Hout.
    exact IH.
Qed.

(** ** A hidden unit that is off *)

Lemma nth_zip_with {A B C : Type} (f : A -> B -> C) (u : list A) (v : list B)
    (i : nat) (dA : A) (dB : B) (dC : C) :
  (i < length u)%nat -> (i < length v)%nat ->
  nth i (zip_with f u v) dC = f (nth i u dA) (nth i v dB).
Proof.
  revert v i; induction u as [|a u IH]; intros [|b v] [|i] Hu Hv; simpl in *; try lia; auto.
  apply IH; lia.
Qed.

Lemma entry_after_step (A : mat) (u g : vec) (lr : R) (i j : nat) :
  (i < length A)%nat -> (i < length u)%nat ->
  (j < length (nth i A []))%nat -> (j < length g)%nat ->
  nth j (nth i (msub A (mscale lr (Spec.outer u g))) []) 0
  = nth j (nth i A []) 0 - lr * (nth i u 0 * nth j g 0).
Proof.
  intros HiA Hiu Hj Hg. unfold msub, vec, mat in *.
  rewrite (nth_zip_with vsub A _ [] [] [])
    by (auto; unfold mscale, Spec.outer; rewrite !length_map; exact Hiu).
  assert (Hrow : nth i (mscale lr (Spec.outer u g)) []
                 = map (fun b => lr * (nth i u 0 * b)) g).
  { unfold mscale, Spec.outer. rewrite map_map.
    rewrite (nth_indep _ [] ((fun a => scale lr (map (fun b => a * b) g)) 0))
      by (rewrite length_map; exact Hiu).
    rewrite (map_nth (fun a => scale lr (map (fun b => a * b) g))).
    unfold scale. now rewrite map_map. }
  unfold vec, mat in *. rewrite Hrow. unfold vsub.
  rewrite (nth_zip_with Rminus _ _ 0 0 0) by (auto; rewrite length_map; exact Hg).
  f_equal.
  rewrite (nth_indep _ 0 ((fun b => lr * (nth i u 0 * b)) 0)) by (rewrite length_map; exact Hg).
  apply (map_nth (fun b => lr * (nth i u 0 * b))).
Qed.

(** X13: a hidden unit whose pre-activation is not positive for the example
    is left alone by [update_weight]: its bias, the weights into it and the
    weight out of it keep their values. *)
Theorem dead_unit_is_not_updated (n hidden : nat) (self : Neural.NeuralRegression)
    (x_i : vec) (y_i lr : R) (j : nat) :
  Neural.well_shaped n hidden self ->
  length x_i = n ->
  (j < hidden)%nat ->
  let W0 := nth 0 (Neural.weights self) [] in
  let W1 := nth 1 (Neural.weights self) [] in
  let b0 := nth 0 (Neural.biases self) [] in
  let z0 := vadd (dot_vm x_i W0) b0 in
  nth j z0 0 <= 0 ->
  let self' := snd (Neural.update_weight x_i y_i lr self) in
  nth j (nth 0 (Neural.biases self') []) 0 = nth j b0 0 /\
  (forall i : nat, (i < n)%nat ->
     nth j (nth i (nth 0 (Neural.weights self') []) []) 0 = nth j (nth i W0 []) 0) /\
  nth 0 (nth j (nth 1 (Neural.weights self') []) []) 0 = nth 0 (nth j W1 []) 0.
Proof.
  intros Hs Hx Hj.
  destruct (well_shaped_two_layers Hs) as (W0 & W1 & b0 & b1 & -> & S0 & S1 & L0 & L1 & Hn & Hh).
  cbn [Neural.two_layers Neural.weights Neural.biases nth].
  intros Hz. rewrite neural_update_two_layers.
  cbn [Neural.two_layers Neural.weights Neural.biases nth].
  set (z0 := vadd (dot_vm x_i W0) b0) in *. set (h0 := maximum0 z0).
  set (g1 := scale 2 (vsub_scalar (vadd (dot_vm h0 W1) b1) y_i)).
  set (g0 := Spec.relu_backward (dot_vm g1 (transpose W1)) z0).
  assert (Hg1 : length g1 = 1%nat) by (apply (@length_grad_z1 hidden W1 b1); auto).
  assert (Hg0 : length g0 = hidden) by (apply (@length_grad_z0 n hidden W0 W1 b0 x_i); auto).
  assert (Hz0 : length z0 = hidden) by (apply (@length_z0 n hidden W0 b0 x_i); auto).
  assert (Eg0 : nth j g0 0 = 0).
  { unfold g0. rewrite nth_relu_backward. destruct (Rlt_dec 0 (nth j z0 0)); [lra | reflexivity]. }
  assert (Eh0 : nth j h0 0 = 0).
  { unfold h0. rewrite nth_maximum0. apply Rmax_right. exact Hz. }
  assert (Hrows0 : forall i, (i < n)%nat -> length (nth i W0 []) = hidden).
  { intros i Hi. pose proof S0 as [Hl Hr]. rewrite Forall_forall in Hr.
    apply Hr, nth_In. rewrite <- Hl in Hi. exact Hi. }
  assert (Hrow1 : length (nth j W1 []) = 1%nat).
  { pose proof S1 as [Hl Hr]. rewrite Forall_forall in Hr.
    apply Hr, nth_In. rewrite <- Hl in Hj. exact Hj. }
  split; [|split].
  - unfold vsub, scale.
    rewrite (nth_zip_with Rminus _ _ 0 0 0) by (rewrite ?length_map, ?L0, ?Hg0; exact Hj).
    rewrite nth_scale, Eg0. ring.
  - intros i Hi.
    rewrite entry_after_step.
    + rewrite Eg0. ring.
    + pose proof (proj1 S0) as Hl. rewrite <- Hl in Hi. exact Hi.
    + rewrite Hx. exact Hi.
    + rewrite (Hrows0 i Hi). exact Hj.
    + rewrite Hg0. exact Hj.
  - rewrite entry_after_step.
    + rewrite Eh0. ring.
    + pose proof (proj1 S1) as Hl. rewrite <- Hl in Hj. exact Hj.
    + unfold h0. rewrite length_maximum0, Hz0. exact Hj.
    + rewrite Hrow1. lia.
    + rewrite Hg1. lia.
Qed.

(** ** The analytic solution on data a linear model fits *)

Lemma solve_analytically_fits (pinv : mat -> mat) (k n : nat) (X : mat) (y w0 : vec) :
  has_shape k n X -> (0 < k)%nat -> (0 < n)%nat ->
  generalized_inverse n (dot_mm (transpose X) X) (pinv (dot_mm (transpose X) X)) ->
  length w0 = n ->
  dot_mv X w0 = y ->
  dot_mv X (solve_analytically pinv X y) = y.
Proof.
  intros HX Hk Hn Hpinv Hw0 Hfit.
  assert (Hy : length y = k) by (rewrite <- Hfit, length_dot_mv; apply HX).
  pose proof (@solve_analytically_least_squares pinv k n X y HX Hk Hn Hy Hpinv w0 Hw0) as Hls.
  cbv zeta in Hls. rewrite Hfit, vsub_diag, dot_vv_zeros_l in Hls.
  apply vsub_eq_of_norm_zero.
  - rewrite length_dot_mv, Hy. apply HX.
  - pose proof (dot_vv_self_nonneg (vsub (dot_mv X (solve_analytically pinv X y)) y)). lra.
Qed.

(** X14: when some weight vector reproduces the targets exactly, so does the
    vector [solve_analytically] returns. *)
Theorem solve_analytically_exact_on_consistent_data (pinv : mat -> mat)
    (n_points n_features : nat) (X : mat) (y : vec) :
  has_shape n_points n_features X ->
  (0 < n_points)%nat -> (0 < n_features)%nat ->
  generalized_inverse n_features (dot_mm (transpose X) X) (pinv (dot_mm (transpose X) X)) ->
  (exists w0 : vec, length w0 = n_features /\ dot_mv X w0 = y) ->
  dot_mv X (solve_analytically pinv X y) = y.
Proof.
  intros HX Hk Hn Hpinv (w0 & Hw0 & Hfit).
  exact (@solve_analytically_fits pinv n_points n_features X y w0 HX Hk Hn Hpinv Hw0 Hfit).
Qed.

(** X15: when [np.linalg.pinv] cuts no singular value of [X.T X] other
    than 0 (none of them falls at or below [1e-15 * max(s)]) and some weight
    vector reproduces the targets exactly, the analytic solution is a fixed
    point of training: a linear model that holds it is left unchanged by an
    epoch over [(X, y)], so its distance to the analytic solution stays
    zero. *)
Theorem analytic_solution_is_fixed_by_epoch (pinv : mat -> mat)
    (n_points n_features : nat) (X : mat) (y : vec) (kw : kwargs)
    (u : mat) (s : vec) (vt : mat) :
  has_shape n_points n_features X ->
  (0 < n_points)%nat -> (0 < n_features)%nat ->
  Linalg.svd n_features (dot_mm (transpose X) X) u s vt ->
  pinv (dot_mm (transpose X) X) = Linalg.pinv_of_svd u s vt ->
  Linalg.none_cut s ->
  (exists w0 : vec, length w0 = n_features /\ dot_mv X w0 = y) ->
  let analytic_solution := solve_analytically pinv X y in
  let self := {| Linear.w := analytic_solution |} in
  train_epoch X y kw self = (tt, self) /\
  Main.distance analytic_solution (Linear.w (snd (train_epoch X y kw self))) = 0.
Proof.
  intros HX Hk Hn Hsvd Hp Hcut (w0 & Hw0 & Hfit) analytic_solution self.
  assert (Hpinv : generalized_inverse n_features (dot_mm (transpose X) X)
                    (pinv (dot_mm (transpose X) X))).
  { rewrite Hp. now apply pinv_of_svd_generalized_inverse. }
  assert (Hy : length y = n_points) by (rewrite <- Hfit, length_dot_mv; apply HX).
  assert (Hlen : length analytic_solution = n_features).
  { unfold analytic_solution. exact (@length_solve_analytically pinv n_features X y Hpinv). }
  assert (Hfix : train_epoch X y kw self = (tt, self)).
  { apply linear_epoch_fixed.
    - cbn [Linear.w self]. rewrite Hlen. apply HX.
    - change (dot_mv X analytic_solution = y). unfold analytic_solution.
      exact (@solve_analytically_fits pinv n_points n_features X y w0 HX Hk Hn Hpinv Hw0 Hfit). }
  split; [exact Hfix|].
  rewrite Hfix. cbn [snd self Linear.w].
  unfold Main.distance, norm. rewrite vsub_diag, dot_vv_zeros_l. apply sqrt_0.
Qed.

(** ** The training loop of main *)

Section TrainingLoopFacts.

Import Main.

Context {M : Type} {rm : RegressionModel M}.

Variables (get_w : M -> vec) (env : environment) (opt : namespace).
Variables (test_X : mat) (test_y : vec) (analytic_solution : option vec).

Lemma epoch_body_fields (st : loop_state) (e : nat) :
  let st' := epoch_body get_w env opt test_X test_y analytic_solution st e in
  let order := random_permutation env e (length (train_X st)) in
  train_X st' = take_rows [] order (train_X st) /\
  train_y st' = take_rows 0 order (train_y st) /\
  exists train_loss test_loss : R,
    log st' = log st ++ [PrintEpoch e; PrintLoss train_loss test_loss] /\
    train_losses st' = train_losses st ++ [train_loss] /\
    test_losses st' = test_losses st ++ [test_loss] /\
    match analytic_solution with
    | Some _ => exists d : R, dist_opt st' = dist_opt st ++ [d]
    | None => dist_opt st' = dist_opt st
    end.
Proof.
  cbv zeta. unfold epoch_body.
  destruct (train_epoch _ _ _ _) as [u m1].
  destruct (evaluate _ _ m1) as [train_loss m2].
  destruct (evaluate _ _ m2) as [test_loss m3].
  cbn [train_X train_y log train_losses test_losses dist_opt].
  split; [reflexivity|]. split; [reflexivity|].
  exists train_loss, test_loss. rewrite <- app_assoc.
  repeat split. destruct analytic_solution; [eexists|]; reflexivity.
Qed.

Lemma training_loop_series (epochs : list nat) (st : loop_state) :
  let st' := fold_left (epoch_body get_w env opt test_X test_y analytic_solution) epochs st in
  exists (losses : list (R * R)) (dists : list R),
    length losses = length epochs /\
    log st' = log st ++ flat_map print_lines (combine epochs losses) /\
    train_losses st' = train_losses st ++ map fst losses /\
    test_losses st' = test_losses st ++ map snd losses /\
    dist_opt st' = dist_opt st ++ dists /\
    length dists = match analytic_solution with
                   | Some _ => length epochs
                   | None => 0%nat
                   end.
Proof.
  cbv zeta. revert st. induction epochs as [|e epochs IH]; intros st.
  - exists [], []. simpl. rewrite !app_nil_r. repeat split; auto.
    destruct analytic_solution; reflexivity.
  - cbn [fold_left].
    destruct (epoch_body_fields st e) as (_ & _ & tr & te & Hlog & Htr & Hte & Hd).
    destruct (IH (epoch_body get_w env opt test_X test_y analytic_solution st e))
      as (losses & dists & Hlen & Hlog' & Htr' & Hte' & Hd' & Hdl).
    destruct analytic_solution as [a|].
    + destruct Hd as [d Hd].
      exists ((tr, te) :: losses), (d :: dists).
      rewrite Hlog', Htr', Hte', Hd', Hlog, Htr, Hte, Hd. simpl.
      rewrite <- !app_assoc. simpl. repeat split; auto.
    + exists ((tr, te) :: losses), dists.
      rewrite Hlog', Htr', Hte', Hd', Hlog, Htr, Hte, Hd. simpl.
      rewrite <- !app_assoc. simpl. repeat split; auto.
Qed.

Lemma take_rows_combine (order : list nat) (X : mat) (y : vec) :
  length X = length y ->
  combine (take_rows [] order X) (take_rows 0 order y)
  = take_rows ([], 0) order (combine X y).
Proof.
  intros Hlen. unfold take_rows.
  induction order as [|i order IH]; simpl; [reflexivity|].
  rewrite IH. f_equal. symmetry. now apply combine_nth.
Qed.

Lemma Permutation_take_rows {A : Type} (d : A) (order : list nat) (l : list A) :
  Permutation order (seq 0 (length l)) -> Permutation (take_rows d order l) l.
Proof.
  intros Hperm. unfold take_rows.
  apply (Permutation_map (fun i => nth i l d)) in Hperm.
  now rewrite map_nth_seq in Hperm.
Qed.

Lemma training_loop_keeps_pairs (epochs : list nat) (st : loop_state) :
  (forall e n : nat, Permutation (random_permutation env e n) (seq 0 n)) ->
  length (train_X st) = length (train_y st) ->
  let st' := fold_left (epoch_body get_w env opt test_X test_y analytic_solution) epochs st in
  length (train_X st') = length (train_y st') /\
  Permutation (combine (train_X st') (train_y st')) (combine (train_X st) (train_y st)).
Proof.
  intros Hrng. cbv zeta. revert st. induction epochs as [|e epochs IH]; intros st Hlen.
  - split; [exact Hlen | reflexivity].
  - cbn [fold_left].
    destruct (epoch_body_fields st e) as (HX & Hy & _).
    set (st1 := epoch_body get_w env opt test_X test_y analytic_solution st e) in *.
    assert (Hlen1 : length (train_X st1) = length (train_y st1)).
    { rewrite HX, Hy, !length_take_rows. reflexivity. }
    destruct (IH st1 Hlen1) as (Hl & Hp). split; [exact Hl|].
    etransitivity; [exact Hp|].
    rewrite HX, Hy, take_rows_combine by exact Hlen.
    apply Permutation_take_rows. rewrite length_combine, <- Hlen, Nat.min_id. apply Hrng.
Qed.

End TrainingLoopFacts.

(** X16: the shuffles of the training loop keep every example with its
    target: when each shuffle is a permutation of the row indices, the
    pairs (row, target) after any number of epochs are the pairs the loop
    started with, in some order. *)
Theorem main_shuffle_keeps_examples_paired (M : Type) (rm : RegressionModel M)
    (get_w : M -> vec) (env : Main.environment) (opt : Main.namespace)
    (test_X : mat) (test_y : vec) (analytic_solution : option vec)
    (epochs : list nat) (st : Main.loop_state) :
  (forall e n : nat, Permutation (Main.random_permutation env e n) (seq 0 n)) ->
  length (Main.train_X st) = length (Main.train_y st) ->
  let st' := fold_left (Main.epoch_body get_w env opt test_X test_y analytic_solution)
                       epochs st in
  length (Main.train_X st') = length (Main.train_y st') /\
  Permutation (combine (Main.train_X st') (Main.train_y st'))
              (combine (Main.train_X st) (Main.train_y st)).
Proof.
  intros Hrng Hlen. now apply training_loop_keeps_pairs.
Qed.

Lemma train_and_plot_trace (M : Type) (rm : RegressionModel M) (get_w : M -> vec)
    (env : Main.environment) (opt : Main.namespace) (test_X : mat) (test_y : vec)
    (analytic_solution : option vec) (st : Main.loop_state) (epochs : list nat) :
  Main.arange_epochs env opt = inr epochs ->
  epochs <> [] ->
  Main.train_losses st = [] -> Main.test_losses st = [] -> Main.dist_opt st = [] ->
  exists (losses : list (R * R)) (dists : list R),
    length losses = length epochs /\
    length dists = match analytic_solution with Some _ => length epochs | None => 0%nat end /\
    Main.train_and_plot get_w env opt test_X test_y analytic_solution st
    = (Main.log st ++ flat_map print_lines (combine epochs losses)
            ++ Main.Plot epochs (map fst losses) (map snd losses)
               :: match analytic_solution with
                  | Some _ => [Main.PlotDist epochs dists]
                  | None => []
                  end,
       Main.Completed).
Proof.
  intros Har Hne Htr0 Hte0 Hd0.
  destruct (training_loop_series get_w env opt test_X test_y analytic_solution epochs st)
    as (losses & dists & Hlen & Hlog & Htr & Hte & Hd & Hdl).
  exists losses, dists. split; [exact Hlen|]. split; [exact Hdl|].
  unfold Main.train_and_plot, Main.plot, Main.plot_dist_from_analytic.
  rewrite Har.
  destruct (last_epoch_some Hne) as [e He]. rewrite He.
  rewrite Hlog, Htr, Hte, Hd, Htr0, Hte0, Hd0. cbn [app].
  destruct analytic_solution; rewrite <- ?app_assoc; reflexivity.
Qed.

(** X17: a run that reaches its end shows what it printed.  When argparse
    accepts the command line, the number of epochs is at least one and
    [np.arange] returns the epochs [1 .. epochs], the network, if asked
    for, gets its weights, and the data, the shuffles and [pinv] fit
    together: after the seed and the data are set up, the log holds the two
    lines of every epoch in turn, then one plot whose two curves are the
    train and test losses printed, one per epoch; the plot of the distance
    to the analytic solution follows for [linear_regression], with one
    distance per epoch, and is absent for [nn]. *)
Theorem main_plots_what_it_printed (args : Main.invocation) (env : Main.environment)
    (opt : Main.namespace) :
  Main.parse_args args = inr opt ->
  orderly env ->
  (1 <= Main.epochs opt)%Z ->
  Main.arange_from_1 env (Main.epochs opt + 1) = inr (seq 1 (Z.to_nat (Main.epochs opt))) ->
  (Main.model opt = "nn"%string -> weights_drawn env (Main.hidden_size opt)) ->
  let k := Z.to_nat (Main.epochs opt) in
  let linear := String.eqb (Main.model opt) "linear_regression" in
  exists (losses : list (R * R)) (dists : list R),
    length losses = k /\
    length dists = (if linear then k else 0%nat) /\
    Main.main args env
    = ([Main.ConfigureSeed 42; Main.LoadData linear]
         ++ flat_map print_lines (combine (seq 1 k) losses)
         ++ Main.Plot (seq 1 k) (map fst losses) (map snd losses)
            :: (if linear then [Main.PlotDist (seq 1 k) dists] else []),
       Main.Completed).
Proof.
  intros Hp _ Hep Har Hnn k linear.
  assert (Hne : seq 1 k <> []) by (apply seq_not_nil; unfold k; lia).
  destruct (@parse_args_accepts args opt Hp) as (_ & _ & [Hm|Hm] & _).
  - rewrite (@main_linear_regression args env opt Hp Hm). unfold linear. rewrite Hm.
    simpl String.eqb. cbv iota.
    match goal with
    | |- context [Main.train_and_plot ?g ?e ?o ?tx ?ty ?a ?st] =>
        destruct (@train_and_plot_trace _ Linear_model g e o tx ty a st (seq 1 k) Har Hne
                    eq_refl eq_refl eq_refl) as (losses & dists & Hl & Hd & Hrun)
    end.
    rewrite length_seq in Hl, Hd. exists losses, dists.
    split; [exact Hl|]. split; [exact Hd|]. exact Hrun.
  - destruct (@main_nn_weights_drawn args env opt Hp Hm (Hnn Hm)) as (W0 & W1 & ->).
    unfold linear. rewrite Hm. simpl String.eqb. cbv iota.
    match goal with
    | |- context [Main.train_and_plot ?g ?e ?o ?tx ?ty ?a ?st] =>
        destruct (@train_and_plot_trace _ Neural_model g e o tx ty a st (seq 1 k) Har Hne
                    eq_refl eq_refl eq_refl) as (losses & dists & Hl & Hd & Hrun)
    end.
    rewrite length_seq in Hl. exists losses, dists.
    split; [exact Hl|]. split; [exact Hd|]. exact Hrun.
Qed.

(** ** A fresh model, and a learning rate of zero *)

(** X18: a linear model fresh from [__init__] predicts 0 for every row, and
    its first step on an example [(x_i, y_i)] sets the weights to
    [2 * learning_rate * y_i * x_i]. *)
Theorem linear_fresh_model (n_features : nat) :
  (forall X : mat,
      fst (Linear.predict X (Linear.init n_features)) = zeros (length X)) /\
  (forall (x_i : vec) (y_i lr : R),
      length x_i = n_features ->
      fst (Linear.update_weight x_i y_i lr (Linear.init n_features))
      = scale (2 * lr * y_i) x_i).
Proof.
  split.
  - intros X. change (dot_mv X (zeros n_features) = zeros (length X)). apply dot_mv_zeros.
  - intros x_i y_i lr Hlen. rewrite linear_update_weight_value. cbn [fst Linear.init Linear.w].
    rewrite dot_vv_comm, dot_vv_zeros_l. subst n_features.
    unfold scale, zeros. induction x_i as [|a x IH]; simpl; [reflexivity|].
    rewrite IH. f_equal. ring.
Qed.

Lemma msub_mscale_zero (n m : nat) (A B : mat) :
  has_shape n m A -> has_shape n m B -> msub A (mscale 0 B) = A.
Proof.
  intros [HlA HrA] [HlB HrB]. unfold msub, mscale. revert n B HlA HlB HrB.
  induction HrA as [|a A' Ha HrA' IH]; intros [|n] [|b B'] HlA HlB HrB;
    simpl in *; try discriminate; auto.
  pose proof (Forall_inv HrB) as Hb. pose proof (Forall_inv_tail HrB) as HrB'. cbv beta in Hb.
  rewrite (IH n B') by (auto; congruence). f_equal.
  unfold vsub, scale. rewrite zip_with_map_r.
  rewrite <- Ha in Hb. clear - Hb. revert b Hb.
  induction a as [|x a IH]; intros [|y b] Hb; simpl in *; try discriminate; auto.
  rewrite IH by congruence. f_equal. ring.
Qed.

Lemma vsub_scale_zero (b g : vec) : length g = length b -> vsub b (scale 0 g) = b.
Proof.
  unfold vsub, scale. rewrite zip_with_map_r. revert g.
  induction b as [|x b IH]; intros [|y g] Hlen; simpl in *; try discriminate; auto.
  rewrite IH by congruence. f_equal. ring.
Qed.

(** X19: with a learning rate of zero a step changes nothing, in the linear
    model and in the network. *)
Theorem zero_learning_rate_changes_nothing :
  (forall (self : Linear.LinearRegression) (x_i : vec) (y_i : R),
      length x_i = length (Linear.w self) ->
      snd (Linear.update_weight x_i y_i 0 self) = self) /\
  (forall (n hidden : nat) (self : Neural.NeuralRegression) (x_i : vec) (y_i : R),
      Neural.well_shaped n hidden self ->
      length x_i = n ->
      snd (Neural.update_weight x_i y_i 0 self) = self).
Proof.
  split.
  - intros self x_i y_i Hlen. rewrite linear_update_weight_value. cbn [snd].
    rewrite zip_with_unchanged; [now destruct self | exact Hlen | ring].
  - intros n hidden self x_i y_i Hs Hx.
    destruct (well_shaped_two_layers Hs) as (W0 & W1 & b0 & b1 & -> & S0 & S1 & L0 & L1 & Hn & Hh).
    rewrite neural_update_two_layers.
    set (z0 := vadd (dot_vm x_i W0) b0). set (h0 := maximum0 z0).
    set (g1 := scale 2 (vsub_scalar (vadd (dot_vm h0 W1) b1) y_i)).
    set (g0 := Spec.relu_backward (dot_vm g1 (transpose W1)) z0).
    assert (Hg1 : length g1 = 1%nat) by (apply (@length_grad_z1 hidden W1 b1); auto).
    assert (Hg0 : length g0 = hidden) by (apply (@length_grad_z0 n hidden W0 W1 b0 x_i); auto).
    assert (Hh0 : length h0 = hidden).
    { unfold h0. rewrite length_maximum0. apply (@length_z0 n hidden W0 b0 x_i); auto. }
    rewrite (@msub_mscale_zero n hidden W0), (@msub_mscale_zero hidden 1 W1); auto.
    + rewrite !vsub_scale_zero by congruence. reflexivity.
    + rewrite <- Hh0, <- Hg1. apply has_shape_outer.
    + rewrite <- Hx, <- Hg0. apply has_shape_outer.
Qed.

(** ** Instances *)

Lemma linear_update_contracts_residual_witness :
  let self := {| Linear.w := [1; 2] |} in
  let self' := snd (Linear.update_weight [3; 4] 5 (1 / 100) self) in
  fst (Linear.predict1 [3; 4] self') - 5
  = (1 - 2 * (1 / 100) * dot_vv [3; 4] [3; 4]) * (fst (Linear.predict1 [3; 4] self) - 5).
Proof.
  intros self self'.
  exact (proj1 (@linear_update_contracts_residual self [3; 4] 5 (1 / 100) eq_refl)).
Defined.

Lemma linear_repeated_example_residual_witness :
  let self := {| Linear.w := [1; 2] |} in
  let kw := {| kw_learning_rate := Some (1 / 100) |} in
  fst (Linear.predict1 [3; 4] (snd (train_epoch (repeat [3; 4] 3) (repeat 5 3) kw self))) - 5
  = (1 - 2 * (1 / 100) * dot_vv [3; 4] [3; 4]) ^ 3 * (fst (Linear.predict1 [3; 4] self) - 5).
Proof.
  intros self kw.
  exact (@linear_repeated_example_residual self [3; 4] 5 (1 / 100) 3 eq_refl).
Defined.

Lemma linear_gradient_is_derivative_witness :
  let self := {| Linear.w := [1; 2] |} in
  derivable_pt_lim
    (fun t => (fst (Linear.predict1 [3; 4] {| Linear.w := set_nth 1 t [1; 2] |}) - 5) ^ 2)
    2 (nth 1 (dot_sv (2 * (fst (Linear.predict1 [3; 4] self) - 5)) [3; 4]) 0).
Proof.
  intros self.
  exact (@linear_gradient_is_derivative self [3; 4] 5 1 eq_refl (Nat.lt_succ_diag_r 1)).
Defined.

Lemma linear_training_keeps_length_witness :
  let self := {| Linear.w := [1; 2] |} in
  let kw := {| kw_learning_rate := None |} in
  length (Linear.w (snd (train_epoch [[3; 4]; [0; 1]] [5; 6] kw self))) = 2%nat.
Proof.
  intros self kw.
  apply (@linear_training_keeps_length self [[3; 4]; [0; 1]] [5; 6] kw).
  repeat constructor.
Defined.

Lemma train_epoch_app_witness :
  let self := {| Linear.w := [1; 2] |} in
  let kw := {| kw_learning_rate := None |} in
  train_epoch ([[3; 4]] ++ [[0; 1]]) ([5] ++ [6]) kw self
  = train_epoch [[0; 1]] [6] kw (snd (train_epoch [[3; 4]] [5] kw self)).
Proof.
  intros self kw.
  exact (@train_epoch_app _ Linear_model [[3; 4]] [[0; 1]] [5] [6] kw self eq_refl).
Defined.

Lemma evaluate_zero_only_when_exact_witness :
  let self := {| Linear.w := [1; 2] |} in
  0 <= fst (evaluate [[1; 0]; [0; 1]] [3; 4] self).
Proof.
  intros self.
  refine (proj1 (@evaluate_zero_only_when_exact _ Linear_model [[1; 0]; [0; 1]] [3; 4] self _ _)).
  - discriminate.
  - reflexivity.
Defined.

Lemma distance_separates_witness :
  Main.distance [1; 2] [3; 5] = Main.distance [3; 5] [1; 2].
Proof.
  exact (proj1 (proj2 (@distance_separates [1; 2] [3; 5] eq_refl))).
Defined.

Lemma distance_triangle_witness :
  Main.distance [1; 2] [0; 0] <= Main.distance [1; 2] [3; 5] + Main.distance [3; 5] [0; 0].
Proof.
  exact (@distance_triangle [1; 2] [3; 5] [0; 0] eq_refl eq_refl).
Defined.

Lemma sample_network_shaped :
  Neural.well_shaped 2 1 (Neural.init [[1]; [-1]] [[2]] 1).
Proof.
  exists [[1]; [-1]], [[2]], [0], [0]. unfold has_shape. simpl.
  repeat split; auto; try lia; repeat constructor.
Defined.

Lemma neural_exact_fit_is_fixed_witness :
  let self := Neural.init [[1]; [-1]] [[2]] 1 in
  snd (Neural.update_weight [3; 1] 4 (1 / 10) self) = self.
Proof.
  intros self.
  apply (proj1 (@neural_exact_fit_is_fixed 2 1 self sample_network_shaped)).
  - reflexivity.
  - np_compute.
    replace (Rmax (3 * 1 + (1 * -1 + 0) + 0) 0) with 2
      by (unfold Rmax; destruct (Rle_dec _ _); lra).
    array_eq; lra.
Defined.

Lemma dead_unit_is_not_updated_witness :
  let self := Neural.init [[1]; [-1]] [[2]] 1 in
  let self' := snd (Neural.update_weight [1; 3] 5 (1 / 10) self) in
  nth 0 (nth 0 (Neural.biases self') []) 0 = nth 0 (nth 0 (Neural.biases self) []) 0.
Proof.
  intros self self'.
  refine (proj1 (@dead_unit_is_not_updated 2 1 self [1; 3] 5 (1 / 10) 0
                   sample_network_shaped eq_refl Nat.lt_0_1 _)).
  np_compute. lra.
Defined.

Lemma solve_analytically_exact_on_consistent_data_witness :
  let X := [[1; 0; 1]; [0; 1; 1]] in
  let pinv := fun _ : mat =>
    [[5 / 9; - (4 / 9); 1 / 9]; [- (4 / 9); 5 / 9; 1 / 9]; [1 / 9; 1 / 9; 2 / 9]] in
  dot_mv X (solve_analytically pinv X [2; 3]) = [2; 3].
Proof.
  intros X pinv.
  apply (@solve_analytically_exact_on_consistent_data pinv 2 3 X [2; 3]).
  - split; [reflexivity | repeat constructor].
  - exact (Nat.lt_0_succ 1).
  - exact (Nat.lt_0_succ 2).
  - split; [split; [reflexivity | repeat constructor]|].
    np_compute. array_eq; lra.
  - exists [2; 3; 0]. split; [reflexivity|].
    np_compute. array_eq; lra.
Defined.

Lemma analytic_solution_is_fixed_by_epoch_witness :
  let X := [[1; 1]; [-1; 1]] in
  let pinv := fun _ : mat => Linalg.pinv_of_svd [[1; 0]; [0; 1]] [2; 2] [[1; 0]; [0; 1]] in
  let kw := {| kw_learning_rate := Some (1 / 1000) |} in
  let self := {| Linear.w := solve_analytically pinv X [3; 5] |} in
  train_epoch X [3; 5] kw self = (tt, self).
Proof.
  intros X pinv kw self.
  refine (proj1 (@analytic_solution_is_fixed_by_epoch pinv 2 2 X [3; 5] kw
                   [[1; 0]; [0; 1]] [2; 2] [[1; 0]; [0; 1]] _ _ _ _ eq_refl _ _)).
  - split; [reflexivity | repeat constructor].
  - exact (Nat.lt_0_succ 1).
  - exact (Nat.lt_0_succ 1).
  - unfold Linalg.svd.
    repeat match goal with |- _ /\ _ => split end;
      try reflexivity; try (repeat constructor; lra);
      np_compute; array_eq; lra.
  - apply Forall_cons; [right | apply Forall_cons; [right | apply Forall_nil]];
      np_compute; unfold Rmax; repeat destruct (Rle_dec _ _); lra.
  - exists [-1; 4]. split; [reflexivity|].
    np_compute. array_eq; lra.
Defined.

Lemma main_shuffle_keeps_examples_paired_witness :
  let opt := {| Main.model := "linear_regression"; Main.epochs := 2;
                Main.hidden_size := 150; Main.learning_rate := 1 / 1000 |} in
  let st := {| Main.the_model := Linear.init 2;
               Main.train_X := [[1; 1]; [2; 1]]; Main.train_y := [3; 5];
               Main.train_losses := []; Main.test_losses := []; Main.dist_opt := [];
               Main.log := [] |} in
  let st' := fold_left (Main.epoch_body Linear.w Main.sample_environment opt [[3; 1]] [7] None)
                       [1; 2]%nat st in
  Permutation (combine (Main.train_X st') (Main.train_y st'))
              [([1; 1], 3); ([2; 1], 5)].
Proof.
  intros opt st st'.
  refine (proj2 (@main_shuffle_keeps_examples_paired _ Linear_model Linear.w
                   Main.sample_environment opt [[3; 1]] [7] None [1; 2]%nat st _ _)).
  - intros e n. apply Permutation_refl.
  - reflexivity.
Defined.

Lemma main_plots_what_it_printed_witness :
  let args := {| Main.arg_help := false;
                 Main.arg_model := "nn";
                 Main.arg_epochs := Main.Value 3%Z;
                 Main.arg_hidden_size := Main.Value 4%Z;
                 Main.arg_learning_rate := Main.Absent |} in
  exists (losses : list (R * R)) (dists : list R),
    length losses = 3%nat /\
    length dists = 0%nat /\
    Main.main args Main.sample_environment
    = ([Main.ConfigureSeed 42; Main.LoadData false]
         ++ flat_map print_lines (combine [1; 2; 3]%nat losses)
         ++ [Main.Plot [1; 2; 3]%nat (map fst losses) (map snd losses)],
       Main.Completed).
Proof.
  intros args.
  apply (@main_plots_what_it_printed args Main.sample_environment
           {| Main.model := "nn"; Main.epochs := 3;
              Main.hidden_size := 4; Main.learning_rate := 1 / 1000 |}).
  - reflexivity.
  - exact orderly_sample_environment.
  - simpl. lia.
  - reflexivity.
  - intros _. split; [simpl; lia|]. cbn. eexists. eexists. split; reflexivity.
Defined.

Lemma linear_exact_fit_is_fixed_witness :
  let self := {| Linear.w := [1; 2] |} in
  let kw := {| kw_learning_rate := Some (1 / 10) |} in
  train_epoch [[3; 4]; [1; 0]] [11; 1] kw self = (tt, self).
Proof.
  intros self kw.
  apply (proj2 (@linear_exact_fit_is_fixed self)).
  - repeat constructor.
  - np_compute. array_eq; lra.
Defined.

Lemma neural_training_keeps_shapes_witness :
  let kw := {| kw_learning_rate := None |} in
  Neural.well_shaped 2 1
    (snd (train_epoch [[3; 1]; [1; 3]] [4; 5] kw (Neural.init [[1]; [-1]] [[2]] 1))).
Proof.
  intros kw.
  apply (proj2 (@neural_training_keeps_shapes 2 1)).
  - apply (proj1 (@neural_training_keeps_shapes 2 1)).
    + split; [reflexivity | repeat constructor].
    + split; [reflexivity | repeat constructor].
    + exact (Nat.lt_0_succ 1).
    + exact Nat.lt_0_1.
  - repeat constructor.
Defined.

Lemma linear_fresh_model_witness :
  fst (Linear.update_weight [3; 4] 5 (1 / 10) (Linear.init 2)) = scale (2 * (1 / 10) * 5) [3; 4].
Proof.
  exact (proj2 (@linear_fresh_model 2) [3; 4] 5 (1 / 10) eq_refl).
Defined.

Lemma zero_learning_rate_changes_nothing_witness :
  let self := Neural.init [[1]; [-1]] [[2]] 1 in
  snd (Neural.update_weight [3; 1] 7 0 self) = self.
Proof.
  intros self.
  exact (proj2 zero_learning_rate_changes_nothing 2%nat 1%nat self [3; 1] 7
               sample_network_shaped eq_refl).
Defined.

(** ** How main ends *)

Lemma train_and_plot_completed_only_with_epochs (M : Type) (rm : RegressionModel M)
    (get_w : M -> vec) (env : Main.environment) (opt : Main.namespace)
    (test_X : mat) (test_y : vec) (analytic_solution : option vec) (st : Main.loop_state) :
  snd (Main.train_and_plot get_w env opt test_X test_y analytic_solution st) = Main.Completed ->
  exists (e : nat) (epochs : list nat), Main.arange_epochs env opt = inr (e :: epochs).
Proof.
  intros Hc. destruct (Main.arange_epochs env opt) as [exception|[|e epochs]] eqn:Har.
  - erewrite train_and_plot_arange_raises in Hc by exact Har. discriminate.
  - erewrite train_and_plot_without_epochs in Hc by exact Har. discriminate.
  - now exists e, epochs.
Qed.

Lemma train_and_plot_raises_with_log (M : Type) (rm : RegressionModel M)
    (get_w : M -> vec) (env : Main.environment) (opt : Main.namespace)
    (test_X : mat) (test_y : vec) (analytic_solution : option vec) (st : Main.loop_state) :
  Main.printed (Main.log st) = [] ->
  let run := Main.train_and_plot get_w env opt test_X test_y analytic_solution st in
  snd run <> Main.Completed ->
  exists exception : string, run = (Main.log st, Main.Raised exception).
Proof.
  intros Hlog run Hc. unfold run in *.
  destruct (Main.arange_epochs env opt) as [exception|[|e epochs]] eqn:Har.
  - exists exception. now apply train_and_plot_arange_raises.
  - exists "IndexError"%string. now apply train_and_plot_without_epochs.
  - destruct (@train_and_plot_completes _ rm get_w env opt test_X test_y analytic_solution st
                (e :: epochs) Har) as [Hd _]; [discriminate | exact Hlog | contradiction].
Qed.

(** X20: a run that argparse lets through never stops half way.  For an
    accepted command line and collaborators that fit together, [main] runs
    to its end exactly when [np.arange] returns an array of epochs that is
    not empty and, for [nn], the weights are drawn; otherwise it raises
    before the first epoch, having printed no line and shown no plot.  In
    particular it raises [IndexError], in [plot] on [epochs[-1]], when the
    array of epochs is empty, and [ValueError] for [nn] with a negative
    hidden size. *)
Theorem main_raises_only_before_training (args : Main.invocation) (env : Main.environment)
    (opt : Main.namespace) :
  Main.parse_args args = inr opt ->
  orderly env ->
  let nn := String.eqb (Main.model opt) "nn" in
  let log0 := [Main.ConfigureSeed 42; Main.LoadData (negb nn)] in
  let stop := (Main.epochs opt + 1)%Z in
  let ready := Main.model opt = "nn"%string -> weights_drawn env (Main.hidden_size opt) in
  (snd (Main.main args env) = Main.Completed <->
   (exists (e : nat) (epochs : list nat), Main.arange_from_1 env stop = inr (e :: epochs))
   /\ ready) /\
  (snd (Main.main args env) <> Main.Completed ->
   exists exception : string, Main.main args env = (log0, Main.Raised exception)) /\
  (Main.arange_from_1 env stop = inr [] -> ready ->
   Main.main args env = (log0, Main.Raised "IndexError")) /\
  (Main.model opt = "nn"%string -> (Main.hidden_size opt < 0)%Z ->
   Main.main args env = (log0, Main.Raised "ValueError")).
Proof.
  intros Hp _. cbv zeta.
  destruct (@parse_args_accepts args opt Hp) as (_ & _ & [Hm|Hm] & _).
  - rewrite (@main_linear_regression args env opt Hp Hm), Hm. simpl String.eqb. cbn [negb].
    split; [|split; [|split]].
    + split.
      * intros Hc. split; [|discriminate].
        exact (@train_and_plot_completed_only_with_epochs _ Linear_model _ _ _ _ _ _ _ Hc).
      * intros [(e & epochs & Har) _].
        apply (@train_and_plot_completes _ Linear_model Linear.w env opt _ _ _ _
                 (e :: epochs) Har); [discriminate | reflexivity].
    + intros Hc. refine (@train_and_plot_raises_with_log _ Linear_model _ _ _ _ _ _ _ _ Hc).
      reflexivity.
    + intros Har _. exact (@train_and_plot_without_epochs _ Linear_model _ _ _ _ _ _ _ Har).
    + discriminate.
  - rewrite (@main_nn args env opt Hp Hm), Hm. simpl String.eqb. cbn [negb].
    destruct (Z.ltb_spec (Main.hidden_size opt) 0) as [Hneg|Hpos].
    { split; [|split; [|split]].
      - split; [discriminate|]. intros [_ Hw]. destruct (Hw eq_refl) as [Hh _]. lia.
      - intros _. now exists "ValueError"%string.
      - intros _ Hw. destruct (Hw eq_refl) as [Hh _]. lia.
      - reflexivity. }
    destruct (Main.random_normal env 0 _ _) as [exception|W0] eqn:H0.
    { split; [|split; [|split]].
      - split; [discriminate|]. intros [_ Hw].
        destruct (Hw eq_refl) as (_ & W0 & W1 & H0' & _). cbv zeta in H0'. congruence.
      - intros _. now exists exception.
      - intros _ Hw. destruct (Hw eq_refl) as (_ & W0 & W1 & H0' & _). cbv zeta in H0'.
        congruence.
      - intros _ Hh. lia. }
    destruct (Main.random_normal env 1 _ _) as [exception|W1] eqn:H1.
    { split; [|split; [|split]].
      - split; [discriminate|]. intros [_ Hw].
        destruct (Hw eq_refl) as (_ & W0' & W1 & _ & H1'). congruence.
      - intros _. now exists exception.
      - intros _ Hw. destruct (Hw eq_refl) as (_ & W0' & W1 & _ & H1'). congruence.
      - intros _ Hh. lia. }
    split; [|split; [|split]].
    + split.
      * intros Hc. split.
        -- exact (@train_and_plot_completed_only_with_epochs _ Neural_model _ _ _ _ _ _ _ Hc).
        -- intros _. split; [exact Hpos|]. cbv zeta. now exists W0, W1.
      * intros [(e & epochs & Har) _].
        apply (@train_and_plot_completes _ Neural_model (fun _ => []) env opt _ _ _ _
                 (e :: epochs) Har); [discriminate | reflexivity].
    + intros Hc. refine (@train_and_plot_raises_with_log _ Neural_model _ _ _ _ _ _ _ _ Hc).
      reflexivity.
    + intros Har _. exact (@train_and_plot_without_epochs _ Neural_model _ _ _ _ _ _ _ Har).
    + intros _ Hh. lia.
Qed.

Lemma main_raises_only_before_training_witness :
  let args := {| Main.arg_help := false;
                 Main.arg_model := "nn";
                 Main.arg_epochs := Main.Value (-3)%Z;
                 Main.arg_hidden_size := Main.Value 4%Z;
                 Main.arg_learning_rate := Main.Absent |} in
  Main.main args Main.sample_environment
  = ([Main.ConfigureSeed 42; Main.LoadData false], Main.Raised "IndexError").
Proof.
  intros args.
  refine (proj1 (proj2 (proj2
            (@main_raises_only_before_training args Main.sample_environment
               {| Main.model := "nn"; Main.epochs := -3;
                  Main.hidden_size := 4; Main.learning_rate := 1 / 1000 |}
               eq_refl orderly_sample_environment))) eq_refl _).
  intros _. split; [simpl; lia|]. cbn. eexists. eexists. split; reflexivity.
Defined.
